(** * ReShade Linux installer: executable classification, link manager,
      shader merge, per-game store and install/uninstall transactions.

    A shallow embedding of [reshade-linux.py].  Python values are modelled
    as follows.

    - [str] is [string]; a [pathlib.Path] is represented by its string form
      [str(path)], which pathlib keeps normalised, so that [str(p)] and
      [Path(str(p))] are both the identity on this representation.
    - a raised exception is the [Raise] outcome of [res]; [try]/[except]
      is [try_except].
    - a Python [set] of strings is a [gset string], a [dict] with string
      keys a [gmap string _].
    - the file system is a finite map from paths to nodes; see [Fs]. *)

From Stdlib Require Import ZArith Ascii String Sorted.
From Stdlib.Strings Require Import Byte.
From stdpp Require Import base option list strings gmap fin_maps pretty.

Set Warnings "-register-all".

Local Open Scope string_scope.
Local Open Scope list_scope.

(** ** Exceptions and results *)

Inductive exn : Type :=
| FileNotFoundError (msg : string)
| FileExistsError
| IsADirectoryError
| NotADirectoryError
| TypeError
| KeyError
| PEFormatError
| struct_error
| OSError
| RuntimeError (msg : string)
| shutil_Error
(** not an exception of the program: a loaded record has a field whose
    value is of another type than the dataclass declares, which the typed
    record below cannot hold *)
| DynamicType.

Inductive res (A : Type) : Type :=
| Ok (a : A)
| Raise (e : exn).
Arguments Ok {A} a.
Arguments Raise {A} e.

Definition res_bind {A B} (m : res A) (k : A -> res B) : res B :=
  match m with
  | Ok a => k a
  | Raise e => Raise e
  end.

(** [try: body except Exception: handler] *)
Definition try_except {A} (body : res A) (handler : exn -> res A) : res A :=
  match body with
  | Ok a => Ok a
  | Raise e => handler e
  end.

Definition is_Ok {A} (r : res A) : Prop :=
  match r with Ok _ => True | Raise _ => False end.

(** ** Strings *)

(** [str.lower()] on the ASCII range; the names and extensions it is
    compared with in this program are pure ASCII. *)
Definition ascii_lower (c : ascii) : ascii :=
  let n := nat_of_ascii c in
  if (65 <=? n)%nat && (n <=? 90)%nat then ascii_of_nat (n + 32) else c.

Fixpoint lower (s : string) : string :=
  match s with
  | EmptyString => EmptyString
  | String c r => String (ascii_lower c) (lower r)
  end.

(** ** Executable analysis *)

Module Exe.

(** What [pefile.PE(path, fast_load=True)] followed by
    [parse_data_directories] exposes to the caller: the machine word of the
    file header and, when the attribute is present, the names [entry.dll]
    of the import descriptors (after [decode]). *)
Record pe_image : Type := {
  Machine : Z;
  DIRECTORY_ENTRY_IMPORT : option (list string);
}.

(** An executable on disk as the function sees it: the outcome of pefile's
    structured parse ([Raise] when it throws) and what [open(path, "rb")]
    gives ([Raise] when the file cannot be opened, else its bytes). *)
Record exe_file : Type := {
  pe_parse : res pe_image;
  raw : res (list byte);
}.

Definition IMAGE_FILE_MACHINE_I386 : Z := 0x14c.

Definition byte_val (b : byte) : Z := Z.of_N (Byte.to_N b).

(** [f.seek(off); f.read(n)]: at most [n] bytes, fewer at end of file. *)
Definition read_at (data : list byte) (off : Z) (n : nat) : list byte :=
  take n (drop (Z.to_nat off) data).

(** [struct.unpack("<I", b)[0]]: needs exactly four bytes. *)
Definition unpack_I (b : list byte) : res Z :=
  match b with
  | [b0; b1; b2; b3] =>
      Ok (Z.lor (byte_val b0)
           (Z.lor (Z.shiftl (byte_val b1) 8)
             (Z.lor (Z.shiftl (byte_val b2) 16) (Z.shiftl (byte_val b3) 24))))
  | _ => Raise struct_error
  end.

(** [struct.unpack("<H", b)[0]]: needs exactly two bytes. *)
Definition unpack_H (b : list byte) : res Z :=
  match b with
  | [b0; b1] => Ok (Z.lor (byte_val b0) (Z.shiftl (byte_val b1) 8))
  | _ => Raise struct_error
  end.

(** The body of the inner [try]: the raw machine word. *)
Definition read_machine (f : exe_file) : res Z :=
  res_bind (raw f) (fun data =>
  res_bind (unpack_I (read_at data 0x3C 4)) (fun pe_offset =>
  unpack_H (read_at data (pe_offset + 4) 2))).

(** The [if]/[elif] chain over the lowered import names. *)
Definition classify_imports (imports : gset string) (api dll : string)
  : string * string :=
  if bool_decide ("d3d12.dll" ∈ imports) then ("dx12", "dxgi")
  else if bool_decide ("d3d11.dll" ∈ imports) || bool_decide ("dxgi.dll" ∈ imports)
       then ("dx11", "dxgi")
  else if bool_decide ("d3d10.dll" ∈ imports) || bool_decide ("d3d10_1.dll" ∈ imports)
       then ("dx10", "d3d10")
  else if bool_decide ("d3d9.dll" ∈ imports) then ("dx9", "d3d9")
  else if bool_decide ("opengl32.dll" ∈ imports) then ("opengl", "opengl32")
  else if bool_decide ("d3d8.dll" ∈ imports) then ("dx8", "d3d8")
  else (api, dll).

Definition import_set (entries : list string) : gset string :=
  list_to_set (lower <$> entries).

(** The body of the outer [try], once the parse has succeeded.  What
    follows the parse reads attributes, decodes with [errors="ignore"] and
    compares strings: nothing in it raises. *)
Definition analyze_parsed (pe : pe_image) (arch : Z) (api dll : string)
  : Z * string * string :=
  let arch := if (Machine pe =? IMAGE_FILE_MACHINE_I386)%Z then 32%Z else arch in
  let '(api, dll) :=
    match DIRECTORY_ENTRY_IMPORT pe with
    | Some entries => classify_imports (import_set entries) api dll
    | None => (api, dll)
    end in
  (arch, api, dll).

(** The outer [except Exception] handler. *)
Definition analyze_fallback (f : exe_file) (arch : Z) (api dll : string)
  : res (Z * string * string) :=
  try_except
    (res_bind (read_machine f) (fun machine =>
       if (machine =? 0x14C)%Z then Ok (32%Z, api, "d3d9")
       else Ok (arch, api, dll)))
    (fun _ => Ok (arch, api, dll)).

Definition analyze_executable (f : exe_file) : res (Z * string * string) :=
  let arch := 64%Z in
  let api := "dx11" in
  let dll := "dxgi" in
  try_except
    (res_bind (pe_parse f) (fun pe => Ok (analyze_parsed pe arch api dll)))
    (fun _ => analyze_fallback f arch api dll).

(** The API to override-module table of the interface section of the
    specification, written from its words. *)
Definition default_module (api : string) : option string :=
  if String.eqb api "dx12" then Some "dxgi"
  else if String.eqb api "dx11" then Some "dxgi"
  else if String.eqb api "dx10" then Some "d3d10"
  else if String.eqb api "dx9" then Some "d3d9"
  else if String.eqb api "opengl" then Some "opengl32"
  else if String.eqb api "dx8" then Some "d3d8"
  else None.

End Exe.

(** ** State and exceptions

    An operation on a state [S] either returns or raises, and in both
    cases leaves a state behind: what was done before an exception stays
    done. *)

Definition M (S A : Type) : Type := S -> res A * S.

Definition ret {S A} (a : A) : M S A := fun s => (Ok a, s).

Definition bind {S A B} (m : M S A) (k : A -> M S B) : M S B :=
  fun s =>
    match m s with
    | (Ok a, s') => k a s'
    | (Raise e, s') => (Raise e, s')
    end.

Definition raise {S A} (e : exn) : M S A := fun s => (Raise e, s).

(** An outcome that does not depend on the state. *)
Definition lift_res {S A} (r : res A) : M S A := fun s => (r, s).

(** Read the state with a pure function. *)
Definition gets {S A} (f : S -> A) : M S A := fun s => (Ok (f s), s).

(** Replace the state. *)
Definition modify {S} (f : S -> S) : M S unit := fun s => (Ok tt, f s).

Declare Scope py_scope.
Delimit Scope py_scope with py.
Notation "x <- m ;; k" := (bind m (fun x => k))
  (at level 100, m at next level, right associativity) : py_scope.
Notation "m ;;; k" := (bind m (fun _ => k))
  (at level 100, right associativity) : py_scope.
Local Open Scope py_scope.

(** [for x in l: body x] *)
Fixpoint for_each {S A} (l : list A) (body : A -> M S unit) : M S unit :=
  match l with
  | [] => ret tt
  | x :: r => body x ;;; for_each r body
  end.

(** ** Paths *)

Module Path.

(** Splits at the last slash: [(before, after)], or [None] without slash. *)
Fixpoint split_last (p : string) : option (string * string) :=
  match p with
  | EmptyString => None
  | String c r =>
      match split_last r with
      | Some (d, n) => Some (String c d, n)
      | None => if Ascii.eqb c "/" then Some (EmptyString, r) else None
      end
  end.

(** [path.name]: the final component. *)
Definition name (p : string) : string :=
  match split_last p with
  | Some (_, n) => n
  | None => p
  end.

(** [path.parent] *)
Definition parent (p : string) : string :=
  match split_last p with
  | Some (d, _) => if String.eqb d "" then "/" else d
  | None => "."
  end.

(** The root contributes no text of its own in front of a separator. *)
Definition base (p : string) : string :=
  if String.eqb p "/" then "" else p.

(** [path.is_absolute()] *)
Definition is_absolute (p : string) : bool :=
  match p with
  | EmptyString => false
  | String c _ => Ascii.eqb c "/"
  end.

(** [p / n]: an empty [n] adds nothing, an absolute [n] replaces [p]. *)
Definition join (p n : string) : string :=
  if String.eqb n "" then p
  else if is_absolute n then n
  else base p +:+ "/" +:+ n.

(** Splits at the last dot: [(before, dot and after)]. *)
Fixpoint split_dot (s : string) : option (string * string) :=
  match s with
  | EmptyString => None
  | String c r =>
      match split_dot r with
      | Some (a, b) => Some (String c a, b)
      | None => if Ascii.eqb c "." then Some (EmptyString, String c r) else None
      end
  end.

(** [path.suffix]: the last dot of the name and what follows it, unless
    that dot starts or ends the name. *)
Definition suffix (p : string) : string :=
  match split_dot (name p) with
  | Some (a, b) =>
      if String.eqb a "" || String.eqb b "." then "" else b
  | None => ""
  end.

(** [k] is an entry of directory [d]. *)
Definition is_child (d k : string) : bool :=
  negb (String.eqb (name k) "") && String.eqb k (join d (name k)).

(** [k] lies below [d], at any depth. *)
Definition is_below (d k : string) : bool :=
  String.prefix (base d +:+ "/") k && negb (String.eqb k (base d +:+ "/")).

End Path.

(** ** File system

    A finite map from path strings to nodes.  Directories on the way to an
    entry are taken to be real directories, so that two different path
    strings name two different entries; link targets are absolute paths,
    as are those of every link this program makes; there are no
    permissions, so an operation fails only for the shape of the tree. *)

Inductive node : Type :=
| File (content : string)
| Dir
| Symlink (target : string).

#[global] Instance node_eq_dec : EqDecision node.
Proof. solve_decision. Defined.

Abbreviation fs := (gmap string node).

(** What the operating system is left free to choose, and what the
    libraries do that this program does not depend on. *)
Record os_env : Type := {
  (** the order in which a directory scan yields its entries *)
  scan_order : list string -> list string;
  (** [path.resolve()] *)
  resolve : fs -> string -> string;
  (** [shutil.move(src, dst)] *)
  shutil_move : string -> string -> M fs unit;
  (** the download and extraction inside [download_d3dcompiler] *)
  fetch_d3dcompiler : Z -> string -> M fs unit;
}.

Module Fs.

Definition MAXSYMLINKS : nat := 40.

(** [os.stat]: follows symbolic links, [None] when the path is absent,
    dangling or loops. *)
Fixpoint stat_fuel (n : nat) (σ : fs) (p : string) : option node :=
  match σ !! p with
  | Some (Symlink t) =>
      match n with
      | O => None
      | S n' => stat_fuel n' σ t
      end
  | o => o
  end.

Definition stat (σ : fs) (p : string) : option node :=
  stat_fuel MAXSYMLINKS σ p.

(** [path.is_symlink()] *)
Definition is_symlink (σ : fs) (p : string) : bool :=
  match σ !! p with
  | Some (Symlink _) => true
  | _ => false
  end.

(** [path.exists()] *)
Definition exists_ (σ : fs) (p : string) : bool :=
  match stat σ p with
  | Some _ => true
  | None => false
  end.

(** [path.is_file()] *)
Definition is_file (σ : fs) (p : string) : bool :=
  match stat σ p with
  | Some (File _) => true
  | _ => false
  end.

(** [path.is_dir()] *)
Definition is_dir (σ : fs) (p : string) : bool :=
  match stat σ p with
  | Some Dir => true
  | _ => false
  end.

(** [path.read_text()] *)
Definition read_text (p : string) : M fs string :=
  fun σ =>
    match stat σ p with
    | Some (File c) => (Ok c, σ)
    | Some _ => (Raise IsADirectoryError, σ)
    | None => (Raise (FileNotFoundError p), σ)
    end.

(** [path.unlink()]: removes a file or a link, refuses a directory. *)
Definition unlink (p : string) : M fs unit :=
  fun σ =>
    match σ !! p with
    | None => (Raise (FileNotFoundError p), σ)
    | Some Dir => (Raise IsADirectoryError, σ)
    | Some _ => (Ok tt, delete p σ)
    end.

(** [path.symlink_to(target)] *)
Definition symlink_to (p target : string) : M fs unit :=
  fun σ =>
    match σ !! p with
    | Some _ => (Raise FileExistsError, σ)
    | None =>
        if is_dir σ (Path.parent p)
        then (Ok tt, <[p := Symlink target]> σ)
        else if exists_ σ (Path.parent p)
        then (Raise NotADirectoryError, σ)
        else (Raise (FileNotFoundError p), σ)
    end.

Definition paths (σ : fs) : list string := (map_to_list σ).*1.

(** [path.iterdir()], in the order the system yields. *)
Definition iterdir (E : os_env) (d : string) : M fs (list string) :=
  fun σ =>
    if is_dir σ d
    then (Ok (scan_order E (filter (fun k => Path.is_child d k) (paths σ))), σ)
    else if exists_ σ d
    then (Raise NotADirectoryError, σ)
    else (Raise (FileNotFoundError d), σ).

(** [path.rglob(nm)] for a literal name: every entry below [d] called
    [nm]. *)
Definition rglob (E : os_env) (d nm : string) : M fs (list string) :=
  gets (fun σ =>
    scan_order E
      (filter (fun k => Path.is_below d k ∧ Path.name k = nm) (paths σ))).

End Fs.

(** ** Link manager *)

Section Links.
Context (E : os_env).

(** [target.with_suffix(target.suffix + ".backup")] puts [".backup"]
    behind the name. *)
Definition safe_symlink (source target : string) (backup : bool) : M fs unit :=
  is_l <- gets (fun σ => Fs.is_symlink σ target) ;;
  (if is_l then Fs.unlink target
   else
     ex <- gets (fun σ => Fs.exists_ σ target) ;;
     if ex && backup then
       let backup_path := target +:+ ".backup" in
       shutil_move E target backup_path
     else if ex then Fs.unlink target
     else ret tt) ;;;
  src <- gets (fun σ => resolve E σ source) ;;
  Fs.symlink_to target src.

Definition safe_unlink (path : string) : M fs bool :=
  is_l <- gets (fun σ => Fs.is_symlink σ path) ;;
  if is_l then Fs.unlink path ;;; ret true
  else ret false.

End Links.

(** ** Configuration *)

Record Config : Type := {
  main_path : string;
  reshade_version : string;
  addon_support : bool;
  merge_shaders_enabled : bool;
  global_ini : string;
}.

Definition reshade_path (c : Config) : string := Path.join (main_path c) "reshade".
Definition shaders_path (c : Config) : string := Path.join (main_path c) "ReShade_shaders".
Definition merged_path (c : Config) : string := Path.join (shaders_path c) "Merged".
Definition external_shaders_path (c : Config) : string :=
  Path.join (main_path c) "External_shaders".
Definition games_config_path (c : Config) : string := Path.join (main_path c) "games.json".

Definition SHADER_EXTENSIONS : gset string := {[ ".fx"; ".fxh" ]}.
Definition TEXTURE_EXTENSIONS : gset string :=
  {[ ".png"; ".jpg"; ".jpeg"; ".dds"; ".bmp"; ".tga" ]}.

(** ** Merge engine

    A directory is listed when its loop starts, as [os.listdir] does; the
    links are made in the merged directories only, which no loop lists,
    so listing a tree up front or while walking it gives the same. *)

(** The local [seen_files] set together with the file system. *)
Record merge_state : Type := {
  seen_files : gset string;
  mfs : fs;
}.

Definition lift_fs {A} (m : M fs A) : M merge_state A :=
  fun st =>
    let '(r, σ') := m (mfs st) in
    (r, {| seen_files := seen_files st; mfs := σ' |}).

Section Merge.
Context (E : os_env).

(** The loop that clears the links of one destination directory. *)
Definition clear_links (directory : string) : M fs unit :=
  ex <- gets (fun σ => Fs.exists_ σ directory) ;;
  if ex then
    items <- Fs.iterdir E directory ;;
    for_each items (fun item =>
      is_l <- gets (fun σ => Fs.is_symlink σ item) ;;
      if is_l then Fs.unlink item else ret tt)
  else ret tt.

Definition link_file (source target_dir : string) : M merge_state bool :=
  seen <- gets seen_files ;;
  if bool_decide (Path.name source ∈ seen) then ret false
  else
    modify (fun st => {| seen_files := {[ Path.name source ]} ∪ seen_files st;
                         mfs := mfs st |}) ;;;
    let target := Path.join target_dir (Path.name source) in
    ex <- gets (fun st => Fs.exists_ (mfs st) target) ;;
    if negb ex then
      src <- gets (fun st => resolve E (mfs st) source) ;;
      lift_fs (Fs.symlink_to target src) ;;;
      ret true
    else ret false.

(** [for f in dir.iterdir(): if f.is_file(): link_file(f, target_dir)] *)
Definition link_files_in (dir target_dir : string) : M merge_state unit :=
  items <- lift_fs (Fs.iterdir E dir) ;;
  for_each items (fun f =>
    is_f <- gets (fun st => Fs.is_file (mfs st) f) ;;
    if is_f then link_file f target_dir ;;; ret tt else ret tt).

(** [for sub in repo_dir.rglob(nm): if sub.is_dir(): ...] *)
Definition link_tree (repo_dir nm target_dir : string) : M merge_state unit :=
  subs <- lift_fs (Fs.rglob E repo_dir nm) ;;
  for_each subs (fun sub =>
    is_d <- gets (fun st => Fs.is_dir (mfs st) sub) ;;
    if is_d then link_files_in sub target_dir else ret tt).

Definition merge_repos (c : Config) (merged_shaders merged_textures : string)
  : M merge_state unit :=
  repos <- lift_fs (Fs.iterdir E (shaders_path c)) ;;
  for_each repos (fun repo_dir =>
    is_d <- gets (fun st => Fs.is_dir (mfs st) repo_dir) ;;
    if String.eqb (Path.name repo_dir) "Merged" || negb is_d then ret tt
    else
      link_tree repo_dir "Shaders" merged_shaders ;;;
      link_tree repo_dir "Textures" merged_textures).

Definition merge_external (c : Config) (merged_shaders merged_textures : string)
  : M merge_state unit :=
  let external := external_shaders_path c in
  ex <- gets (fun st => Fs.exists_ (mfs st) external) ;;
  if ex then
    let ext_shaders := Path.join external "Shaders" in
    let ext_textures := Path.join external "Textures" in
    (ex_s <- gets (fun st => Fs.exists_ (mfs st) ext_shaders) ;;
     if ex_s then link_files_in ext_shaders merged_shaders else ret tt) ;;;
    (ex_t <- gets (fun st => Fs.exists_ (mfs st) ext_textures) ;;
     if ex_t then link_files_in ext_textures merged_textures else ret tt) ;;;
    items <- lift_fs (Fs.iterdir E external) ;;
    for_each items (fun item =>
      is_f <- gets (fun st => Fs.is_file (mfs st) item) ;;
      if negb is_f then ret tt
      else
        let suffix := lower (Path.suffix item) in
        if bool_decide (suffix ∈ SHADER_EXTENSIONS)
        then link_file item merged_shaders ;;; ret tt
        else if bool_decide (suffix ∈ TEXTURE_EXTENSIONS)
        then link_file item merged_textures ;;; ret tt
        else ret tt)
  else ret tt.

(** Everything after [seen_files = set()]. *)
Definition merge_body (c : Config) (merged_shaders merged_textures : string)
  : M merge_state unit :=
  merge_repos c merged_shaders merged_textures ;;;
  merge_external c merged_shaders merged_textures.

(** [merge_shaders]; the number it prints, [len(seen_files)], is what the
    model returns. *)
Definition merge_shaders (c : Config) : M fs nat :=
  let merged_shaders := Path.join (merged_path c) "Shaders" in
  let merged_textures := Path.join (merged_path c) "Textures" in
  for_each [merged_shaders; merged_textures] clear_links ;;;
  fun σ =>
    match merge_body c merged_shaders merged_textures
            {| seen_files := ∅; mfs := σ |} with
    | (Ok _, st) => (Ok (size (seen_files st)), mfs st)
    | (Raise e, st) => (Raise e, mfs st)
    end.

End Merge.

(** ** JSON values and the per-game record *)

Inductive json : Type :=
| JNull
| JBool (b : bool)
| JInt (n : Z)
| JFloat (nonzero : bool)
| JStr (s : string)
| JArr (l : list json)
| JObj (m : gmap string json).

(** Python truth value of a decoded JSON value. *)
Definition truthy (v : json) : bool :=
  match v with
  | JNull => false
  | JBool b => b
  | JInt n => negb (n =? 0)%Z
  | JFloat nz => nz
  | JStr s => negb (String.eqb s "")
  | JArr l => match l with [] => false | _ => true end
  | JObj m => negb (bool_decide (m = ∅))
  end.

(** [data[key]] for a string key. *)
Definition subscript (data : json) (key : string) : res json :=
  match data with
  | JObj m =>
      match m !! key with
      | Some v => Ok v
      | None => Raise KeyError
      end
  | _ => Raise TypeError
  end.

(** [needle in hay] on strings. *)
Fixpoint is_substring (needle hay : string) : bool :=
  String.prefix needle hay ||
  match hay with
  | EmptyString => false
  | String _ r => is_substring needle r
  end.

(** [key in container] for a string key. *)
Definition py_in (key : string) (container : json) : res bool :=
  match container with
  | JObj m => Ok (bool_decide (is_Some (m !! key)))
  | JArr l =>
      Ok (existsb (fun v => match v with JStr s => String.eqb s key | _ => false end) l)
  | JStr s => Ok (is_substring key s)
  | _ => Raise TypeError
  end.

(** [Path(v)]: only a string makes a path; the strings of the document
    are taken in the form in which pathlib prints a path. *)
Definition Path_of (v : json) : res string :=
  match v with
  | JStr s => Ok s
  | _ => Raise TypeError
  end.

Module GameInfo.

Record t : Type := {
  name : string;
  path : string;
  exe_files : list string;
  architecture : Z;
  detected_api : string;
  dll_override : string;
  install_path : string;
  selected_exe : option string;
}.

(** The generated constructor followed by [__post_init__]. *)
Definition new (name path : string) (exe_files : list string)
    (architecture : Z) (detected_api dll_override : string)
    (install_path selected_exe : option string) : t :=
  {| name := name; path := path; exe_files := exe_files;
     architecture := architecture; detected_api := detected_api;
     dll_override := dll_override;
     install_path := match install_path with
                     | Some p => p
                     | None => path
                     end;
     selected_exe := selected_exe |}.

(** A path object is always true, so [install_path] is always written as
    a string. *)
Definition to_dict (self : t) : gmap string json :=
  <[ "name" := JStr (name self) ]>
  (<[ "path" := JStr (path self) ]>
  (<[ "architecture" := JInt (architecture self) ]>
  (<[ "detected_api" := JStr (detected_api self) ]>
  (<[ "dll_override" := JStr (dll_override self) ]>
  (<[ "install_path" := JStr (install_path self) ]>
  (<[ "selected_exe" := match selected_exe self with
                        | Some p => JStr p
                        | None => JNull
                        end ]> ∅)))))).

(** [data.get(key, default)] on a dictionary. *)
Definition get_default (m : gmap string json) (key : string) (d : json) : json :=
  match m !! key with
  | Some v => v
  | None => d
  end.

(** [Path(data[key]) if data.get(key) else None] *)
Definition optional_path (m : gmap string json) (key : string)
  : res (option string) :=
  if truthy (get_default m key JNull)
  then res_bind (res_bind (subscript (JObj m) key) Path_of) (fun p => Ok (Some p))
  else Ok None.

Definition as_str (v : json) : res string :=
  match v with
  | JStr s => Ok s
  | _ => Raise DynamicType
  end.

Definition as_int (v : json) : res Z :=
  match v with
  | JInt n => Ok n
  | _ => Raise DynamicType
  end.

Definition from_dict (data : json) : res t :=
  res_bind (subscript data "name") (fun name_v =>
  res_bind (res_bind (subscript data "path") Path_of) (fun path =>
  match data with
  | JObj m =>
      let architecture_v := get_default m "architecture" (JInt 64) in
      let detected_api_v := get_default m "detected_api" (JStr "dx11") in
      let dll_override_v := get_default m "dll_override" (JStr "dxgi") in
      res_bind (optional_path m "install_path") (fun install_path =>
      res_bind (optional_path m "selected_exe") (fun selected_exe =>
      res_bind (as_str name_v) (fun name =>
      res_bind (as_int architecture_v) (fun architecture =>
      res_bind (as_str detected_api_v) (fun detected_api =>
      res_bind (as_str dll_override_v) (fun dll_override =>
      Ok (new name path [] architecture detected_api dll_override
            install_path selected_exe)))))))
  | _ => Raise TypeError
  end)).

End GameInfo.

(** ** Games configuration manager *)

(** The backing document at [games_config_path]: absent, or a text that
    [json.loads] either decodes or rejects. *)
Inductive document : Type :=
| NoFile
| Text (decoded : option json).

(** The installer's state: the file system, the backing document and the
    manager's in-memory [_cache]. *)
Record state : Type := {
  fs_of : fs;
  games_json : document;
  _cache : json;
}.

Definition lift_state {A} (m : M fs A) : M state A :=
  fun st =>
    let '(r, σ') := m (fs_of st) in
    (r, {| fs_of := σ'; games_json := games_json st; _cache := _cache st |}).

Definition set_cache (c : json) : M state unit :=
  modify (fun st => {| fs_of := fs_of st; games_json := games_json st; _cache := c |}).

(** [try: body except (KeyError, TypeError): handler] *)
Definition try_except_KeyError_TypeError {S A} (body : M S A) (handler : M S A)
  : M S A :=
  fun s =>
    match body s with
    | (Raise KeyError, s') | (Raise TypeError, s') => handler s'
    | r => r
    end.

Module GamesConfigManager.

(** [_load]: the cache a fresh manager starts with. *)
Definition _load (doc : document) : json :=
  match doc with
  | Text (Some j) => j
  | Text None => JObj ∅
  | NoFile => JObj ∅
  end.

(** [__init__] on top of a file system and a backing document. *)
Definition init (σ : fs) (doc : document) : state :=
  {| fs_of := σ; games_json := doc; _cache := _load doc |}.

(** [_save]: the document becomes the text of the cache.  The write is
    taken to succeed, and [json.loads] to give back what [json.dumps] was
    given. *)
Definition _save : M state unit :=
  modify (fun st => {| fs_of := fs_of st;
                       games_json := Text (Some (_cache st));
                       _cache := _cache st |}).

Section Manager.
Context (E : os_env).

Definition _game_key (game_path : string) : M state string :=
  gets (fun st => resolve E (fs_of st) game_path).

Definition get (game_path : string) : M state (option GameInfo.t) :=
  key <- _game_key game_path ;;
  cache <- gets _cache ;;
  found <- lift_res (py_in key cache) ;;
  if (found : bool) then
    try_except_KeyError_TypeError
      (data <- lift_res (subscript cache key) ;;
       game <- lift_res (GameInfo.from_dict data) ;;
       ret (Some game))
      (ret None)
  else ret None.

(** [self._cache[key] = value] *)
Definition setitem (key : string) (value : json) : M state unit :=
  cache <- gets _cache ;;
  match cache with
  | JObj m => set_cache (JObj (<[ key := value ]> m))
  | _ => raise TypeError
  end.

(** [del self._cache[key]] *)
Definition delitem (key : string) : M state unit :=
  cache <- gets _cache ;;
  match cache with
  | JObj m =>
      match m !! key with
      | Some _ => set_cache (JObj (delete key m))
      | None => raise KeyError
      end
  | _ => raise TypeError
  end.

Definition save (game : GameInfo.t) : M state unit :=
  key <- _game_key (GameInfo.path game) ;;
  setitem key (JObj (GameInfo.to_dict game)) ;;;
  _save.

Definition remove (game_path : string) : M state unit :=
  key <- _game_key game_path ;;
  cache <- gets _cache ;;
  found <- lift_res (py_in key cache) ;;
  if (found : bool) then delitem key ;;; _save
  else ret tt.

End Manager.

End GamesConfigManager.

(** ** Installer *)

Definition RESHADE_LINKS : list string :=
  [ "d3d8.dll"; "d3d9.dll"; "d3d10.dll"; "d3d11.dll"; "dxgi.dll";
    "ddraw.dll"; "dinput8.dll"; "opengl32.dll"; "d3dcompiler_47.dll";
    "ReShade.ini"; "ReShade_shaders"; "ReShade32.json"; "ReShade64.json" ].

(** ASCII white space, as removed by [str.strip()]. *)
Definition is_space (c : ascii) : bool :=
  let n := nat_of_ascii c in
  ((9 <=? n)%nat && (n <=? 13)%nat) || ((28 <=? n)%nat && (n <=? 32)%nat).

Fixpoint lstrip (s : string) : string :=
  match s with
  | EmptyString => EmptyString
  | String c r => if is_space c then lstrip r else s
  end.

Fixpoint rstrip (s : string) : string :=
  match s with
  | EmptyString => EmptyString
  | String c r =>
      match rstrip r with
      | EmptyString => if is_space c then EmptyString else String c EmptyString
      | r' => String c r'
      end
  end.

Definition strip (s : string) : string := rstrip (lstrip s).

Section Installer.
Context (E : os_env) (config : Config).

Definition get_current_version : M fs string :=
  let version := reshade_version config in
  if String.eqb version "latest" then
    let lvers_path := Path.join (main_path config) "LVERS" in
    ex <- gets (fun σ => Fs.exists_ σ lvers_path) ;;
    if ex then
      text <- Fs.read_text lvers_path ;;
      ret (strip text)
    else ret version
  else ret version.

(** [download_d3dcompiler]: nothing to do when the file is there, else the
    download, the integrity check and the extraction, which either raise
    or leave the library at [dll_path]. *)
Definition download_d3dcompiler (arch : Z) : M fs unit :=
  let dll_path := Path.join (main_path config) ("d3dcompiler_47.dll." +:+ pretty arch) in
  ex <- gets (fun σ => Fs.exists_ σ dll_path) ;;
  if ex then ret tt
  else fetch_d3dcompiler E arch dll_path.

Definition install_to_game (game : GameInfo.t) : M state string :=
  version <- lift_state get_current_version ;;
  let reshade_dll :=
    Path.join (Path.join (reshade_path config) version)
      ("ReShade" +:+ pretty (GameInfo.architecture game) +:+ ".dll") in
  ex <- gets (fun st => Fs.exists_ (fs_of st) reshade_dll) ;;
  if negb ex then
    raise (FileNotFoundError ("ReShade DLL not found: " +:+ reshade_dll))
  else
    let install_dir := GameInfo.install_path game in
    (* Link ReShade DLL *)
    let target_dll := Path.join install_dir (GameInfo.dll_override game +:+ ".dll") in
    lift_state (safe_symlink E reshade_dll target_dll true) ;;;
    (* Link d3dcompiler_47.dll *)
    lift_state (download_d3dcompiler (GameInfo.architecture game)) ;;;
    let d3d_src :=
      Path.join (main_path config)
        ("d3dcompiler_47.dll." +:+ pretty (GameInfo.architecture game)) in
    let d3d_dst := Path.join install_dir "d3dcompiler_47.dll" in
    lift_state (safe_symlink E d3d_src d3d_dst false) ;;;
    (* Link shaders directory *)
    let shaders_link := Path.join install_dir "ReShade_shaders" in
    lift_state (safe_symlink E (shaders_path config) shaders_link false) ;;;
    (* Link config *)
    (if negb (String.eqb (global_ini config) "") then
       let ini_src := Path.join (main_path config) (global_ini config) in
       let ini_dst := Path.join install_dir (global_ini config) in
       ex_ini <- gets (fun st => Fs.exists_ (fs_of st) ini_src) ;;
       if ex_ini then lift_state (safe_symlink E ini_src ini_dst false)
       else ret tt
     else ret tt) ;;;
    (* Save game configuration *)
    GamesConfigManager.save E game ;;;
    ret (GameInfo.dll_override game).

(** The loop of [uninstall_from_game], with its [removed] list. *)
Fixpoint uninstall_links (game_path : string) (links removed : list string)
  : M fs (list string) :=
  match links with
  | [] => ret removed
  | link_name :: rest =>
      let link_path := Path.join game_path link_name in
      was_link <- safe_unlink link_path ;;
      uninstall_links game_path rest
        (if was_link then removed ++ [link_name] else removed)
  end.

Definition uninstall_from_game (game_path : string) : M fs (list string) :=
  uninstall_links game_path RESHADE_LINKS [].

(** [run_uninstall_flow] from the confirmation on: [game] is the record
    the selection dialogue ended with, [confirmed] the answer given. *)
Definition run_uninstall_flow (game : GameInfo.t) (confirmed : bool)
  : M state unit :=
  if confirmed then
    removed <- lift_state (uninstall_from_game (GameInfo.install_path game)) ;;
    match removed with
    | _ :: _ => GamesConfigManager.remove E (GameInfo.path game)
    | [] => ret tt
    end
  else ret tt.

End Installer.

(** ** Executable filter *)

Definition EXE_BLACKLIST : gset string :=
  {[ "unins"; "setup"; "install"; "crash"; "report"; "launcher"; "updater";
     "vc_redist"; "dxsetup"; "dotnet"; "directx"; "easyanticheat"; "battleye";
     "redist"; "vcredist"; "physx" ]}.

Definition is_game_executable (exe_path : string) : bool :=
  let name_lower := lower (Path.name exe_path) in
  negb (existsb (fun blacklisted => is_substring blacklisted name_lower)
          (elements EXE_BLACKLIST)).

(** ** Steam library scanner *)

(** [fnmatch(s, "*" + ext)]: [s] ends with [ext]. *)
Fixpoint ends_with (ext s : string) : bool :=
  String.eqb s ext ||
  match s with
  | EmptyString => false
  | String _ r => ends_with ext r
  end.

(** [sorted(l, key=key)] for string keys: a stable sort, strings being
    compared character by character. *)
Fixpoint insort {A} (key : A -> string) (x : A) (l : list A) : list A :=
  match l with
  | [] => [x]
  | y :: r =>
      if String.leb (key x) (key y) then x :: y :: r
      else y :: insort key x r
  end.

Definition sorted {A} (key : A -> string) (l : list A) : list A :=
  foldr (insort key) [] l.

Section Scanner.
Context (E : os_env).

(** [path.rglob("*" + ext)]: every entry below [d] whose name ends with
    [ext]. *)
Definition rglob_ext (d ext : string) : M fs (list string) :=
  gets (fun σ =>
    scan_order E
      (filter (fun k => Path.is_below d k ∧ ends_with ext (Path.name k) = true)
         (Fs.paths σ))).

(** The loop over the entries of one library. *)
Fixpoint scan_game_dirs (game_dirs : list string) (games : list GameInfo.t)
  : M fs (list GameInfo.t) :=
  match game_dirs with
  | [] => ret games
  | game_dir :: rest =>
      is_d <- gets (fun σ => Fs.is_dir σ game_dir) ;;
      if negb is_d then scan_game_dirs rest games
      else
        found <- rglob_ext game_dir ".exe" ;;
        let exe_files := List.filter is_game_executable found in
        match exe_files with
        | _ :: _ =>
            scan_game_dirs rest
              (games ++ [GameInfo.new (Path.name game_dir) game_dir exe_files
                           64 "dx11" "dxgi" None None])
        | [] => scan_game_dirs rest games
        end
  end.

(** The loop over the libraries. *)
Fixpoint scan_libraries (library_paths : list string) (games : list GameInfo.t)
  : M fs (list GameInfo.t) :=
  match library_paths with
  | [] => ret games
  | lib_path :: rest =>
      game_dirs <- Fs.iterdir E lib_path ;;
      games <- scan_game_dirs game_dirs games ;;
      scan_libraries rest games
  end.

(** [scan_for_games] once [self.library_paths] is filled in. *)
Definition scan_for_games (library_paths : list string) : M fs (list GameInfo.t) :=
  games <- scan_libraries library_paths [] ;;
  ret (sorted (fun g => lower (GameInfo.name g)) games).

End Scanner.

(** ** Listing the store *)

(** The loop of [list_all] over what [self._cache.values()] yields. *)
Fixpoint list_all_loop (values : list json) (games : list GameInfo.t)
  : res (list GameInfo.t) :=
  match values with
  | [] => Ok games
  | data :: rest =>
      match GameInfo.from_dict data with
      | Ok game => list_all_loop rest (games ++ [game])
      | Raise KeyError | Raise TypeError => list_all_loop rest games
      | Raise e => Raise e
      end
  end.

Definition list_all (values : list json) : res (list GameInfo.t) :=
  list_all_loop values [].

(** ** Dialogues

    A [questionary.Choice] is represented by its value; its title is only
    shown on the terminal.  What the user answers is a parameter. *)

Definition DLL_OPTIONS : list (string * string) :=
  [ ("dxgi", "DirectX 10/11/12");
    ("d3d9", "DirectX 9");
    ("d3d11", "DirectX 11 alternative");
    ("d3d10", "DirectX 10");
    ("opengl32", "OpenGL");
    ("d3d8", "DirectX 8");
    ("ddraw", "DirectDraw");
    ("dinput8", "DirectInput 8") ].

(** The loop that builds the choices of [configure_dll_override]. *)
Fixpoint dll_choices (options : list (string * string)) (dll_override : string)
    (choices : list string) : list string :=
  match options with
  | [] => choices
  | (dll_name, description) :: rest =>
      if String.eqb dll_name dll_override
      then dll_choices rest dll_override (dll_name :: choices)
      else dll_choices rest dll_override (choices ++ [dll_name])
  end.

Definition set_dll_override (game : GameInfo.t) (dll : string) : GameInfo.t :=
  {| GameInfo.name := GameInfo.name game;
     GameInfo.path := GameInfo.path game;
     GameInfo.exe_files := GameInfo.exe_files game;
     GameInfo.architecture := GameInfo.architecture game;
     GameInfo.detected_api := GameInfo.detected_api game;
     GameInfo.dll_override := dll;
     GameInfo.install_path := GameInfo.install_path game;
     GameInfo.selected_exe := GameInfo.selected_exe game |}.

(** [try: body except Exception: handler] on stateful code. *)
Definition try_except_Exception {S A} (body : M S A) (handler : exn -> M S A)
  : M S A :=
  fun s =>
    match body s with
    | (Raise e, s') => handler e s'
    | r => r
    end.

Section Flows.
Context (E : os_env) (config : Config).
(** What [pefile] and [open] make of the file at a path. *)
Context (exe_at : fs -> string -> Exe.exe_file).
(** The answers to [ask_select] over executables and over override
    modules, and to [ask_confirm]. *)
Context (ask_select_exe : list string -> option string).
Context (ask_select_dll : list string -> option string).
Context (ask_confirm : string -> bool).

Definition configure_dll_override (game : GameInfo.t) : GameInfo.t :=
  let choices := dll_choices DLL_OPTIONS (GameInfo.dll_override game) [] in
  match ask_select_dll choices with
  | Some result =>
      if negb (String.eqb result "") then set_dll_override game result else game
  | None => game
  end.

(** The assignments made once an executable has been chosen. *)
Definition analyze_into (game : GameInfo.t) (exe : string) : M state GameInfo.t :=
  r <- gets (fun st => Exe.analyze_executable (exe_at (fs_of st) exe)) ;;
  bind (lift_res r) (fun '(arch, api, dll) =>
  ret {| GameInfo.name := GameInfo.name game;
         GameInfo.path := GameInfo.path game;
         GameInfo.exe_files := GameInfo.exe_files game;
         GameInfo.architecture := arch;
         GameInfo.detected_api := api;
         GameInfo.dll_override := dll;
         GameInfo.install_path := Path.parent exe;
         GameInfo.selected_exe := Some exe |}).

(** The part of [select_exe_for_analysis] below the saved-configuration
    test. *)
Definition select_among (game : GameInfo.t) : M state GameInfo.t :=
  match GameInfo.exe_files game with
  | [exe] => analyze_into game exe
  | [] => ret game
  | _ =>
      match ask_select_exe (take 20 (GameInfo.exe_files game)) with
      | Some exe => analyze_into game exe
      | None => ret game
      end
  end.

(** A saved record is a dataclass instance and its install path a path
    object, both true. *)
Definition select_exe_for_analysis (game : GameInfo.t) : M state GameInfo.t :=
  saved_config <- GamesConfigManager.get E (GameInfo.path game) ;;
  match saved_config with
  | Some saved =>
      match GameInfo.selected_exe saved with
      | Some exe_path =>
          ex <- gets (fun st => Fs.exists_ (fs_of st) exe_path) ;;
          if ex then
            ret {| GameInfo.name := GameInfo.name game;
                   GameInfo.path := GameInfo.path game;
                   GameInfo.exe_files := GameInfo.exe_files game;
                   GameInfo.architecture := GameInfo.architecture saved;
                   GameInfo.detected_api := GameInfo.detected_api saved;
                   GameInfo.dll_override := GameInfo.dll_override saved;
                   GameInfo.install_path := GameInfo.install_path saved;
                   GameInfo.selected_exe := Some exe_path |}
          else select_among game
      | None => select_among game
      end
  | None => select_among game
  end.

(** [run_install_flow] from the point where a game has been selected. *)
Definition run_install_flow (game : GameInfo.t) : M state unit :=
  game <- select_exe_for_analysis game ;;
  let game :=
    if negb (ask_confirm ("Use " +:+ GameInfo.dll_override game +:+ ".dll as override?"))
    then configure_dll_override game
    else game in
  try_except_Exception
    (install_to_game E config game ;;; ret tt)
    (fun _ => ret tt).

(** [run_reinstall_flow] from the point where a saved game has been
    selected. *)
Definition run_reinstall_flow (game : GameInfo.t) : M state unit :=
  try_except_Exception
    (install_to_game E config game ;;; ret tt)
    (fun _ => ret tt).

End Flows.

(** ** Observations used in the statements *)

(** A merge run seen as the sequence of its [link_file] calls, each given
    by the source file and the destination directory. *)
Definition link_all (E : os_env) (reqs : list (string * string))
  : M merge_state unit :=
  for_each reqs (fun r => link_file E r.1 r.2 ;;; ret tt).

Definition is_link (n : node) : Prop :=
  match n with
  | Symlink _ => True
  | _ => False
  end.

#[global] Instance is_link_dec n : Decision (is_link n).
Proof. destruct n; simpl; apply _. Defined.

(** The number of symbolic links among the entries of directory [d]. *)
Definition links_in (σ : fs) (d : string) : nat :=
  size (filter (fun kv : string * node => Path.is_child d kv.1 ∧ is_link kv.2) σ).

(** A record as it comes back from the store: the candidate executables
    are not part of the persisted document. *)
Definition persisted (g : GameInfo.t) : GameInfo.t :=
  {| GameInfo.name := GameInfo.name g;
     GameInfo.path := GameInfo.path g;
     GameInfo.exe_files := [];
     GameInfo.architecture := GameInfo.architecture g;
     GameInfo.detected_api := GameInfo.detected_api g;
     GameInfo.dll_override := GameInfo.dll_override g;
     GameInfo.install_path := GameInfo.install_path g;
     GameInfo.selected_exe := GameInfo.selected_exe g |}.

(** Two installer states with the same backing document and the same
    cache. *)
Definition same_store (a b : state) : Prop :=
  games_json b = games_json a /\ _cache b = _cache a.

(** Where [install_to_game] expects the overlay library of a game. *)
Definition overlay_path (config : Config) (version : string) (game : GameInfo.t)
  : string :=
  Path.join (Path.join (reshade_path config) version)
    ("ReShade" +:+ pretty (GameInfo.architecture game) +:+ ".dll").

(** Whether a result is a return. *)
Definition returned {A} (r : res A) : bool :=
  match r with
  | Ok _ => true
  | Raise _ => false
  end.

(** [m] relates every state it starts from to the one it leaves, the flag
    telling whether it returned. *)
Definition follows {S A} (R : S -> bool -> S -> Prop) (m : M S A) : Prop :=
  forall s, R s (returned (m s).1) (m s).2.

(** From [a] to [b] the set of seen names only grew and no entry of the
    file system was changed or removed. *)
Definition grows (a b : merge_state) : Prop :=
  seen_files a ⊆ seen_files b /\
  forall p n, mfs a !! p = Some n -> mfs b !! p = Some n.

(** In the two destination directories every entry is a link whose name
    has been seen, and there are as many links as names seen. *)
Definition counted (ms mt : string) (st : merge_state) : Prop :=
  (forall k nd, Path.is_child ms k = true \/ Path.is_child mt k = true ->
     mfs st !! k = Some nd ->
     is_link nd /\ Path.name k ∈ seen_files st) /\
  size (seen_files st) = links_in (mfs st) ms + links_in (mfs st) mt.

(** [m] only reads the state. *)
Definition read_only {S A} (m : M S A) : Prop :=
  forall s, (m s).2 = s.

(** The cache is what a fresh manager would load from the backing
    document. *)
Definition in_sync (st : state) : Prop :=
  _cache st = GamesConfigManager._load (games_json st).

(** A decoded document whose top level is neither a dictionary, a list
    nor a string. *)
Definition is_scalar (j : json) : bool :=
  match j with
  | JNull | JBool _ | JInt _ | JFloat _ => true
  | JStr _ | JArr _ | JObj _ => false
  end.

(** From [a] to [b] every entry either stayed as it was or is a new link
    in one of the two directories [ms] and [mt]. *)
Definition links_added (ms mt : string) (a b : fs) : Prop :=
  forall k,
    b !! k = a !! k \/
    (a !! k = None /\ Fs.is_symlink b k = true /\
     (Path.is_child ms k = true \/ Path.is_child mt k = true)).

(** A file [f] (what [is_file] accepts) directly inside a directory
    [sub] called [nm] that lies below the source tree [r], both
    directories of their own and no links: what the walk of [r] hands to
    [link_file]. *)
Definition tree_file (σ : fs) (r nm sub f : string) : Prop :=
  σ !! r = Some Dir /\ Path.name r <> "Merged" /\
  Path.is_below r sub = true /\ Path.name sub = nm /\ σ !! sub = Some Dir /\
  Path.is_child sub f = true /\ Fs.is_file σ f = true.

(** The request [q] is for an entry of a [Shaders] directory below [r],
    to be linked into [ms], or of a [Textures] directory below [r], to
    be linked into [mt]. *)
Definition walked_from (ms mt r : string) (q : string * string) : Prop :=
  exists nm sub,
    ((nm = "Shaders" /\ q.2 = ms) \/ (nm = "Textures" /\ q.2 = mt)) /\
    Path.is_below r sub = true /\ Path.name sub = nm /\
    Path.is_child sub q.1 = true.

(** ** Sample inputs *)

Module Sample.

Definition env : os_env :=
  {| scan_order := fun l => l;
     resolve := fun _ p => p;
     shutil_move := fun src dst σ =>
       match σ !! src with
       | Some n => (Ok tt, <[ dst := n ]> (delete src σ))
       | None => (Raise (FileNotFoundError src), σ)
       end;
     fetch_d3dcompiler := fun _ dll_path σ => (Ok tt, <[ dll_path := File "MZ" ]> σ) |}.

Definition config : Config :=
  {| main_path := "/m"; reshade_version := "latest"; addon_support := false;
     merge_shaders_enabled := true; global_ini := "ReShade.ini" |}.

Definition dirs (l : list string) : fs := list_to_map ((fun p => (p, Dir)) <$> l).
Definition files (l : list string) : fs := list_to_map ((fun p => (p, File "")) <$> l).

(** An executable importing the level-12, level-11 and level-9 libraries. *)
Definition exe_d3d12_d3d11_d3d9 : Exe.exe_file :=
  {| Exe.pe_parse :=
       Ok {| Exe.Machine := 0x8664;
             Exe.DIRECTORY_ENTRY_IMPORT :=
               Some ["KERNEL32.dll"; "d3d12.dll"; "d3d11.dll"; "d3d9.dll"] |};
     Exe.raw := Raise OSError |}.

(** An executable importing the level-11 and level-9 libraries. *)
Definition exe_d3d11_d3d9 : Exe.exe_file :=
  {| Exe.pe_parse :=
       Ok {| Exe.Machine := 0x14c;
             Exe.DIRECTORY_ENTRY_IMPORT :=
               Some ["KERNEL32.dll"; "D3D9.DLL"; "d3d11.dll"] |};
     Exe.raw := Raise OSError |}.

(** A file pefile rejects, whose DOS header points at offset 0x40 and
    whose machine word there is 0x14C. *)
Definition exe_packed_i386 : Exe.exe_file :=
  {| Exe.pe_parse := Raise PEFormatError;
     Exe.raw := Ok (repeat x00 0x3C ++ [x40; x00; x00; x00]
                    ++ [x50; x45; x00; x00; x4c; x01])%list |}.

(** A merge tree: two repositories that both ship [Shaders/Y.fx], and a
    regular file [Y.fx] already sitting in the merged shader directory. *)
Definition fs_merge_occupied : fs :=
  dirs ["/"; "/m"; "/m/ReShade_shaders"; "/m/ReShade_shaders/Merged";
        "/m/ReShade_shaders/Merged/Shaders"; "/m/ReShade_shaders/Merged/Textures";
        "/m/ReShade_shaders/r1"; "/m/ReShade_shaders/r1/Shaders";
        "/m/ReShade_shaders/r2"; "/m/ReShade_shaders/r2/Shaders"]
  ∪ files ["/m/ReShade_shaders/r1/Shaders/Y.fx";
           "/m/ReShade_shaders/r2/Shaders/Y.fx";
           "/m/ReShade_shaders/Merged/Shaders/Y.fx"].

(** Two repositories that both ship [X.fx], a stale link in the merged
    shader directory, and empty destinations otherwise. *)
Definition fs_merge_two_repos : fs :=
  <[ "/m/ReShade_shaders/Merged/Shaders/old.fx" := Symlink "/gone" ]>
  (dirs ["/"; "/m"; "/m/ReShade_shaders"; "/m/ReShade_shaders/Merged";
         "/m/ReShade_shaders/Merged/Shaders"; "/m/ReShade_shaders/Merged/Textures";
         "/m/ReShade_shaders/r1"; "/m/ReShade_shaders/r1/Shaders";
         "/m/ReShade_shaders/r2"; "/m/ReShade_shaders/r2/Shaders";
         "/m/ReShade_shaders/r2/Textures"]
   ∪ files ["/m/ReShade_shaders/r1/Shaders/X.fx";
            "/m/ReShade_shaders/r2/Shaders/X.fx";
            "/m/ReShade_shaders/r2/Textures/t.png"]).

(** The start of the merge proper on that tree: nothing seen yet. *)
Definition merge_start : merge_state :=
  {| seen_files := ∅; mfs := fs_merge_two_repos |}.

Definition merged_shaders : string := "/m/ReShade_shaders/Merged/Shaders".
Definition merged_textures : string := "/m/ReShade_shaders/Merged/Textures".

(** A machine with ReShade 6.1 unpacked and a game in [/g]. *)
Definition fs_ready : fs :=
  <[ "/m/LVERS" := File "6.1" ]>
  (dirs ["/"; "/m"; "/m/reshade"; "/m/reshade/6.1"; "/m/ReShade_shaders"; "/g"]
   ∪ files ["/m/reshade/6.1/ReShade64.dll"; "/m/ReShade.ini"; "/g/game.exe"]).

(** The same machine before the overlay was downloaded. *)
Definition fs_no_overlay : fs :=
  <[ "/m/LVERS" := File "6.1" ]>
  (dirs ["/"; "/m"; "/m/reshade"; "/m/ReShade_shaders"; "/g"]
   ∪ files ["/m/ReShade.ini"; "/g/game.exe"]).

Definition game : GameInfo.t :=
  GameInfo.new "Game" "/g" ["/g/game.exe"] 64 "dx11" "dxgi" None None.

Definition state_ready : state := GamesConfigManager.init fs_ready NoFile.

Definition state_no_overlay : state := GamesConfigManager.init fs_no_overlay NoFile.

(** A clean game directory whose record is still in the store. *)
Definition state_recorded_clean : state :=
  GamesConfigManager.init fs_ready
    (Text (Some (JObj {[ "/g" := JObj (GameInfo.to_dict game) ]}))).

(** A Steam library with two games and a directory of tools. *)
Definition fs_library : fs :=
  dirs ["/"; "/lib"; "/lib/Beta"; "/lib/alpha"; "/lib/alpha/bin"; "/lib/Tools"]
  ∪ files ["/lib/Beta/game.exe"; "/lib/Beta/unins000.exe";
           "/lib/alpha/bin/Alpha.exe"; "/lib/Tools/Setup.exe"; "/lib/notes.txt"].

(** A game whose executable has been selected. *)
Definition game_selected : GameInfo.t :=
  GameInfo.new "Game" "/g" ["/g/game.exe"] 64 "dx9" "d3d9"
    (Some "/g") (Some "/g/game.exe").

End Sample.

(** * Properties *)

(** ** The model at work *)

Example name_of_file : Path.name "/m/r1/Shaders/X.fx" = "X.fx".
Proof. reflexivity. Qed.

Example name_of_root : Path.name "/" = "".
Proof. reflexivity. Qed.

Example parent_of_file : Path.parent "/m/r1/Shaders/X.fx" = "/m/r1/Shaders".
Proof. reflexivity. Qed.

Example join_under_root : Path.join "/" "g" = "/g".
Proof. reflexivity. Qed.

Example join_absolute : Path.join "/m" "/etc/ReShade.ini" = "/etc/ReShade.ini".
Proof. reflexivity. Qed.

Example suffix_last_dot : Path.suffix "/m/t.tar.GZ" = ".GZ".
Proof. reflexivity. Qed.

Example suffix_hidden_file : Path.suffix "/m/.bashrc" = "".
Proof. reflexivity. Qed.

Example strip_version : strip "  6.1 " = "6.1".
Proof. reflexivity. Qed.

Example lower_mixed : lower "D3D11.DLL" = "d3d11.dll".
Proof. reflexivity. Qed.

Example stat_follows_links :
  Fs.is_file (<[ "/a" := Symlink "/b" ]> (<[ "/b" := File "x" ]> ∅)) "/a" = true
  /\ Fs.exists_ (<[ "/a" := Symlink "/gone" ]> ∅) "/a" = false
  /\ Fs.is_symlink (<[ "/a" := Symlink "/gone" ]> ∅) "/a" = true.
Proof. vm_compute. done. Qed.

Example install_links_four :
  (fun '(r, st) => (r, Fs.is_symlink (fs_of st) <$>
                        ["/g/dxgi.dll"; "/g/d3dcompiler_47.dll";
                         "/g/ReShade_shaders"; "/g/ReShade.ini"]))
    (install_to_game Sample.env Sample.config Sample.game Sample.state_ready)
  = (Ok "dxgi", [true; true; true; true]).
Proof. vm_compute. reflexivity. Qed.

Example merge_two_repos :
  (merge_shaders Sample.env Sample.config Sample.fs_merge_two_repos).1 = Ok 2.
Proof. vm_compute. reflexivity. Qed.

(** ** Executable analysis *)

Section ExeFacts.
Import Exe.

Lemma classify_imports_d3d12 imports api dll :
  "d3d12.dll" ∈ imports -> classify_imports imports api dll = ("dx12", "dxgi").
Proof.
  intros H. unfold classify_imports. by rewrite bool_decide_eq_true_2.
Qed.

Lemma classify_imports_d3d11 imports api dll :
  "d3d12.dll" ∉ imports -> "d3d11.dll" ∈ imports ->
  classify_imports imports api dll = ("dx11", "dxgi").
Proof.
  intros H12 H11. unfold classify_imports.
  rewrite bool_decide_eq_false_2 by done.
  by rewrite (bool_decide_eq_true_2 _ H11).
Qed.

(** Whatever branch of the chain is taken, the pair it yields is a row of
    the table, provided the pair it started from is one. *)
Lemma classify_imports_table imports api dll :
  default_module api = Some dll ->
  default_module (classify_imports imports api dll).1
  = Some (classify_imports imports api dll).2.
Proof.
  intros H. unfold classify_imports.
  repeat (case_match; [reflexivity|]). exact H.
Qed.

Lemma analyze_executable_parsed f pe :
  pe_parse f = Ok pe ->
  analyze_executable f = Ok (analyze_parsed pe 64 "dx11" "dxgi").
Proof. intros H. unfold analyze_executable. by rewrite H. Qed.

Lemma analyze_executable_unparsed f e :
  pe_parse f = Raise e ->
  analyze_executable f
  = match read_machine f with
    | Ok machine =>
        if (machine =? 0x14C)%Z then Ok (32%Z, "dx11", "d3d9")
        else Ok (64%Z, "dx11", "dxgi")
    | Raise _ => Ok (64%Z, "dx11", "dxgi")
    end.
Proof.
  intros H. unfold analyze_executable, analyze_fallback. rewrite H. simpl.
  destruct (read_machine f) as [machine|]; simpl; [|done].
  by destruct (machine =? 332)%Z.
Qed.

(** Classification returns on every input. *)
Lemma analyze_executable_returns f : is_Ok (analyze_executable f).
Proof.
  destruct (pe_parse f) as [pe|e] eqn:Hpe.
  - by rewrite (analyze_executable_parsed _ _ Hpe).
  - rewrite (analyze_executable_unparsed _ _ Hpe).
    destruct (read_machine f) as [machine|]; [|done].
    by destruct (machine =? 332)%Z.
Qed.

(** C2, as stated, fails: with the level-12 library imported as well, the
    result is dx12. *)
Lemma analyze_executable_d3d12_wins :
  let imports := import_set ["KERNEL32.dll"; "d3d12.dll"; "d3d11.dll"; "d3d9.dll"] in
  "d3d11.dll" ∈ imports /\ "d3d9.dll" ∈ imports /\
  analyze_executable Sample.exe_d3d12_d3d11_d3d9 = Ok (64%Z, "dx12", "dxgi") /\
  analyze_executable Sample.exe_d3d12_d3d11_d3d9 <> Ok (64%Z, "dx11", "dxgi").
Proof. vm_compute. repeat split; try done. Qed.

(** C2 (amended): an executable whose parsed import table holds both
    d3d11.dll and d3d9.dll is classified with override module dxgi and
    never as dx9: as dx11 when d3d12.dll is not imported, as dx12 when it
    is. *)
Theorem analyze_executable_d3d11_over_d3d9 f pe entries :
  pe_parse f = Ok pe ->
  DIRECTORY_ENTRY_IMPORT pe = Some entries ->
  "d3d11.dll" ∈ import_set entries ->
  "d3d9.dll" ∈ import_set entries ->
  analyze_executable f
  = Ok (if (Machine pe =? 0x14c)%Z then 32%Z else 64%Z,
        if bool_decide ("d3d12.dll" ∈ import_set entries) then "dx12" else "dx11",
        "dxgi").
Proof.
  intros Hpe Himp H11 _.
  rewrite (analyze_executable_parsed _ _ Hpe).
  unfold analyze_parsed. rewrite Himp.
  case_bool_decide as H12.
  - by rewrite classify_imports_d3d12.
  - by rewrite classify_imports_d3d11.
Qed.

Lemma analyze_executable_d3d11_over_d3d9_witness :
  analyze_executable Sample.exe_d3d11_d3d9 = Ok (32%Z, "dx11", "dxgi").
Proof.
  refine (eq_trans
    (analyze_executable_d3d11_over_d3d9 Sample.exe_d3d11_d3d9 _
       ["KERNEL32.dll"; "D3D9.DLL"; "d3d11.dll"] eq_refl eq_refl _ _) _).
  - vm_compute. done.
  - vm_compute. done.
  - vm_compute. reflexivity.
Defined.

(** C3: when the structured parse raises, classification still returns:
    the 32-bit result with module d3d9 exactly when the fallback reads the
    machine word 0x14C, and the default (64, dx11, dxgi) in every other
    case, whatever goes wrong while reading. *)
Theorem analyze_executable_degraded f e :
  pe_parse f = Raise e ->
  (read_machine f = Ok 0x14C%Z /\
   analyze_executable f = Ok (32%Z, "dx11", "d3d9"))
  \/
  (read_machine f <> Ok 0x14C%Z /\
   analyze_executable f = Ok (64%Z, "dx11", "dxgi")).
Proof.
  intros H. rewrite (analyze_executable_unparsed _ _ H).
  destruct (read_machine f) as [machine|e']; [|right; done].
  destruct (Z.eqb_spec machine 0x14C) as [->|Hne].
  - left. done.
  - right. split; [|done]. intros [=]. done.
Qed.

Lemma analyze_executable_degraded_witness :
  analyze_executable Sample.exe_packed_i386 = Ok (32%Z, "dx11", "d3d9").
Proof.
  destruct (analyze_executable_degraded Sample.exe_packed_i386 PEFormatError eq_refl)
    as [[_ H]|[H _]].
  - exact H.
  - exfalso. apply H. vm_compute. reflexivity.
Defined.

(** C4, as stated, fails: the degraded 32-bit result reports dx11 with
    module d3d9, while the table maps dx11 to dxgi. *)
Lemma analyze_executable_degraded_off_table :
  analyze_executable Sample.exe_packed_i386 = Ok (32%Z, "dx11", "d3d9") /\
  default_module "dx11" = Some "dxgi" /\
  default_module "dx11" <> Some "d3d9".
Proof. vm_compute. repeat split; done. Qed.

(** C4 (amended): every result of classification other than the degraded
    32-bit one (structured parse failed and the raw machine word is 0x14C)
    carries the override module the table gives for its API. *)
Theorem analyze_executable_module_of_api f arch api dll :
  analyze_executable f = Ok (arch, api, dll) ->
  is_Ok (pe_parse f) \/ read_machine f <> Ok 0x14C%Z ->
  default_module api = Some dll.
Proof.
  intros Hres Hcase.
  destruct (pe_parse f) as [pe|e] eqn:Hpe.
  - rewrite (analyze_executable_parsed _ _ Hpe) in Hres.
    unfold analyze_parsed in Hres.
    destruct (DIRECTORY_ENTRY_IMPORT pe) as [entries|].
    + pose proof (classify_imports_table (import_set entries) "dx11" "dxgi" eq_refl) as Ht.
      destruct (classify_imports (import_set entries) "dx11" "dxgi") as [a d].
      by simplify_eq.
    + by simplify_eq.
  - destruct Hcase as [[]|Hm].
    rewrite (analyze_executable_unparsed _ _ Hpe) in Hres.
    destruct (read_machine f) as [machine|e']; [|by simplify_eq].
    destruct (Z.eqb_spec machine 332) as [Heq|Hne]; [by subst|by simplify_eq].
Qed.

Lemma analyze_executable_module_of_api_witness :
  default_module "dx11" = Some "dxgi".
Proof.
  apply (analyze_executable_module_of_api Sample.exe_d3d11_d3d9 32%Z "dx11" "dxgi").
  - vm_compute. reflexivity.
  - left. vm_compute. exact I.
Defined.

End ExeFacts.

(** ** Running monadic code *)

Section MonadFacts.
Context {S : Type}.

Lemma bind_inv {A B} (m : M S A) (k : A -> M S B) s r s' :
  bind m k s = (r, s') ->
  (exists e, m s = (Raise e, s') /\ r = Raise e) \/
  (exists a s1, m s = (Ok a, s1) /\ k a s1 = (r, s')).
Proof.
  unfold bind. destruct (m s) as [[a|e] s1]; intros H.
  - right. eauto.
  - left. exists e. by simplify_eq.
Qed.

Lemma bind_Ok_inv {A B} (m : M S A) (k : A -> M S B) s b s' :
  bind m k s = (Ok b, s') ->
  exists a s1, m s = (Ok a, s1) /\ k a s1 = (Ok b, s').
Proof.
  intros H. apply bind_inv in H as [(e & _ & ?)|H]; [done|exact H].
Qed.

Lemma bind_Ok {A B} (m : M S A) (k : A -> M S B) s a s1 :
  m s = (Ok a, s1) -> bind m k s = k a s1.
Proof. unfold bind. by intros ->. Qed.

Lemma bind_Raise {A B} (m : M S A) (k : A -> M S B) s e s1 :
  m s = (Raise e, s1) -> bind m k s = (Raise e, s1).
Proof. unfold bind. by intros ->. Qed.

Lemma bind_gets {A B} (f : S -> A) (k : A -> M S B) s :
  bind (gets f) k s = k (f s) s.
Proof. reflexivity. Qed.

Lemma bind_ret {A B} (a : A) (k : A -> M S B) s :
  bind (ret a) k s = k a s.
Proof. reflexivity. Qed.

Lemma bind_modify {B} (f : S -> S) (k : unit -> M S B) s :
  bind (modify f) k s = k tt (f s).
Proof. reflexivity. Qed.

Lemma bind_assoc {A B C} (m : M S A) (k : A -> M S B) (h : B -> M S C) s :
  bind (bind m k) h s = bind m (fun a => bind (k a) h) s.
Proof. unfold bind. destruct (m s) as [[a|e] s1]; reflexivity. Qed.

Lemma for_each_cons {A} (x : A) (l : list A) (body : A -> M S unit) s :
  for_each (x :: l) body s = bind (body x) (fun _ => for_each l body) s.
Proof. reflexivity. Qed.

Lemma for_each_app {A} (l1 l2 : list A) (body : A -> M S unit) s :
  for_each (l1 ++ l2) body s
  = bind (for_each l1 body) (fun _ => for_each l2 body) s.
Proof.
  revert s. induction l1 as [|x l1 IH]; intros s; simpl.
  - reflexivity.
  - rewrite bind_assoc. destruct (body x s) as [[[]|e] s1] eqn:Hx.
    + rewrite !(bind_Ok _ _ _ _ _ Hx). apply IH.
    + rewrite !(bind_Raise _ _ _ _ _ Hx). reflexivity.
Qed.

End MonadFacts.

(** ** File-system primitives *)

Section FsFacts.

Lemma is_symlink_true (σ : fs) p :
  Fs.is_symlink σ p = true <-> exists t, σ !! p = Some (Symlink t).
Proof.
  unfold Fs.is_symlink.
  destruct (σ !! p) as [[]|]; split; intros H;
    try done; try (by destruct H); eauto.
Qed.

Lemma is_symlink_insert (σ : fs) p t :
  Fs.is_symlink (<[ p := Symlink t ]> σ) p = true.
Proof. unfold Fs.is_symlink. by rewrite lookup_insert_eq. Qed.

Lemma is_symlink_delete (σ : fs) p : Fs.is_symlink (delete p σ) p = false.
Proof. unfold Fs.is_symlink. by rewrite lookup_delete_eq. Qed.

Lemma is_symlink_delete_ne (σ : fs) p q :
  p <> q -> Fs.is_symlink (delete p σ) q = Fs.is_symlink σ q.
Proof. intros H. unfold Fs.is_symlink. by rewrite lookup_delete_ne. Qed.

Lemma stat_absent (σ : fs) p : σ !! p = None -> Fs.exists_ σ p = false.
Proof. intros H. unfold Fs.exists_, Fs.stat. simpl. by rewrite H. Qed.

Lemma stat_regular (σ : fs) p n :
  σ !! p = Some n -> ~ is_link n -> Fs.stat σ p = Some n.
Proof.
  intros H Hn. unfold Fs.stat. simpl. rewrite H.
  destruct n; simpl in *; tauto || done.
Qed.

Lemma exists_regular (σ : fs) p n :
  σ !! p = Some n -> ~ is_link n -> Fs.exists_ σ p = true.
Proof.
  intros H Hn. unfold Fs.exists_. by rewrite (stat_regular _ _ _ H Hn).
Qed.

Lemma symlink_to_inv p t (σ : fs) r σ' :
  Fs.symlink_to p t σ = (r, σ') ->
  (r = Ok tt /\ σ !! p = None /\ σ' = <[ p := Symlink t ]> σ) \/
  ((exists e, r = Raise e) /\ σ' = σ).
Proof.
  unfold Fs.symlink_to. destruct (σ !! p) as [n|] eqn:Hp.
  - intros [= <- <-]. right. eauto.
  - destruct (Fs.is_dir σ (Path.parent p)); [intros [= <- <-]; by left|].
    destruct (Fs.exists_ σ (Path.parent p)); intros [= <- <-]; right; eauto.
Qed.

Lemma safe_unlink_eq p (σ : fs) :
  safe_unlink p σ
  = if Fs.is_symlink σ p then (Ok true, delete p σ) else (Ok false, σ).
Proof.
  unfold safe_unlink, bind, gets, Fs.unlink, Fs.is_symlink. cbv beta.
  destruct (σ !! p) as [[]|] eqn:Hp; rewrite ?Hp; reflexivity.
Qed.

End FsFacts.

(** C1: [safe_unlink] removes the entry at its path, and only that entry,
    when it is a symbolic link, and then returns true; on a regular file,
    a directory or an absent path it returns false and the file system is
    the one it started from.  It never raises. *)
Theorem safe_unlink_only_symlinks (σ : fs) (p : string) :
  match σ !! p with
  | Some (Symlink _) => safe_unlink p σ = (Ok true, delete p σ)
  | Some (File _) | Some Dir | None => safe_unlink p σ = (Ok false, σ)
  end.
Proof.
  rewrite safe_unlink_eq. unfold Fs.is_symlink.
  destruct (σ !! p) as [[]|]; reflexivity.
Qed.

(** ** Link manager *)

Section LinkFacts.
Context (E : os_env).

Lemma unlink_inv p (σ : fs) r σ' :
  Fs.unlink p σ = (r, σ') ->
  (r = Ok tt /\ σ' = delete p σ) \/ ((exists e, r = Raise e) /\ σ' = σ).
Proof.
  unfold Fs.unlink. destruct (σ !! p) as [[]|]; intros [= <- <-]; eauto.
Qed.

(** What [safe_symlink] does before it creates the link, when no backup
    is asked for: at most the target's own entry goes. *)
Lemma safe_symlink_clear_frame target (σ : fs) r σ1 :
  (if Fs.is_symlink σ target then Fs.unlink target
   else
     ex <- gets (fun σ => Fs.exists_ σ target) ;;
     if ex && false then shutil_move E target (target +:+ ".backup")
     else if ex then Fs.unlink target
     else ret tt) σ = (r, σ1) ->
  forall q, q <> target -> σ1 !! q = σ !! q.
Proof.
  intros H q Hq.
  destruct (Fs.is_symlink σ target).
  - apply unlink_inv in H as [[_ ->]|[_ ->]]; [|done]. by rewrite lookup_delete_ne.
  - rewrite bind_gets in H. destruct (Fs.exists_ σ target); simpl in H.
    + apply unlink_inv in H as [[_ ->]|[_ ->]]; [|done]. by rewrite lookup_delete_ne.
    + by injection H as _ <-.
Qed.

(** A call that returns has made the target a link. *)
Lemma safe_symlink_Ok source target backup (σ σ' : fs) :
  safe_symlink E source target backup σ = (Ok tt, σ') ->
  Fs.is_symlink σ' target = true.
Proof.
  unfold safe_symlink. rewrite bind_gets. intros H.
  apply bind_Ok_inv in H as (a & σ1 & _ & H).
  rewrite bind_gets in H.
  apply symlink_to_inv in H as [(_ & _ & ->)|[[e [=]] _]].
  apply is_symlink_insert.
Qed.

(** Without backup, whether it returns or raises, it touches no entry but
    the target's. *)
Lemma safe_symlink_frame source target (σ : fs) r σ' :
  safe_symlink E source target false σ = (r, σ') ->
  forall q, q <> target -> σ' !! q = σ !! q.
Proof.
  unfold safe_symlink. rewrite bind_gets. intros H q Hq.
  apply bind_inv in H as [(e & H & _)|(a & σ1 & H1 & H)].
  - by apply (safe_symlink_clear_frame _ _ _ _ H).
  - rewrite bind_gets in H.
    rewrite <- (safe_symlink_clear_frame _ _ _ _ H1 q Hq).
    apply symlink_to_inv in H as [(_ & _ & ->)|[_ ->]]; [|done].
    by rewrite lookup_insert_ne.
Qed.

Lemma safe_symlink_keeps_link source target (σ : fs) r σ' q :
  safe_symlink E source target false σ = (Ok r, σ') ->
  Fs.is_symlink σ q = true -> Fs.is_symlink σ' q = true.
Proof.
  intros H Hq. destruct (decide (q = target)) as [->|Hne].
  - destruct r. by apply (safe_symlink_Ok _ _ _ _ _ H).
  - unfold Fs.is_symlink in *. by rewrite (safe_symlink_frame _ _ _ _ _ H q Hne).
Qed.

End LinkFacts.

(** ** Uninstall *)

Section UninstallFacts.

Lemma uninstall_links_spec p links : forall removed (σ : fs),
  exists (extra : list string) σ',
    uninstall_links p links removed σ = (Ok (removed ++ extra)%list, σ') /\
    (forall l, l ∈ links -> Fs.is_symlink σ' (Path.join p l) = false) /\
    (forall q, σ' !! q = σ !! q \/
               (σ' !! q = None /\ Fs.is_symlink σ q = true /\
                exists l, l ∈ links /\ q = Path.join p l)) /\
    (extra = [] <-> forall l, l ∈ links -> Fs.is_symlink σ (Path.join p l) = false).
Proof.
  induction links as [|l rest IH]; intros removed σ; simpl.
  - exists [], σ. rewrite app_nil_r. split; [done|split; [|split]].
    + intros l Hl. by apply elem_of_nil in Hl.
    + intros q. by left.
    + split; [|done]. intros _ l Hl. by apply elem_of_nil in Hl.
  - unfold bind. rewrite safe_unlink_eq.
    destruct (Fs.is_symlink σ (Path.join p l)) eqn:Hl.
    + destruct (IH (removed ++ [l]) (delete (Path.join p l) σ))
        as (extra & σ' & Hrun & Hgone & Hframe & Hnil).
      exists (l :: extra), σ'. rewrite Hrun. split; [|split; [|split]].
      * by rewrite <- app_assoc.
      * intros l' [->|Hl']%elem_of_cons; [|by apply Hgone].
        unfold Fs.is_symlink.
        destruct (Hframe (Path.join p l)) as [->|[-> _]]; [|done].
        by rewrite lookup_delete_eq.
      * intros q. destruct (decide (q = Path.join p l)) as [->|Hq].
        -- right. split; [|split; [done|]].
           ++ destruct (Hframe (Path.join p l)) as [->|[-> _]]; [|done].
              by rewrite lookup_delete_eq.
           ++ exists l. split; [left|done].
        -- destruct (Hframe q) as [->|(-> & Hs & l' & Hl' & ->)].
           ++ left. by rewrite lookup_delete_ne.
           ++ right. split; [done|]. split.
              ** by rewrite is_symlink_delete_ne in Hs.
              ** exists l'. split; [by right|done].
      * split; [done|]. intros H. specialize (H l (list_elem_of_here _ _)).
        congruence.
    + destruct (IH removed σ) as (extra & σ' & Hrun & Hgone & Hframe & Hnil).
      exists extra, σ'. rewrite Hrun. split; [done|split; [|split]].
      * intros l' [->|Hl']%elem_of_cons; [|by apply Hgone].
        unfold Fs.is_symlink in *.
        destruct (Hframe (Path.join p l)) as [->|[-> _]]; done.
      * intros q. destruct (Hframe q) as [Hq|(Hq & Hs & l' & Hl' & ->)].
        -- by left.
        -- right. split; [done|]. split; [done|].
           exists l'. split; [by right|done].
      * rewrite Hnil. split.
        -- intros H l' [->|Hl']%elem_of_cons; [done|by apply H].
        -- intros H l' Hl'. apply H. by right.
Qed.

(** With no link among the listed names, nothing is removed or changed. *)
Lemma uninstall_links_clean p links removed (σ : fs) :
  (forall l, l ∈ links -> Fs.is_symlink σ (Path.join p l) = false) ->
  uninstall_links p links removed σ = (Ok removed, σ).
Proof.
  revert removed. induction links as [|l rest IH]; intros removed H; simpl.
  - reflexivity.
  - unfold bind. rewrite safe_unlink_eq.
    rewrite (H l (list_elem_of_here _ _)). apply IH.
    intros l' Hl'. apply H. by right.
Qed.

End UninstallFacts.

(** ** Install *)

Section InstallFacts.
Context (E : os_env) (config : Config).

Lemma same_store_refl a : same_store a a.
Proof. by split. Qed.

Lemma same_store_trans a b c : same_store a b -> same_store b c -> same_store a c.
Proof. intros [? ?] [? ?]. split; congruence. Qed.

Lemma lift_state_inv {A} (m : M fs A) st r st' :
  lift_state m st = (r, st') ->
  m (fs_of st) = (r, fs_of st') /\ same_store st st'.
Proof.
  unfold lift_state. destruct (m (fs_of st)) as [r' σ'].
  intros [= <- <-]. by split.
Qed.

Lemma lift_state_read_only {A} (m : M fs A) st r :
  m (fs_of st) = (r, fs_of st) -> lift_state m st = (r, st).
Proof. unfold lift_state. intros ->. by destruct st. Qed.

Lemma read_text_read_only p : read_only (Fs.read_text p).
Proof. intros σ. unfold Fs.read_text. by destruct (Fs.stat σ p) as [[]|]. Qed.

Lemma get_current_version_read_only : read_only (get_current_version config).
Proof.
  intros σ. unfold get_current_version.
  destruct (String.eqb _ _); [|done].
  rewrite bind_gets. destruct (Fs.exists_ _ _); [|done].
  unfold bind. pose proof (read_text_read_only (Path.join (main_path config) "LVERS") σ) as H.
  destruct (Fs.read_text _ σ) as [[text|e] σ']; simpl in *; by subst.
Qed.

Lemma install_to_game_missing game st version :
  (get_current_version config (fs_of st)).1 = Ok version ->
  Fs.exists_ (fs_of st) (overlay_path config version game) = false ->
  install_to_game E config game st
  = (Raise (FileNotFoundError
              ("ReShade DLL not found: " +:+ overlay_path config version game)), st).
Proof.
  intros Hv Hex. unfold install_to_game.
  assert (lift_state (get_current_version config) st = (Ok version, st)) as Hgv.
  { apply lift_state_read_only.
    pose proof (get_current_version_read_only (fs_of st)) as Hro.
    destruct (get_current_version config (fs_of st)) as [r σ']; simpl in *.
    by subst. }
  rewrite (bind_Ok _ _ _ _ _ Hgv), bind_gets.
  fold (overlay_path config version game). by rewrite Hex.
Qed.

(** [save] on a cache that is a dictionary, and on one that is not. *)
Lemma save_inv game st r st' :
  GamesConfigManager.save E game st = (r, st') ->
  let key := resolve E (fs_of st) (GameInfo.path game) in
  (exists m, _cache st = JObj m /\ r = Ok tt /\
     st' = {| fs_of := fs_of st;
              games_json := Text (Some (JObj (<[ key := JObj (GameInfo.to_dict game) ]> m)));
              _cache := JObj (<[ key := JObj (GameInfo.to_dict game) ]> m) |})
  \/ (r = Raise TypeError /\ st' = st).
Proof.
  unfold GamesConfigManager.save, GamesConfigManager._game_key,
    GamesConfigManager.setitem, GamesConfigManager._save, set_cache.
  rewrite bind_gets. intros H. simpl.
  unfold bind at 1 in H. rewrite bind_gets in H.
  destruct (_cache st) as [| | | | | |m] eqn:Hc;
    try (injection H as <- <-; by right).
  left. exists m. simpl in H. by injection H as <- <-.
Qed.

(** Up to the point where the record is saved, [install_to_game] leaves
    the store alone; when it gets there, the shader link is in place. *)
Lemma install_to_game_inv game st r st' :
  install_to_game E config game st = (r, st') ->
  (exists e, r = Raise e /\ same_store st st') \/
  (exists st1 r1, same_store st st1 /\
     Fs.is_symlink (fs_of st1)
       (Path.join (GameInfo.install_path game) "ReShade_shaders") = true /\
     GamesConfigManager.save E game st1 = (r1, st') /\
     r = match r1 with
         | Ok _ => Ok (GameInfo.dll_override game)
         | Raise e => Raise e
         end).
Proof.
  unfold install_to_game. intros H.
  apply bind_inv in H as [(e & H & ->)|(version & s1 & H1 & H)].
  { apply lift_state_inv in H as [_ Hs]. left. eauto. }
  apply lift_state_inv in H1 as [_ Hs1].
  rewrite bind_gets in H. destruct (negb _).
  { injection H as <- <-. left. eauto. }
  apply bind_inv in H as [(e & H & ->)|([] & s2 & H2 & H)].
  { apply lift_state_inv in H as [_ Hs]. left.
    eauto using same_store_trans. }
  apply lift_state_inv in H2 as [_ Hs2].
  apply bind_inv in H as [(e & H & ->)|([] & s3 & H3 & H)].
  { apply lift_state_inv in H as [_ Hs]. left.
    eauto 6 using same_store_trans. }
  apply lift_state_inv in H3 as [_ Hs3].
  apply bind_inv in H as [(e & H & ->)|([] & s4 & H4 & H)].
  { apply lift_state_inv in H as [_ Hs]. left.
    eauto 8 using same_store_trans. }
  apply lift_state_inv in H4 as [_ Hs4].
  apply bind_inv in H as [(e & H & ->)|([] & s5 & H5 & H)].
  { apply lift_state_inv in H as [_ Hs]. left.
    eauto 10 using same_store_trans. }
  apply lift_state_inv in H5 as [Hl5 Hs5].
  apply (safe_symlink_Ok E) in Hl5.
  assert (same_store st s5) as Hs by eauto 10 using same_store_trans.
  clear Hs1 Hs2 Hs3 Hs4 Hs5.
  apply bind_inv in H as [(e & H & ->)|([] & s6 & H6 & H)].
  { left. exists e. split; [done|].
    destruct (negb _); [|discriminate H].
    rewrite bind_gets in H. destruct (Fs.exists_ _ _); [|discriminate H].
    apply lift_state_inv in H as [_ Hs']. eauto using same_store_trans. }
  assert (same_store s5 s6 /\
          Fs.is_symlink (fs_of s6)
            (Path.join (GameInfo.install_path game) "ReShade_shaders") = true)
    as [Hs6 Hl6].
  { destruct (negb _); [|injection H6 as <-; by split; [apply same_store_refl|]].
    rewrite bind_gets in H6.
    destruct (Fs.exists_ _ _); [|injection H6 as <-; by split; [apply same_store_refl|]].
    apply lift_state_inv in H6 as [H6 Hs']. split; [done|].
    by apply (safe_symlink_keeps_link E _ _ _ _ _ _ H6). }
  right.
  apply bind_inv in H as [(e & H & ->)|([] & s7 & H7 & H)].
  - exists s6, (Raise e). eauto using same_store_trans.
  - injection H as <- <-. exists s6, (Ok tt). eauto using same_store_trans.
Qed.

End InstallFacts.

(** C7: when the overlay library for the game's architecture is not at
    the expected path, [install_to_game] raises [FileNotFoundError] with a
    message that ends in that path, and the state is exactly what it was:
    no link made, nothing saved.  More generally a run that raises leaves
    the backing document as it was, and a run that returns has written the
    game's record under its key. *)
Theorem install_to_game_missing_overlay E config game st version :
  (get_current_version config (fs_of st)).1 = Ok version ->
  Fs.exists_ (fs_of st) (overlay_path config version game) = false ->
  install_to_game E config game st
  = (Raise (FileNotFoundError
              ("ReShade DLL not found: " +:+ overlay_path config version game)), st)
  /\
  forall g s r s',
    install_to_game E config g s = (r, s') ->
    match r with
    | Raise _ => games_json s' = games_json s
    | Ok _ =>
        exists m,
          games_json s' = Text (Some (JObj m)) /\
          m !! resolve E (fs_of s') (GameInfo.path g) = Some (JObj (GameInfo.to_dict g))
    end.
Proof.
  intros Hv Hex. split; [by apply install_to_game_missing|].
  intros g s r s' H.
  apply install_to_game_inv in H as [(e & -> & Hs)|(s1 & r1 & Hs & _ & Hsave & ->)].
  { by destruct Hs. }
  apply save_inv in Hsave as [(m & Hc & -> & ->)|[-> ->]]; simpl.
  - eexists. split; [done|]. by rewrite lookup_insert_eq.
  - by destruct Hs.
Qed.

Lemma install_to_game_missing_overlay_witness :
  install_to_game Sample.env Sample.config Sample.game Sample.state_no_overlay
  = (Raise (FileNotFoundError
              "ReShade DLL not found: /m/reshade/6.1/ReShade64.dll"),
     Sample.state_no_overlay).
Proof.
  refine (proj1 (install_to_game_missing_overlay Sample.env Sample.config
                   Sample.game Sample.state_no_overlay "6.1" _ _)).
  - vm_compute. reflexivity.
  - vm_compute. reflexivity.
Defined.

(** C9: right after a successful install, uninstalling the install
    directory removes at least one link; on any directory, a second
    uninstall straight after the first removes nothing and changes
    nothing; where none of the listed names is a link, the first one
    already removes nothing.  Every call returns. *)
Theorem uninstall_from_game_twice E config game st v st' (p : string) (σ : fs) :
  install_to_game E config game st = (Ok v, st') ->
  (exists removed σ1,
     uninstall_from_game (GameInfo.install_path game) (fs_of st') = (Ok removed, σ1) /\
     removed <> [] /\
     uninstall_from_game (GameInfo.install_path game) σ1 = (Ok [], σ1))
  /\
  (exists removed σ1,
     uninstall_from_game p σ = (Ok removed, σ1) /\
     uninstall_from_game p σ1 = (Ok [], σ1))
  /\
  ((forall l, l ∈ RESHADE_LINKS -> Fs.is_symlink σ (Path.join p l) = false) ->
   uninstall_from_game p σ = (Ok [], σ)).
Proof.
  intros Hinst. unfold uninstall_from_game. split; [|split].
  - apply install_to_game_inv in Hinst
      as [(e & [=] & _)|(s1 & r1 & _ & Hl & Hsave & Hr)].
    assert (fs_of st' = fs_of s1) as Hfs.
    { apply save_inv in Hsave as [(m & _ & _ & ->)|[_ ->]]; done. }
    destruct (uninstall_links_spec (GameInfo.install_path game) RESHADE_LINKS []
                (fs_of st')) as (extra & σ1 & Hrun & Hgone & _ & Hnil).
    exists extra, σ1. simpl in Hrun. split; [done|]. split.
    + intros Hext. pose proof (proj1 Hnil Hext "ReShade_shaders") as Hn.
      rewrite Hfs in Hn. rewrite Hn in Hl; [done|].
      unfold RESHADE_LINKS. do 10 apply list_elem_of_further. apply list_elem_of_here.
    + by apply uninstall_links_clean.
  - destruct (uninstall_links_spec p RESHADE_LINKS [] σ)
      as (extra & σ1 & Hrun & Hgone & _ & _).
    exists extra, σ1. split; [done|]. by apply uninstall_links_clean.
  - apply uninstall_links_clean.
Qed.

Lemma uninstall_from_game_twice_witness :
  exists removed σ1,
    uninstall_from_game "/g"
      (fs_of (install_to_game Sample.env Sample.config Sample.game
                Sample.state_ready).2) = (Ok removed, σ1) /\
    removed <> [] /\
    uninstall_from_game "/g" σ1 = (Ok [], σ1).
Proof.
  refine (proj1 (uninstall_from_game_twice Sample.env Sample.config Sample.game
                   Sample.state_ready "dxgi" _ "/g" Sample.fs_ready _)).
  vm_compute. reflexivity.
Defined.

(** ** The store *)

Section StoreFacts.
Context (E : os_env).

(** Reading back what [to_dict] wrote.  A path object never prints as the
    empty string, hence the two side conditions. *)
Lemma from_dict_to_dict g :
  GameInfo.install_path g <> "" ->
  GameInfo.selected_exe g <> Some "" ->
  GameInfo.from_dict (JObj (GameInfo.to_dict g)) = Ok (persisted g).
Proof.
  intros Hi Hs. destruct g as [nm pth exes arch api dll ip se]. simpl in *.
  unfold GameInfo.from_dict, GameInfo.optional_path, GameInfo.get_default,
    GameInfo.to_dict, subscript. simpl.
  rewrite !lookup_insert_eq.
  repeat (rewrite lookup_insert_ne by done; rewrite ?lookup_insert_eq).
  simpl.
  assert (negb (String.eqb ip "") = true) as ->.
  { apply negb_true_iff. by apply String.eqb_neq. }
  simpl. destruct se as [exe|]; simpl.
  - assert (negb (String.eqb exe "") = true) as ->.
    { apply negb_true_iff. apply String.eqb_neq. congruence. }
    reflexivity.
  - reflexivity.
Qed.

(** [remove] on a cache that is a dictionary. *)
Lemma remove_dict game_path st m :
  _cache st = JObj m ->
  let key := resolve E (fs_of st) game_path in
  GamesConfigManager.remove E game_path st
  = (Ok tt,
     match m !! key with
     | Some _ => {| fs_of := fs_of st;
                    games_json := Text (Some (JObj (delete key m)));
                    _cache := JObj (delete key m) |}
     | None => st
     end).
Proof.
  intros Hc key.
  unfold GamesConfigManager.remove, GamesConfigManager._game_key,
    GamesConfigManager.delitem, GamesConfigManager._save, set_cache.
  rewrite !bind_gets. rewrite Hc. unfold bind at 1. simpl. fold key.
  destruct (m !! key) as [v|] eqn:Hk; simpl.
  - unfold bind. simpl. rewrite Hc. rewrite Hk. reflexivity.
  - reflexivity.
Qed.

(** [get] on a cache that is a dictionary holding a record under the
    key. *)
Lemma get_dict game_path st m v :
  _cache st = JObj m ->
  m !! resolve E (fs_of st) game_path = Some v ->
  GamesConfigManager.get E game_path st
  = (match GameInfo.from_dict v with
     | Ok g => Ok (Some g)
     | Raise KeyError | Raise TypeError => Ok None
     | Raise e => Raise e
     end, st).
Proof.
  intros Hc Hk.
  unfold GamesConfigManager.get, GamesConfigManager._game_key.
  rewrite !bind_gets. rewrite Hc. unfold bind. simpl. rewrite Hk. simpl.
  unfold try_except_KeyError_TypeError.
  destruct (GameInfo.from_dict v) as [g|[]]; reflexivity.
Qed.

End StoreFacts.

(** C6, as stated, fails: the candidate executables of a record are not
    written to the document, so a record that has some comes back without
    them. *)
Lemma store_round_trip_loses_exe_files :
  let st' := (GamesConfigManager.save Sample.env Sample.game Sample.state_ready).2 in
  let fresh := GamesConfigManager.init (fs_of st') (games_json st') in
  (GamesConfigManager.get Sample.env (GameInfo.path Sample.game) fresh).1
  = Ok (Some (persisted Sample.game)) /\
  GameInfo.exe_files Sample.game = ["/g/game.exe"] /\
  GameInfo.exe_files (persisted Sample.game) = [] /\
  persisted Sample.game <> Sample.game.
Proof. vm_compute. repeat split; done. Qed.

(** C6 (amended): after a save that returns, a fresh manager built on the
    same backing document gives, for the record's path (existing on disk
    or not), a record with the same name, path, architecture, API,
    override module, install path and selected executable as the one
    saved, and with an empty list of candidate executables.  The path
    strings are those of path objects, which are never empty. *)
Theorem store_round_trip E game st st' :
  GameInfo.install_path game <> "" ->
  GameInfo.selected_exe game <> Some "" ->
  GamesConfigManager.save E game st = (Ok tt, st') ->
  let fresh := GamesConfigManager.init (fs_of st') (games_json st') in
  GamesConfigManager.get E (GameInfo.path game) fresh
  = (Ok (Some (persisted game)), fresh).
Proof.
  intros Hi Hs Hsave fresh.
  apply save_inv in Hsave as [(m & Hc & _ & ->)|[[=] _]].
  subst fresh. simpl.
  erewrite get_dict; [|reflexivity|simpl; apply lookup_insert_eq].
  by rewrite from_dict_to_dict.
Qed.

Lemma store_round_trip_witness :
  let st' := (GamesConfigManager.save Sample.env Sample.game Sample.state_ready).2 in
  let fresh := GamesConfigManager.init (fs_of st') (games_json st') in
  GamesConfigManager.get Sample.env "/g" fresh
  = (Ok (Some (persisted Sample.game)), fresh).
Proof.
  refine (store_round_trip Sample.env Sample.game Sample.state_ready _ _ _ _).
  - vm_compute. discriminate.
  - vm_compute. discriminate.
  - vm_compute. reflexivity.
Defined.

(** C8, as stated, fails: with the game's record in the store and none of
    the listed names a link in its directory, the confirmed uninstall flow
    removes nothing and leaves the record where it was. *)
Lemma run_uninstall_flow_keeps_record :
  uninstall_from_game "/g" (fs_of Sample.state_recorded_clean)
  = (Ok [], fs_of Sample.state_recorded_clean) /\
  run_uninstall_flow Sample.env Sample.game true Sample.state_recorded_clean
  = (Ok tt, Sample.state_recorded_clean) /\
  (GamesConfigManager.get Sample.env "/g" Sample.state_recorded_clean).1
  = Ok (Some (persisted Sample.game)) /\
  games_json Sample.state_recorded_clean
  = Text (Some (JObj {[ "/g" := JObj (GameInfo.to_dict Sample.game) ]})).
Proof. vm_compute. repeat split; done. Qed.

(** C8 (amended): the confirmed uninstall flow unlinks every listed name
    that is a link in the install directory and nothing else.  When at
    least one link was removed it then drops the record kept under the
    game's key from the cache (a dictionary) and, if there was one,
    rewrites the document without it; when no link was removed the store
    is left as it was, record included. *)
Theorem run_uninstall_flow_store E game st m :
  _cache st = JObj m ->
  exists removed σ1,
    uninstall_from_game (GameInfo.install_path game) (fs_of st) = (Ok removed, σ1) /\
    (forall l, l ∈ RESHADE_LINKS ->
       Fs.is_symlink σ1 (Path.join (GameInfo.install_path game) l) = false) /\
    (forall q, σ1 !! q = fs_of st !! q \/
               (σ1 !! q = None /\ Fs.is_symlink (fs_of st) q = true /\
                exists l, l ∈ RESHADE_LINKS /\
                          q = Path.join (GameInfo.install_path game) l)) /\
    let key := resolve E σ1 (GameInfo.path game) in
    run_uninstall_flow E game true st
    = (Ok tt,
       match removed with
       | [] => {| fs_of := σ1; games_json := games_json st; _cache := _cache st |}
       | _ :: _ =>
           {| fs_of := σ1;
              games_json := match m !! key with
                            | Some _ => Text (Some (JObj (delete key m)))
                            | None => games_json st
                            end;
              _cache := JObj (delete key m) |}
       end).
Proof.
  intros Hc.
  destruct (uninstall_links_spec (GameInfo.install_path game) RESHADE_LINKS []
              (fs_of st)) as (removed & σ1 & Hrun & Hgone & Hframe & _).
  change ([] ++ removed) with removed in Hrun. exists removed, σ1.
  split; [exact Hrun|]. split; [exact Hgone|]. split; [exact Hframe|].
  intros key. unfold run_uninstall_flow.
  assert (lift_state (uninstall_from_game (GameInfo.install_path game)) st
          = (Ok removed,
             {| fs_of := σ1; games_json := games_json st; _cache := _cache st |}))
    as Hlift.
  { unfold lift_state, uninstall_from_game. by rewrite Hrun. }
  rewrite (bind_Ok _ _ _ _ _ Hlift).
  destruct removed as [|r0 rest]; [reflexivity|].
  rewrite (remove_dict E _ _ m) by exact Hc. simpl. fold key.
  destruct (m !! key) as [v|] eqn:Hk.
  - reflexivity.
  - rewrite Hc. by rewrite delete_id.
Qed.

Lemma run_uninstall_flow_store_witness :
  exists removed σ1,
    uninstall_from_game "/g" Sample.fs_ready = (Ok removed, σ1) /\
    run_uninstall_flow Sample.env Sample.game true Sample.state_recorded_clean
    = (Ok tt,
       match removed with
       | [] => {| fs_of := σ1;
                  games_json := games_json Sample.state_recorded_clean;
                  _cache := _cache Sample.state_recorded_clean |}
       | _ :: _ =>
           {| fs_of := σ1;
              games_json := Text (Some (JObj ∅));
              _cache := JObj ∅ |}
       end).
Proof.
  destruct (run_uninstall_flow_store Sample.env Sample.game
              Sample.state_recorded_clean
              {[ "/g" := JObj (GameInfo.to_dict Sample.game) ]} eq_refl)
    as (removed & σ1 & Hrun & _ & _ & Hflow).
  exists removed, σ1. split; [exact Hrun|].
  rewrite Hflow. destruct removed; [reflexivity|].
  assert (Hr : resolve Sample.env σ1 (GameInfo.path Sample.game) = "/g")
    by reflexivity.
  rewrite Hr. rewrite lookup_singleton_eq, delete_singleton_eq. reflexivity.
Defined.

(** ** Paths *)

Section PathFacts.

Lemma string_app_cons x (a b : string) : String x a +:+ b = String x (a +:+ b).
Proof. reflexivity. Qed.

Lemma string_app_assoc (a b c : string) : (a +:+ b) +:+ c = a +:+ (b +:+ c).
Proof.
  induction a as [|x a IH]; [done|]. rewrite !string_app_cons. by f_equal.
Qed.

(** What follows the last slash has no slash. *)
Lemma split_last_component p d n :
  Path.split_last p = Some (d, n) -> Path.split_last n = None.
Proof.
  revert d n. induction p as [|c p IH]; intros d n; simpl; [done|].
  destruct (Path.split_last p) as [[d' n']|] eqn:Hp.
  - intros [= <- <-]. by eapply IH.
  - destruct (Ascii.eqb c "/"); [|done]. by intros [= <- <-].
Qed.

Lemma split_last_app x n :
  Path.split_last n = None ->
  Path.split_last (x +:+ "/" +:+ n) = Some (x, n).
Proof.
  intros Hn. induction x as [|c x IH].
  - change ("" +:+ "/" +:+ n) with (String "/" n). simpl. by rewrite Hn.
  - rewrite string_app_cons. simpl. by rewrite IH.
Qed.

Lemma name_component p : Path.split_last (Path.name p) = None.
Proof.
  unfold Path.name. destruct (Path.split_last p) as [[d n]|] eqn:Hp; [|done].
  by eapply split_last_component.
Qed.

Lemma name_app x n :
  Path.split_last n = None -> Path.name (x +:+ "/" +:+ n) = n.
Proof. intros Hn. unfold Path.name. by rewrite split_last_app. Qed.

(** A non-empty name without slash is joined behind a separator. *)
Lemma join_component d n :
  n <> "" -> Path.split_last n = None ->
  Path.join d n = Path.base d +:+ "/" +:+ n.
Proof.
  intros Hne Hn. unfold Path.join.
  destruct (String.eqb_spec n "") as [->|_]; [done|].
  destruct n as [|c r]; [done|]. simpl in *.
  destruct (Path.split_last r) as [[? ?]|]; [done|].
  by destruct (Ascii.eqb c "/").
Qed.

Lemma is_child_inv d k :
  Path.is_child d k = true ->
  Path.name k <> "" /\ k = Path.base d +:+ "/" +:+ Path.name k.
Proof.
  unfold Path.is_child. intros [Hne Hk]%andb_true_iff.
  apply negb_true_iff, String.eqb_neq in Hne.
  apply String.eqb_eq in Hk. split; [done|].
  rewrite Hk at 1. apply join_component; [done|apply name_component].
Qed.

Lemma is_child_join d n :
  n <> "" -> Path.split_last n = None -> Path.is_child d (Path.join d n) = true.
Proof.
  intros Hne Hn. rewrite (join_component _ _ Hne Hn).
  unfold Path.is_child. rewrite (name_app _ _ Hn).
  rewrite (join_component _ _ Hne Hn).
  apply andb_true_iff. split.
  - by apply negb_true_iff, String.eqb_neq.
  - apply String.eqb_refl.
Qed.

Lemma name_join d n :
  n <> "" -> Path.split_last n = None -> Path.name (Path.join d n) = n.
Proof.
  intros Hne Hn. rewrite (join_component _ _ Hne Hn). by apply name_app.
Qed.

(** A path with a component behind a separator is not the root. *)
Lemma base_app x c r :
  Path.base (x +:+ "/" +:+ String c r) = x +:+ "/" +:+ String c r.
Proof.
  unfold Path.base.
  destruct (String.eqb_spec (x +:+ "/" +:+ String c r) "/") as [H|_]; [|done].
  destruct x as [|a x]; [done|]. simpl in H.
  destruct x; simpl in H; done.
Qed.

(** The two merged directories have no entry in common. *)
Lemma merged_dirs_disjoint mp k :
  Path.is_child (Path.join mp "Shaders") k = true ->
  Path.is_child (Path.join mp "Textures") k = true -> False.
Proof.
  intros [_ Hs]%is_child_inv [_ Ht]%is_child_inv.
  change (Path.join mp "Shaders") with (Path.base mp +:+ "/" +:+ "Shaders") in Hs.
  change (Path.join mp "Textures") with (Path.base mp +:+ "/" +:+ "Textures") in Ht.
  rewrite base_app in Hs, Ht. rewrite Hs in Ht at 1.
  rewrite !string_app_assoc in Ht.
  apply String.app_inj in Ht. simpl in Ht. discriminate Ht.
Qed.

End PathFacts.

(** ** Relating the start and the end of a run *)

Section Follows.
Context {S : Type} (R : S -> bool -> S -> Prop).
Hypothesis R_refl : forall s, R s true s.
Hypothesis R_weaken : forall s s', R s true s' -> R s false s'.
Hypothesis R_trans : forall s s1 s2 b, R s true s1 -> R s1 b s2 -> R s b s2.

Lemma follows_ret {A} (a : A) : follows R (ret a).
Proof. intros s. apply R_refl. Qed.

Lemma follows_gets {A} (f : S -> A) : follows R (gets f).
Proof. intros s. apply R_refl. Qed.

Lemma follows_bind_post {A B} (m : M S A) (k : A -> M S B) (P : A -> Prop) :
  follows R m ->
  (forall s a s1, m s = (Ok a, s1) -> P a) ->
  (forall a, P a -> follows R (k a)) ->
  follows R (bind m k).
Proof.
  intros Hm HP Hk s. unfold bind. specialize (Hm s).
  destruct (m s) as [[a|e] s1] eqn:Hms; simpl in *.
  - eapply R_trans; [exact Hm|]. apply Hk. by eapply HP.
  - exact Hm.
Qed.

Lemma follows_bind {A B} (m : M S A) (k : A -> M S B) :
  follows R m -> (forall a, follows R (k a)) -> follows R (bind m k).
Proof.
  intros Hm Hk. apply (follows_bind_post m k (fun _ => True)); auto.
Qed.

Lemma follows_for_each {A} (l : list A) (body : A -> M S unit) :
  (forall x, x ∈ l -> follows R (body x)) -> follows R (for_each l body).
Proof.
  induction l as [|x l IH]; intros Hbody; simpl.
  - apply follows_ret.
  - apply follows_bind.
    + apply Hbody. left.
    + intros _. apply IH. intros y Hy. apply Hbody. by right.
Qed.

(** A run that leaves the state as it found it. *)
Lemma follows_read_only {A} (m : M S A) : read_only m -> follows R m.
Proof.
  intros Hro s. rewrite Hro. destruct (m s).1; simpl; auto.
Qed.

End Follows.

(** ** Merge engine *)

Section MergeFacts.
Context (E : os_env).

Lemma lift_fs_read_only {A} (m : M fs A) : read_only m -> read_only (lift_fs m).
Proof.
  intros Hro st. unfold lift_fs. specialize (Hro (mfs st)).
  destruct (m (mfs st)) as [r σ']. simpl in *. subst. by destruct st.
Qed.

Lemma iterdir_read_only d : read_only (Fs.iterdir E d).
Proof.
  intros σ. unfold Fs.iterdir.
  by destruct (Fs.is_dir σ d), (Fs.exists_ σ d).
Qed.

Lemma iterdir_Ok d (σ : fs) l σ' :
  Fs.iterdir E d σ = (Ok l, σ') ->
  l = scan_order E (filter (fun k => Path.is_child d k) (Fs.paths σ)).
Proof.
  unfold Fs.iterdir.
  destruct (Fs.is_dir σ d), (Fs.exists_ σ d); by intros [= <- <-].
Qed.

Lemma lift_iterdir_Ok d st l st' :
  lift_fs (Fs.iterdir E d) st = (Ok l, st') ->
  l = scan_order E (filter (fun k => Path.is_child d k) (Fs.paths (mfs st))).
Proof.
  unfold lift_fs. destruct (Fs.iterdir E d (mfs st)) as [r σ'] eqn:H.
  intros [= -> <-]. by eapply iterdir_Ok.
Qed.

Lemma rglob_read_only d nm : read_only (Fs.rglob E d nm).
Proof. by intros σ. Qed.

(** *** One call *)

Lemma link_file_seen source target_dir st :
  Path.name source ∈ seen_files st ->
  link_file E source target_dir st = (Ok false, st).
Proof.
  intros H. unfold link_file. rewrite bind_gets.
  by rewrite bool_decide_eq_true_2.
Qed.

Lemma link_file_inv source target_dir st r st' :
  link_file E source target_dir st = (r, st') ->
  let n := Path.name source in
  let target := Path.join target_dir n in
  (n ∈ seen_files st /\ r = Ok false /\ st' = st) \/
  ((n ∉ seen_files st) /\ seen_files st' = {[ n ]} ∪ seen_files st /\
   ((Fs.exists_ (mfs st) target = true /\ r = Ok false /\ mfs st' = mfs st) \/
    (Fs.exists_ (mfs st) target = false /\
     ((r = Ok true /\ mfs st !! target = None /\
       mfs st' = <[ target := Symlink (resolve E (mfs st) source) ]> (mfs st)) \/
      ((exists e, r = Raise e) /\ mfs st' = mfs st))))).
Proof.
  intros H n target. unfold link_file in H. rewrite bind_gets in H.
  fold n in H. case_bool_decide as Hseen.
  { left. by injection H as <- <-. }
  right. split; [done|].
  rewrite bind_modify, bind_gets in H. simpl in H. fold target in H.
  destruct (Fs.exists_ (mfs st) target) eqn:Hex; simpl in H.
  { injection H as <- <-. split; [done|]. left. done. }
  rewrite bind_gets in H. simpl in H.
  unfold bind, lift_fs in H. simpl in H.
  destruct (Fs.symlink_to target (resolve E (mfs st) source) (mfs st))
    as [r1 σ1] eqn:Hsl.
  apply symlink_to_inv in Hsl as [(-> & Hnone & ->)|[[e ->] ->]].
  - injection H as <- <-. split; [done|]. right. split; [done|]. left. done.
  - injection H as <- <-. split; [done|]. right. split; [done|]. right. eauto.
Qed.

Lemma grows_refl st : grows st st.
Proof. by split. Qed.

Lemma grows_trans a b c : grows a b -> grows b c -> grows a c.
Proof.
  intros [Hs1 Hf1] [Hs2 Hf2]. split; [set_solver|]. auto.
Qed.

Lemma link_file_grows source target_dir st r st' :
  link_file E source target_dir st = (r, st') -> grows st st'.
Proof.
  intros H. apply link_file_inv in H
    as [(_ & _ & ->)|(Hn & Hsn & [(_ & _ & Hfs)|(_ & [(_ & Hnone & Hfs)|(_ & Hfs)])])].
  - apply grows_refl.
  - split; [rewrite Hsn; apply union_subseteq_r|]. by rewrite Hfs.
  - split; [rewrite Hsn; apply union_subseteq_r|]. rewrite Hfs. intros p n Hp.
    rewrite lookup_insert_ne; [done|]. congruence.
  - split; [rewrite Hsn; apply union_subseteq_r|]. by rewrite Hfs.
Qed.

(** Once it has run, the name is seen, whatever came of the call. *)
Lemma link_file_marks source target_dir st r st' :
  link_file E source target_dir st = (r, st') ->
  Path.name source ∈ seen_files st'.
Proof.
  intros H. apply link_file_inv in H as [(? & _ & ->)|(_ & Hsn & _)]; [done|].
  rewrite Hsn. apply elem_of_union_l, elem_of_singleton. reflexivity.
Qed.

(** *** A sequence of calls *)

Lemma link_all_grows reqs st r st' :
  link_all E reqs st = (r, st') -> grows st st'.
Proof.
  revert st. induction reqs as [|[s d] reqs IH]; intros st H.
  - injection H as _ <-. apply grows_refl.
  - unfold link_all in H. rewrite for_each_cons in H. simpl in H.
    rewrite bind_assoc in H.
    apply bind_inv in H as [(e & H & _)|(b & st1 & H1 & H)].
    + by eapply link_file_grows.
    + rewrite bind_ret in H. eapply grows_trans; [by eapply link_file_grows|].
      by apply IH.
Qed.

Lemma link_all_app reqs1 reqs2 st st1 :
  link_all E reqs1 st = (Ok tt, st1) ->
  link_all E (reqs1 ++ reqs2) st = link_all E reqs2 st1.
Proof.
  intros H. unfold link_all in *. rewrite for_each_app.
  by rewrite (bind_Ok _ _ _ _ _ H).
Qed.

End MergeFacts.

(** *** The shape of a merge run

    Whatever relation every [link_file] call respects, the whole of
    [merge_body] respects, the calls being made on files found by a
    directory scan and on one of the two destinations. *)

Section MergeStructure.
Context (E : os_env) (ms mt : string).
Context (Src : string -> Prop).
Context (R : merge_state -> bool -> merge_state -> Prop).
Hypothesis R_refl : forall s, R s true s.
Hypothesis R_weaken : forall s s', R s true s' -> R s false s'.
Hypothesis R_trans : forall s s1 s2 b, R s true s1 -> R s1 b s2 -> R s b s2.
Hypothesis scanned : forall d (σ : fs) x,
  x ∈ scan_order E (filter (fun k => Path.is_child d k) (Fs.paths σ)) -> Src x.
Hypothesis R_link : forall s d,
  Src s -> d = ms \/ d = mt -> follows R (link_file E s d).

Lemma iterdir_follows d (k : list string -> M merge_state unit) :
  (forall items, (forall x, x ∈ items -> Src x) -> follows R (k items)) ->
  follows R (bind (lift_fs (Fs.iterdir E d)) k).
Proof.
  intros Hk.
  apply (follows_bind_post R R_trans _ _ (fun items => forall x, x ∈ items -> Src x)).
  - apply (follows_read_only R R_refl R_weaken).
    apply lift_fs_read_only, iterdir_read_only.
  - intros st items st1 H x Hx. apply lift_iterdir_Ok in H. subst items.
    by eapply scanned.
  - exact Hk.
Qed.

Lemma link_files_in_follows dir d :
  d = ms \/ d = mt -> follows R (link_files_in E dir d).
Proof.
  intros Hd. unfold link_files_in. apply iterdir_follows. intros items Hitems.
  apply (follows_for_each R R_refl R_trans). intros f Hf.
  apply (follows_bind R R_trans); [apply (follows_gets R R_refl)|].
  intros [|]; [|apply (follows_ret R R_refl)].
  apply (follows_bind R R_trans); [by apply R_link; auto|].
  intros _. apply (follows_ret R R_refl).
Qed.

Lemma link_tree_follows repo_dir nm d :
  d = ms \/ d = mt -> follows R (link_tree E repo_dir nm d).
Proof.
  intros Hd. unfold link_tree. apply (follows_bind R R_trans).
  - apply (follows_read_only R R_refl R_weaken).
    apply lift_fs_read_only, rglob_read_only.
  - intros subs. apply (follows_for_each R R_refl R_trans). intros sub _.
    apply (follows_bind R R_trans); [apply (follows_gets R R_refl)|].
    intros [|]; [by apply link_files_in_follows|apply (follows_ret R R_refl)].
Qed.

Lemma merge_repos_follows c : follows R (merge_repos E c ms mt).
Proof.
  unfold merge_repos. apply (follows_bind R R_trans).
  - apply (follows_read_only R R_refl R_weaken).
    apply lift_fs_read_only, iterdir_read_only.
  - intros repos. apply (follows_for_each R R_refl R_trans). intros repo_dir _.
    apply (follows_bind R R_trans); [apply (follows_gets R R_refl)|].
    intros is_d. destruct (_ || _); [apply (follows_ret R R_refl)|].
    apply (follows_bind R R_trans); [apply link_tree_follows; auto|].
    intros _. apply link_tree_follows; auto.
Qed.

Lemma merge_external_follows c : follows R (merge_external E c ms mt).
Proof.
  unfold merge_external.
  apply (follows_bind R R_trans); [apply (follows_gets R R_refl)|].
  intros [|]; [|apply (follows_ret R R_refl)].
  apply (follows_bind R R_trans).
  { apply (follows_bind R R_trans); [apply (follows_gets R R_refl)|].
    intros [|]; [apply link_files_in_follows; auto|apply (follows_ret R R_refl)]. }
  intros _. apply (follows_bind R R_trans).
  { apply (follows_bind R R_trans); [apply (follows_gets R R_refl)|].
    intros [|]; [apply link_files_in_follows; auto|apply (follows_ret R R_refl)]. }
  intros _. apply iterdir_follows. intros items Hitems.
  apply (follows_for_each R R_refl R_trans). intros item Hitem.
  apply (follows_bind R R_trans); [apply (follows_gets R R_refl)|].
  intros is_f. destruct (negb is_f); [apply (follows_ret R R_refl)|].
  case_bool_decide.
  { apply (follows_bind R R_trans); [apply R_link; auto|].
    intros _. apply (follows_ret R R_refl). }
  case_bool_decide; [|apply (follows_ret R R_refl)].
  apply (follows_bind R R_trans); [apply R_link; auto|].
  intros _. apply (follows_ret R R_refl).
Qed.

Lemma merge_body_follows c : follows R (merge_body E c ms mt).
Proof.
  unfold merge_body. apply (follows_bind R R_trans).
  - apply merge_repos_follows.
  - intros _. apply merge_external_follows.
Qed.

End MergeStructure.

(** *** First source wins *)

Section MergeDedup.
Context (E : os_env).

Lemma link_all_one s d st :
  link_all E [(s, d)] st
  = match link_file E s d st with
    | (Ok _, st') => (Ok tt, st')
    | (Raise e, st') => (Raise e, st')
    end.
Proof.
  unfold link_all. simpl. unfold bind. simpl.
  destruct (link_file E s d st) as [[b|e] st']; reflexivity.
Qed.

(** A merge run is a sequence of [link_file] calls: it leaves the state
    that the sequence leaves, and returns only if the sequence does. *)
Lemma merge_body_link_run c ms mt st :
  exists reqs r,
    link_all E reqs st = (r, (merge_body E c ms mt st).2) /\
    (returned (merge_body E c ms mt st).1 = true -> r = Ok tt).
Proof.
  apply (merge_body_follows E ms mt (fun _ => True)
           (fun a b z => exists reqs r,
              link_all E reqs a = (r, z) /\ (b = true -> r = Ok tt))).
  - intros s. exists [], (Ok tt). done.
  - intros s s' (reqs & r & H & _). exists reqs, r. done.
  - intros s s1 s2 b (reqs1 & r1 & H1 & Hr1) (reqs2 & r2 & H2 & Hr2).
    rewrite (Hr1 eq_refl) in H1.
    exists (reqs1 ++ reqs2), r2. by rewrite (link_all_app E _ _ _ _ H1).
  - done.
  - intros s d _ _ st0. exists [(s, d)].
    rewrite link_all_one.
    destruct (link_file E s d st0) as [[b|e] st']; simpl.
    + exists (Ok tt). done.
    + exists (Raise e). done.
Qed.

(** A merge run changes and removes no entry that is there, and forgets
    no name it has seen. *)
Lemma merge_body_grows c ms mt st :
  grows st (merge_body E c ms mt st).2.
Proof.
  destruct (merge_body_link_run c ms mt st) as (reqs & r & Hrun & _).
  by eapply link_all_grows.
Qed.

End MergeDedup.

(** C5, as stated, fails: where a regular file of that name already
    stands in the destination, the copy of the first tree is not linked
    either; the file stays and no link is made. *)
Lemma merge_shaders_occupied_name_unlinked :
  exists σ',
    merge_shaders Sample.env Sample.config Sample.fs_merge_occupied = (Ok 1, σ') /\
    Fs.is_file Sample.fs_merge_occupied "/m/ReShade_shaders/r1/Shaders/Y.fx" = true /\
    Fs.is_file Sample.fs_merge_occupied "/m/ReShade_shaders/r2/Shaders/Y.fx" = true /\
    σ' !! "/m/ReShade_shaders/Merged/Shaders/Y.fx" = Some (File "") /\
    links_in σ' Sample.merged_shaders = 0 /\
    links_in σ' Sample.merged_textures = 0.
Proof. eexists. vm_compute. repeat split; reflexivity. Qed.

(** Calls for one name, at the level of [link_file]: once a file has
    been handled, a later file of the same name, from whichever tree and
    for whichever destination, is skipped: the call returns false and
    changes nothing.  The first file of a name is linked exactly when no
    entry stands at that name in its destination; otherwise the file
    system is left as it is.  A link that was made points at the first
    file and is still there, unchanged, after any further calls.  Every
    merge run is such a sequence of calls. *)
Theorem merge_first_source_wins E s1 d1 s2 d2 mid st_a b st_b st_c :
  Path.name s1 = Path.name s2 ->
  link_file E s1 d1 st_a = (Ok b, st_b) ->
  link_all E mid st_b = (Ok tt, st_c) ->
  let target := Path.join d1 (Path.name s1) in
  link_file E s2 d2 st_c = (Ok false, st_c)
  /\ ((Path.name s1 ∉ seen_files st_a) ->
      b = negb (Fs.exists_ (mfs st_a) target))
  /\ (b = false -> mfs st_b = mfs st_a)
  /\ (b = true ->
      forall rest r st_end,
        link_all E rest st_b = (r, st_end) ->
        mfs st_end !! target = Some (Symlink (resolve E (mfs st_a) s1)))
  /\ (forall c ms mt st,
        exists reqs r,
          link_all E reqs st = (r, (merge_body E c ms mt st).2) /\
          (returned (merge_body E c ms mt st).1 = true -> r = Ok tt)).
Proof.
  intros Hname H1 Hmid target.
  pose proof (link_file_marks E _ _ _ _ _ H1) as Hseen_b.
  pose proof (link_all_grows E _ _ _ _ Hmid) as [Hsub _].
  split; [|split; [|split; [|split]]].
  - apply link_file_seen. rewrite <- Hname. by apply Hsub.
  - intros Hnew.
    apply link_file_inv in H1
      as [(? & _)|(_ & _ & [(Hex & Hb & _)|(Hex & [(Hb & _)|([e [=]] & _)])])].
    + done.
    + fold target in Hex. rewrite Hex. by injection Hb.
    + fold target in Hex. rewrite Hex. by injection Hb.
  - intros ->.
    apply link_file_inv in H1
      as [(_ & _ & ->)|(_ & _ & [(_ & _ & Hfs)|(_ & [([=] & _)|([e [=]] & _)])])];
      done.
  - intros -> rest r st_end Hrest.
    apply link_all_grows in Hrest as [_ Hkeep]. apply Hkeep.
    apply link_file_inv in H1
      as [(_ & [=] & _)|(_ & _ & [(_ & [=] & _)|(_ & [(_ & _ & ->)|([e [=]] & _)])])].
    by rewrite lookup_insert_eq.
  - intros c ms mt st. apply merge_body_link_run.
Qed.

Lemma merge_first_source_wins_witness :
  let s1 := "/m/ReShade_shaders/r1/Shaders/X.fx" in
  let s2 := "/m/ReShade_shaders/r2/Shaders/X.fx" in
  let mid := [("/m/ReShade_shaders/r2/Textures/t.png", Sample.merged_textures)] in
  let st_b := (link_file Sample.env s1 Sample.merged_shaders Sample.merge_start).2 in
  let st_c := (link_all Sample.env mid st_b).2 in
  link_file Sample.env s2 Sample.merged_shaders st_c = (Ok false, st_c) /\
  mfs st_c !! "/m/ReShade_shaders/Merged/Shaders/X.fx" = Some (Symlink s1).
Proof.
  intros s1 s2 mid st_b st_c.
  destruct (merge_first_source_wins Sample.env s1 Sample.merged_shaders
              s2 Sample.merged_shaders mid Sample.merge_start true st_b st_c)
    as (Hskip & _ & _ & Hkeep & _).
  - reflexivity.
  - vm_compute. reflexivity.
  - vm_compute. reflexivity.
  - split; [exact Hskip|].
    apply (Hkeep eq_refl mid (Ok tt)). vm_compute. reflexivity.
Defined.

(** *** Counting links *)

Section CountFacts.

Lemma links_in_insert_child (σ : fs) d k t :
  σ !! k = None -> Path.is_child d k = true ->
  links_in (<[ k := Symlink t ]> σ) d = Datatypes.S (links_in σ d).
Proof.
  intros Hk Hc. unfold links_in.
  rewrite map_filter_insert_True.
  - apply map_size_insert_None. apply map_lookup_filter_None_2. by left.
  - simpl. split; [by rewrite Hc|done].
Qed.

Lemma links_in_insert_other (σ : fs) d k t :
  Path.is_child d k = false ->
  links_in (<[ k := Symlink t ]> σ) d = links_in σ d.
Proof.
  intros Hc. unfold links_in. f_equal.
  apply map_filter_insert_not. intros y [Hy _]. simpl in Hy.
  by rewrite Hc in Hy.
Qed.

Lemma links_in_none (σ : fs) d :
  (forall k, Path.is_child d k = true -> σ !! k = None) -> links_in σ d = 0.
Proof.
  intros H. unfold links_in. apply map_size_empty_iff.
  apply map_empty_filter_2. intros k nd Hk [Hc _]. simpl in Hc.
  apply Is_true_true in Hc. rewrite (H k Hc) in Hk. done.
Qed.

End CountFacts.

(** *** Clearing a destination *)

Section ClearFacts.
Context (E : os_env).

Lemma clear_loop items : forall σ : fs,
  exists σ',
    for_each items (fun item =>
      is_l <- gets (fun σ => Fs.is_symlink σ item) ;;
      if is_l then Fs.unlink item else ret tt) σ = (Ok tt, σ') /\
    (forall k, Fs.is_symlink σ k = false -> σ' !! k = σ !! k) /\
    (forall k, Fs.is_symlink σ k = true ->
       (σ' !! k = None \/ σ' !! k = σ !! k) /\ (k ∈ items -> σ' !! k = None)).
Proof.
  induction items as [|x items IH]; intros σ.
  - exists σ. split; [done|]. split; [done|]. intros k _. split; [by right|].
    intros Hk. by apply elem_of_nil in Hk.
  - rewrite for_each_cons. rewrite bind_assoc, bind_gets.
    destruct (Fs.is_symlink σ x) eqn:Hx.
    + assert (Fs.unlink x σ = (Ok tt, delete x σ)) as Hun.
      { apply is_symlink_true in Hx as [t Ht]. unfold Fs.unlink. by rewrite Ht. }
      rewrite (bind_Ok _ _ _ _ _ Hun).
      destruct (IH (delete x σ)) as (σ' & Hrun & Hkeep & Hgone).
      exists σ'. split; [exact Hrun|]. split.
      * intros k Hk. assert (k <> x) as Hne by congruence.
        rewrite Hkeep; [by rewrite lookup_delete_ne|].
        by rewrite is_symlink_delete_ne.
      * intros k Hk. destruct (decide (k = x)) as [->|Hne].
        -- assert (σ' !! x = None) as Hnone.
           { rewrite Hkeep; [apply lookup_delete_eq|apply is_symlink_delete]. }
           split; [by left|done].
        -- destruct (Hgone k) as [Hor Hin]; [by rewrite is_symlink_delete_ne|].
           rewrite lookup_delete_ne in Hor by done. split; [exact Hor|].
           intros [->|Hk']%elem_of_cons; [done|by apply Hin].
    + rewrite bind_ret.
      destruct (IH σ) as (σ' & Hrun & Hkeep & Hgone).
      exists σ'. split; [exact Hrun|]. split; [exact Hkeep|].
      intros k Hk. destruct (Hgone k Hk) as [Hor Hin]. split; [exact Hor|].
      intros [->|Hk']%elem_of_cons; [congruence|by apply Hin].
Qed.

Lemma paths_elem (σ : fs) k : k ∈ Fs.paths σ <-> is_Some (σ !! k).
Proof.
  unfold Fs.paths. rewrite list_elem_of_fmap. split.
  - intros [[k' nd] [-> Hin]]. apply elem_of_map_to_list in Hin. by eexists.
  - intros [nd Hnd]. exists (k, nd). split; [done|]. by apply elem_of_map_to_list.
Qed.

(** With the directory in place, [clear_links] returns; it removes every
    link among the directory's entries and nothing that is not a link. *)
Lemma clear_links_spec d (σ : fs) :
  (forall l, scan_order E l ≡ₚ l) ->
  σ !! d = Some Dir ->
  exists σ',
    clear_links E d σ = (Ok tt, σ') /\
    (forall k, Fs.is_symlink σ k = false -> σ' !! k = σ !! k) /\
    (forall k, Fs.is_symlink σ k = true ->
       (σ' !! k = None \/ σ' !! k = σ !! k) /\
       (Path.is_child d k = true -> σ' !! k = None)).
Proof.
  intros Hperm Hd. unfold clear_links. rewrite bind_gets.
  rewrite (exists_regular σ d Dir Hd) by (simpl; tauto).
  assert (Fs.iterdir E d σ
          = (Ok (scan_order E (filter (fun k => Path.is_child d k) (Fs.paths σ))), σ))
    as Hit.
  { unfold Fs.iterdir, Fs.is_dir. rewrite (stat_regular σ d Dir Hd); [done|].
    simpl. tauto. }
  rewrite (bind_Ok _ _ _ _ _ Hit).
  destruct (clear_loop
              (scan_order E (filter (fun k => Path.is_child d k) (Fs.paths σ))) σ)
    as (σ' & Hrun & Hkeep & Hgone).
  exists σ'. split; [exact Hrun|]. split; [exact Hkeep|].
  intros k Hk. destruct (Hgone k Hk) as [Hor Hin]. split; [exact Hor|].
  intros Hc. apply Hin. rewrite Hperm. apply list_elem_of_filter. split.
  - by rewrite Hc.
  - apply paths_elem. apply is_symlink_true in Hk as [t Ht]. by eexists.
Qed.

End ClearFacts.

(** *** The reported count *)

Section CountedFacts.
Context (E : os_env) (ms mt : string).
Hypothesis disjoint : forall k,
  Path.is_child ms k = true -> Path.is_child mt k = true -> False.

Lemma link_file_counted s d :
  Path.name s <> "" -> d = ms \/ d = mt ->
  follows (fun a b z => counted ms mt a -> b = true -> counted ms mt z)
    (link_file E s d).
Proof.
  intros Hne Hd st. destruct (link_file E s d st) as [r st'] eqn:H. simpl.
  intros [Hent Hsize] Hret.
  pose proof (name_component s) as Hcomp.
  pose proof (is_child_join d _ Hne Hcomp) as Hchild.
  pose proof (name_join d _ Hne Hcomp) as Hname.
  assert (Path.is_child ms (Path.join d (Path.name s)) = true \/
          Path.is_child mt (Path.join d (Path.name s)) = true) as Hdest.
  { destruct Hd as [->| ->]; [by left|by right]. }
  apply link_file_inv in H
    as [(_ & _ & ->)
       |(Hnew & Hsn & [(Hex & _ & Hfs)|(Hex & [(_ & Hnone & Hfs)|([e ->] & _)])])].
  - done.
  - exfalso. destruct (mfs st !! Path.join d (Path.name s)) as [nd|] eqn:Hlk.
    + destruct (Hent _ nd Hdest Hlk) as [_ Hin]. rewrite Hname in Hin. done.
    + rewrite (stat_absent _ _ Hlk) in Hex. done.
  - split.
    + intros k nd Hk Hlk. rewrite Hfs in Hlk. rewrite Hsn.
      destruct (decide (k = Path.join d (Path.name s))) as [->|Hkne].
      * rewrite lookup_insert_eq in Hlk. injection Hlk as <-.
        split; [done|]. rewrite Hname. apply elem_of_union_l, elem_of_singleton.
        reflexivity.
      * rewrite lookup_insert_ne in Hlk by done.
        destruct (Hent k nd Hk Hlk) as [Hl Hin]. split; [done|].
        by apply elem_of_union_r.
    + rewrite Hsn, Hfs. rewrite size_union, size_singleton.
      2:{ apply disjoint_singleton_l. exact Hnew. }
      destruct Hd as [->| ->].
      * rewrite (links_in_insert_child _ _ _ _ Hnone Hchild).
        rewrite links_in_insert_other; [lia|].
        destruct (Path.is_child mt _) eqn:Hmt; [|done].
        exfalso. by eapply disjoint.
      * rewrite (links_in_insert_child _ _ _ _ Hnone Hchild).
        rewrite links_in_insert_other; [lia|].
        destruct (Path.is_child ms _) eqn:Hms; [|done].
        exfalso. by eapply disjoint.
  - done.
Qed.

Lemma merge_body_counted c :
  (forall l, scan_order E l ≡ₚ l) ->
  follows (fun a b z => counted ms mt a -> b = true -> counted ms mt z)
    (merge_body E c ms mt).
Proof.
  intros Hperm.
  apply (merge_body_follows E ms mt (fun s => Path.name s <> "")).
  - done.
  - done.
  - intros s s1 s2 b H1 H2 Hc Hb. apply H2; [|done]. by apply H1.
  - intros d σ x Hx. rewrite Hperm in Hx.
    apply list_elem_of_filter in Hx as [Hx _]. apply Is_true_true in Hx.
    by apply is_child_inv in Hx as [Hx _].
  - intros s d Hs Hd. by apply link_file_counted.
Qed.

End CountedFacts.

(** C10, as stated, fails: a name whose place in the destination is
    taken by a regular file is counted although no link is made for it. *)
Lemma merge_shaders_counts_unlinked :
  exists σ',
    merge_shaders Sample.env Sample.config Sample.fs_merge_occupied = (Ok 1, σ') /\
    links_in σ' "/m/ReShade_shaders/Merged/Shaders" = 0 /\
    links_in σ' "/m/ReShade_shaders/Merged/Textures" = 0 /\
    σ' = Sample.fs_merge_occupied.
Proof. eexists. vm_compute. repeat split; reflexivity. Qed.

(** C10 (amended): the number reported is the number of distinct file
    names the run came across.  When the two destination directories are
    in place and hold nothing but links before the run, and entries are
    scanned in some order without loss, that number is the number of links
    found in the two directories after it, which are the links the run
    created. *)
Theorem merge_shaders_count E c (σ : fs) n σ' :
  let merged_shaders := Path.join (merged_path c) "Shaders" in
  let merged_textures := Path.join (merged_path c) "Textures" in
  (forall l, scan_order E l ≡ₚ l) ->
  σ !! merged_shaders = Some Dir ->
  σ !! merged_textures = Some Dir ->
  (forall k nd,
     Path.is_child merged_shaders k = true \/ Path.is_child merged_textures k = true ->
     σ !! k = Some nd -> is_link nd) ->
  merge_shaders E c σ = (Ok n, σ') ->
  n = links_in σ' merged_shaders + links_in σ' merged_textures.
Proof.
  intros ms mt Hperm Hms Hmt Honly Hrun.
  unfold merge_shaders in Hrun. fold ms mt in Hrun.
  destruct (clear_links_spec E ms σ Hperm Hms) as (σ1 & Hc1 & Hkeep1 & Hgone1).
  assert (σ1 !! mt = Some Dir) as Hmt1.
  { rewrite Hkeep1; [done|]. unfold Fs.is_symlink. by rewrite Hmt. }
  destruct (clear_links_spec E mt σ1 Hperm Hmt1) as (σ2 & Hc2 & Hkeep2 & Hgone2).
  assert (for_each [ms; mt] (clear_links E) σ = (Ok tt, σ2)) as Hclear.
  { simpl. rewrite (bind_Ok _ _ _ _ _ Hc1). by rewrite (bind_Ok _ _ _ _ _ Hc2). }
  rewrite (bind_Ok _ _ _ _ _ Hclear) in Hrun.
  assert (forall k, Path.is_child ms k = true \/ Path.is_child mt k = true ->
                    σ2 !! k = None) as Hempty.
  { intros k Hk. destruct (Fs.is_symlink σ k) eqn:Hl.
    - destruct (Hgone1 k Hl) as [[H1|H1] Hin1].
      + rewrite Hkeep2; [done|]. unfold Fs.is_symlink. by rewrite H1.
      + destruct Hk as [Hk|Hk]; [|].
        * rewrite Hkeep2; [by apply Hin1|]. unfold Fs.is_symlink.
          by rewrite (Hin1 Hk).
        * apply Hgone2; [|done]. unfold Fs.is_symlink in *. by rewrite H1.
    - rewrite Hkeep2; rewrite ?Hkeep1; try done.
      + destruct (σ !! k) as [nd|] eqn:Hlk; [|done].
        pose proof (Honly k nd Hk Hlk) as Hnd. unfold Fs.is_symlink in Hl.
        rewrite Hlk in Hl. by destruct nd.
      + unfold Fs.is_symlink in *. by rewrite Hkeep1.
  }
  assert (counted ms mt {| seen_files := ∅; mfs := σ2 |}) as Hinit.
  { split.
    - intros k nd Hk Hlk. simpl in Hlk. by rewrite (Hempty k Hk) in Hlk.
    - change (size (∅ : gset string) = links_in σ2 ms + links_in σ2 mt).
      rewrite size_empty.
      rewrite !links_in_none; [done| |]; intros k Hk; apply Hempty; auto. }
  pose proof (merge_body_counted E ms mt (merged_dirs_disjoint (merged_path c)) c
                Hperm {| seen_files := ∅; mfs := σ2 |}) as Hfin.
  destruct (merge_body E c ms mt {| seen_files := ∅; mfs := σ2 |}) as [[[]|e] st];
    [|done].
  injection Hrun as <- <-. simpl in Hfin.
  destruct (Hfin Hinit eq_refl) as [_ Hsize]. exact Hsize.
Qed.

Lemma merge_shaders_count_witness :
  2 = links_in (merge_shaders Sample.env Sample.config Sample.fs_merge_two_repos).2
        Sample.merged_shaders
      + links_in (merge_shaders Sample.env Sample.config Sample.fs_merge_two_repos).2
          Sample.merged_textures.
Proof.
  assert (map_Forall
            (fun k nd =>
               Is_true (negb (Path.is_child Sample.merged_shaders k
                              || Path.is_child Sample.merged_textures k)
                        || bool_decide (is_link nd)))
            Sample.fs_merge_two_repos) as Hall.
  { refine (bool_decide_unpack _ _). vm_compute. exact I. }
  apply (merge_shaders_count Sample.env Sample.config Sample.fs_merge_two_repos).
  - intros l. reflexivity.
  - vm_compute. reflexivity.
  - vm_compute. reflexivity.
  - intros k nd Hk Hlk. specialize (Hall k nd Hlk). cbv beta in Hall.
    apply orb_True in Hall as [Hno|Hyes].
    + apply negb_True in Hno. exfalso. apply Hno. apply orb_True.
      destruct Hk as [Hk|Hk]; [left|right]; apply Is_true_true; exact Hk.
    + by apply bool_decide_unpack in Hyes.
  - vm_compute. reflexivity.
Defined.

(** ** Executable filter *)

Section FilterFacts.

Lemma prefix_app n h :
  String.prefix n h = true <-> exists post, h = n +:+ post.
Proof.
  revert h. induction n as [|a n IH]; intros h.
  - split; [intros _; by exists h|intros _; by destruct h].
  - destruct h as [|b h].
    + split; [done|]. intros [post H]. done.
    + simpl. destruct (ascii_dec a b) as [->|Hne].
      * rewrite IH. split.
        -- intros [post ->]. by exists post.
        -- intros [post H]. rewrite string_app_cons in H. injection H as ->.
           by exists post.
      * split; [done|]. intros [post H]. rewrite string_app_cons in H.
        injection H as <- _. done.
Qed.

(** [needle in hay] holds exactly when [hay] is some text, then [needle],
    then some text. *)
Lemma is_substring_app n h :
  is_substring n h = true <-> exists pre post, h = pre +:+ n +:+ post.
Proof.
  induction h as [|c h IH].
  - change (is_substring n "") with (String.prefix n "" || false).
    rewrite orb_false_r, prefix_app. split.
    + intros [post H]. by exists "", post.
    + intros (pre & post & H). destruct pre; [by exists post|done].
  - change (is_substring n (String c h))
      with (String.prefix n (String c h) || is_substring n h).
    rewrite orb_true_iff, prefix_app, IH. split.
    + intros [[post H]|(pre & post & ->)].
      * by exists "", post.
      * by exists (String c pre), post.
    + intros (pre & post & H). destruct pre as [|c' pre].
      * left. by exists post.
      * right. rewrite string_app_cons in H. injection H as -> ->.
        by exists pre, post.
Qed.

End FilterFacts.

(** X1: an executable is rejected exactly when its file name, in lower
    case, contains one of the blacklisted words; neither upper-case
    letters nor the directories on the way to the file matter. *)
Theorem is_game_executable_blacklist p :
  is_game_executable p = false <->
  exists w pre post,
    w ∈ EXE_BLACKLIST /\ lower (Path.name p) = pre +:+ w +:+ post.
Proof.
  unfold is_game_executable. rewrite negb_false_iff, existsb_exists. split.
  - intros (w & Hw & Hsub).
    apply (proj2 (list_elem_of_In _ _)), (proj1 (elem_of_elements _ _)) in Hw.
    apply is_substring_app in Hsub as (pre & post & H).
    exists w, pre, post. split; [exact Hw|exact H].
  - intros (w & pre & post & Hw & H). exists w. split.
    + apply (proj1 (list_elem_of_In _ _)), (proj2 (elem_of_elements _ _)).
      exact Hw.
    + apply is_substring_app. exists pre, post. exact H.
Qed.

(** ** Uninstall, exactly *)

Section UninstallExact.

Lemma listed_component l :
  l ∈ RESHADE_LINKS -> l <> "" /\ Path.split_last l = None.
Proof.
  intros Hl. unfold RESHADE_LINKS in Hl.
  repeat (apply elem_of_cons in Hl as [->|Hl]; [split; [done|reflexivity]|]).
  by apply elem_of_nil in Hl.
Qed.

Lemma join_listed p l :
  l ∈ RESHADE_LINKS -> Path.join p l = Path.base p +:+ "/" +:+ l.
Proof.
  intros [Hne Hc]%listed_component. by apply join_component.
Qed.

Lemma join_listed_NoDup p : NoDup (Path.join p <$> RESHADE_LINKS).
Proof.
  apply NoDup_fmap_2_strong.
  - intros x y Hx Hy. rewrite (join_listed _ _ Hx), (join_listed _ _ Hy).
    intros H. apply String.app_inj in H. by apply String.app_inj in H.
  - unfold RESHADE_LINKS. refine (bool_decide_unpack _ _).
    vm_compute. exact I.
Qed.

Lemma uninstall_links_filter p links :
  NoDup (Path.join p <$> links) ->
  forall removed (σ : fs),
    (uninstall_links p links removed σ).1
    = Ok (removed ++ List.filter (fun l => Fs.is_symlink σ (Path.join p l)) links).
Proof.
  induction links as [|l rest IH]; intros Hnd removed σ; simpl.
  - by rewrite app_nil_r.
  - rewrite fmap_cons in Hnd. apply NoDup_cons in Hnd as [Hl Hnd].
    unfold bind. rewrite safe_unlink_eq.
    destruct (Fs.is_symlink σ (Path.join p l)) eqn:Hs.
    + rewrite (IH Hnd). rewrite <- app_assoc. simpl. do 3 f_equal.
      apply List.filter_ext_in. intros l' Hl'.
      apply is_symlink_delete_ne. intros Heq. apply Hl. rewrite Heq.
      apply list_elem_of_fmap. exists l'. split; [done|].
      by apply list_elem_of_In.
    + by rewrite (IH Hnd).
Qed.

Lemma uninstall_links_exact p links (σ : fs) :
  NoDup (Path.join p <$> links) ->
  exists σ',
    uninstall_links p links [] σ
    = (Ok (List.filter (fun l => Fs.is_symlink σ (Path.join p l)) links), σ') /\
    forall q,
      σ' !! q = if Fs.is_symlink σ q && bool_decide (q ∈ Path.join p <$> links)
                then None else σ !! q.
Proof.
  intros Hnd.
  pose proof (uninstall_links_filter p links Hnd [] σ) as Hres.
  destruct (uninstall_links_spec p links [] σ)
    as (extra & σ' & Hrun & Hgone & Hframe & _).
  exists σ'. rewrite Hrun in Hres |- *. simpl in Hres. split.
  - by injection Hres as ->.
  - intros q. destruct (Hframe q) as [Hq|(Hq & Hs & l & Hl & ->)].
    + destruct (Fs.is_symlink σ q) eqn:Hs; [|done]. simpl.
      case_bool_decide as Hin; [|done].
      apply list_elem_of_fmap in Hin as (l & -> & Hl).
      specialize (Hgone l Hl). unfold Fs.is_symlink in Hgone, Hs.
      rewrite Hq in Hgone. congruence.
    + rewrite Hs, bool_decide_eq_true_2; [done|].
      apply list_elem_of_fmap. by exists l.
Qed.

End UninstallExact.

(** X2: [uninstall_from_game] returns exactly the listed names that were
    symbolic links in the directory, in the order of the list, and the
    file system it leaves is the one it found without exactly those
    entries. *)
Theorem uninstall_from_game_exact p (σ : fs) :
  exists σ',
    uninstall_from_game p σ
    = (Ok (List.filter (fun l => Fs.is_symlink σ (Path.join p l)) RESHADE_LINKS), σ') /\
    forall q,
      σ' !! q = if Fs.is_symlink σ q && bool_decide (q ∈ Path.join p <$> RESHADE_LINKS)
                then None else σ !! q.
Proof. apply uninstall_links_exact, join_listed_NoDup. Qed.

(** ** Link manager, without backup *)

Section LinkExact.
Context (E : os_env).

(** An entry that is no link exists for [os.stat]; without an entry
    there is nothing to find. *)
Lemma exists_cases (σ : fs) p :
  Fs.is_symlink σ p = false ->
  Fs.exists_ σ p = bool_decide (is_Some (σ !! p)).
Proof.
  unfold Fs.is_symlink, Fs.exists_, Fs.stat. simpl.
  destruct (σ !! p) as [[]|] eqn:Hp; intros H; done.
Qed.

(** Without backup the whole of [safe_symlink] is: refuse a directory,
    else drop what is at the target and create the link there. *)
Lemma safe_symlink_no_backup_eq source target (σ : fs) :
  safe_symlink E source target false σ
  = match σ !! target with
    | Some Dir => (Raise IsADirectoryError, σ)
    | _ => Fs.symlink_to target (resolve E (delete target σ) source)
             (delete target σ)
    end.
Proof.
  unfold safe_symlink. rewrite bind_gets.
  destruct (Fs.is_symlink σ target) eqn:Hl.
  - apply is_symlink_true in Hl as [t Ht]. rewrite Ht.
    assert (Fs.unlink target σ = (Ok tt, delete target σ)) as Hun.
    { unfold Fs.unlink. by rewrite Ht. }
    by rewrite (bind_Ok _ _ _ _ _ Hun), bind_gets.
  - rewrite bind_assoc, bind_gets. rewrite (exists_cases _ _ Hl).
    unfold Fs.is_symlink in Hl.
    destruct (σ !! target) as [[c| |t]|] eqn:Ht; try done.
    + rewrite bool_decide_eq_true_2 by (by eexists). simpl.
      assert (Fs.unlink target σ = (Ok tt, delete target σ)) as Hun.
      { unfold Fs.unlink. by rewrite Ht. }
      by rewrite (bind_Ok _ _ _ _ _ Hun), bind_gets.
    + rewrite bool_decide_eq_true_2 by (by eexists). simpl.
      assert (Fs.unlink target σ = (Raise IsADirectoryError, σ)) as Hun.
      { unfold Fs.unlink. by rewrite Ht. }
      by rewrite (bind_Raise _ _ _ _ _ Hun).
    + rewrite bool_decide_eq_false_2 by (by intros [? ?]). simpl.
      rewrite bind_ret, bind_gets. by rewrite delete_id.
Qed.

End LinkExact.

(** X3: when [safe_symlink] without backup returns, it has replaced
    exactly the entry at the target by a link to the resolved source:
    the file system is the old one with that single entry rewritten. *)
Theorem safe_symlink_no_backup_result E source target (σ σ' : fs) :
  safe_symlink E source target false σ = (Ok tt, σ') ->
  σ' = <[ target := Symlink (resolve E (delete target σ) source) ]> σ.
Proof.
  rewrite safe_symlink_no_backup_eq. intros H.
  assert (Fs.symlink_to target (resolve E (delete target σ) source) (delete target σ)
          = (Ok tt, σ')) as Hs.
  { destruct (σ !! target) as [[]|]; done. }
  apply symlink_to_inv in Hs as [(_ & _ & ->)|[[e [=]] _]].
  apply insert_delete_eq.
Qed.

Lemma safe_symlink_no_backup_result_witness :
  (safe_symlink Sample.env "/m/ReShade_shaders" "/g/ReShade_shaders" false
     Sample.fs_ready).2
  = <[ "/g/ReShade_shaders" := Symlink "/m/ReShade_shaders" ]> Sample.fs_ready.
Proof.
  apply (safe_symlink_no_backup_result Sample.env "/m/ReShade_shaders"
           "/g/ReShade_shaders" Sample.fs_ready).
  vm_compute. reflexivity.
Defined.

(** X4: without backup, [safe_symlink] never removes a directory: on a
    target that is a real directory it raises [IsADirectoryError] and the
    file system is exactly what it was. *)
Theorem safe_symlink_refuses_directory E source target (σ : fs) :
  σ !! target = Some Dir ->
  safe_symlink E source target false σ = (Raise IsADirectoryError, σ).
Proof. intros H. by rewrite safe_symlink_no_backup_eq, H. Qed.

Lemma safe_symlink_refuses_directory_witness :
  safe_symlink Sample.env "/m/ReShade_shaders" "/g" false Sample.fs_ready
  = (Raise IsADirectoryError, Sample.fs_ready).
Proof.
  apply (safe_symlink_refuses_directory Sample.env "/m/ReShade_shaders" "/g"
           Sample.fs_ready).
  vm_compute. reflexivity.
Defined.

(** X5: the backup flag matters only for a target that exists and is no
    link.  A target that is a link (dangling or not) is replaced in
    place and an absent one is created, with no backup copy made, so
    that with and without the flag the outcome is the same. *)
Theorem safe_symlink_backup_irrelevant E source target (σ : fs) :
  Fs.is_symlink σ target = true \/ Fs.exists_ σ target = false ->
  safe_symlink E source target true σ = safe_symlink E source target false σ.
Proof.
  intros H. unfold safe_symlink. rewrite !bind_gets.
  destruct (Fs.is_symlink σ target); [done|].
  destruct H as [H|H]; [done|].
  rewrite !bind_assoc, !bind_gets. by rewrite H.
Qed.

Lemma safe_symlink_backup_irrelevant_witness :
  safe_symlink Sample.env "/m/ReShade_shaders" "/g/ReShade_shaders" true
    Sample.fs_ready
  = safe_symlink Sample.env "/m/ReShade_shaders" "/g/ReShade_shaders" false
      Sample.fs_ready.
Proof.
  apply (safe_symlink_backup_irrelevant Sample.env).
  right. vm_compute. reflexivity.
Defined.

(** ** The store, further *)

Section StoreMore.
Context (E : os_env).

Lemma get_read_only p : read_only (GamesConfigManager.get E p).
Proof.
  intros st. unfold GamesConfigManager.get, GamesConfigManager._game_key.
  rewrite !bind_gets. unfold bind, lift_res.
  destruct (py_in _ _) as [[|]|e]; simpl; try done.
  unfold try_except_KeyError_TypeError, bind, lift_res.
  destruct (subscript _ _) as [v|[]]; simpl; try done.
  destruct (GameInfo.from_dict v) as [g|[]]; reflexivity.
Qed.

(** [get] on a cache that is a dictionary. *)
Lemma get_dict_eq p st m :
  _cache st = JObj m ->
  GamesConfigManager.get E p st
  = (match m !! resolve E (fs_of st) p with
     | Some v =>
         match GameInfo.from_dict v with
         | Ok g => Ok (Some g)
         | Raise KeyError | Raise TypeError => Ok None
         | Raise e => Raise e
         end
     | None => Ok None
     end, st).
Proof.
  intros Hc. destruct (m !! resolve E (fs_of st) p) as [v|] eqn:Hk.
  - by apply (get_dict E p st m v).
  - unfold GamesConfigManager.get, GamesConfigManager._game_key.
    rewrite !bind_gets. rewrite Hc. unfold bind. simpl. by rewrite Hk.
Qed.

Lemma remove_fs p st : fs_of (GamesConfigManager.remove E p st).2 = fs_of st.
Proof.
  destruct (_cache st) as [| | | | | |m] eqn:Hc.
  7:{ rewrite (remove_dict E p st m Hc). simpl. by destruct (m !! _). }
  all: unfold GamesConfigManager.remove, GamesConfigManager._game_key;
    rewrite !bind_gets; rewrite Hc; unfold bind, lift_res; simpl; try done.
  - destruct (is_substring _ _); simpl; [|done].
    unfold GamesConfigManager.delitem, gets, bind. by rewrite Hc.
  - destruct (existsb _ _); simpl; [|done].
    unfold GamesConfigManager.delitem, gets, bind. by rewrite Hc.
Qed.

Lemma save_in_sync g st : in_sync st -> in_sync (GamesConfigManager.save E g st).2.
Proof.
  intros H. destruct (GamesConfigManager.save E g st) as [r st'] eqn:Hs.
  apply save_inv in Hs as [(m & _ & _ & ->)|[_ ->]]; done.
Qed.

Lemma remove_in_sync p st : in_sync st -> in_sync (GamesConfigManager.remove E p st).2.
Proof.
  intros H. destruct (_cache st) as [| | | | | |m] eqn:Hc.
  7:{ rewrite (remove_dict E p st m Hc). simpl. by destruct (m !! _). }
  all: unfold GamesConfigManager.remove, GamesConfigManager._game_key;
    rewrite !bind_gets; rewrite Hc; unfold bind, lift_res; simpl; try done.
  - destruct (is_substring _ _); simpl; [|done].
    unfold GamesConfigManager.delitem, gets, bind. by rewrite Hc.
  - destruct (existsb _ _); simpl; [|done].
    unfold GamesConfigManager.delitem, gets, bind. by rewrite Hc.
Qed.

Lemma same_store_in_sync a b : same_store a b -> in_sync a -> in_sync b.
Proof. intros [Hd Hc]. unfold in_sync. by rewrite Hd, Hc. Qed.

End StoreMore.

(** X6: whenever an operation on the store returns, the cache is what a
    fresh manager would load from the backing document.  A new manager
    starts that way; [get] only reads; and a [save], a [remove], an
    install or an uninstall flow that returns leaves cache and document
    in step.  Nothing is said of a run that raises. *)
Theorem store_in_sync E config st :
  in_sync st ->
  (forall p, in_sync (GamesConfigManager.get E p st).2) /\
  (forall g st', GamesConfigManager.save E g st = (Ok tt, st') -> in_sync st') /\
  (forall p st', GamesConfigManager.remove E p st = (Ok tt, st') -> in_sync st') /\
  (forall g v st', install_to_game E config g st = (Ok v, st') -> in_sync st') /\
  (forall g confirmed st',
     run_uninstall_flow E g confirmed st = (Ok tt, st') -> in_sync st') /\
  (forall σ doc, in_sync (GamesConfigManager.init σ doc)).
Proof.
  intros H. repeat split.
  - intros p. by rewrite get_read_only.
  - intros g st' Hs. change st' with (Ok tt, st').2. rewrite <- Hs.
    by apply save_in_sync.
  - intros p st' Hr. change st' with (Ok tt, st').2. rewrite <- Hr.
    by apply remove_in_sync.
  - intros g v st' Hi.
    apply install_to_game_inv in Hi as [(e & [=] & _)|(s1 & r1 & Hs & _ & Hsave & _)].
    change st' with (r1, st').2. rewrite <- Hsave. apply save_in_sync.
    by eapply same_store_in_sync.
  - intros g [|] st' Hf; [|by injection Hf as <-]. unfold run_uninstall_flow in Hf.
    apply bind_Ok_inv in Hf as (removed & st1 & Hl & Hf).
    apply lift_state_inv in Hl as [_ Hs].
    destruct removed.
    + injection Hf as <-. by eapply same_store_in_sync.
    + change st' with (Ok tt, st').2. rewrite <- Hf. apply remove_in_sync.
      by eapply same_store_in_sync.
Qed.

Lemma store_in_sync_witness :
  in_sync (install_to_game Sample.env Sample.config Sample.game Sample.state_ready).2.
Proof.
  refine (proj1 (proj2 (proj2 (proj2
    (store_in_sync Sample.env Sample.config Sample.state_ready _))))
    Sample.game "dxgi" _ _).
  - reflexivity.
  - vm_compute. reflexivity.
Defined.

Section StoreAfter.
Context (E : os_env).

Lemma get_after_remove_dict p st m :
  _cache st = JObj m ->
  GamesConfigManager.get E p (GamesConfigManager.remove E p st).2
  = (Ok None, (GamesConfigManager.remove E p st).2).
Proof.
  intros Hc. rewrite (remove_dict E p st m Hc). simpl.
  destruct (m !! resolve E (fs_of st) p) as [v|] eqn:Hk.
  - erewrite get_dict_eq; [|reflexivity]. simpl. by rewrite lookup_delete_eq.
  - rewrite (get_dict_eq E p st m Hc). by rewrite Hk.
Qed.

End StoreAfter.

(** X7: on a cache that is a dictionary, [get] straight after [remove]
    for the same path finds nothing. *)
Theorem get_after_remove E p st m :
  _cache st = JObj m ->
  GamesConfigManager.get E p (GamesConfigManager.remove E p st).2
  = (Ok None, (GamesConfigManager.remove E p st).2).
Proof. apply get_after_remove_dict. Qed.

Lemma get_after_remove_witness :
  GamesConfigManager.get Sample.env "/g"
    (GamesConfigManager.remove Sample.env "/g" Sample.state_recorded_clean).2
  = (Ok None, (GamesConfigManager.remove Sample.env "/g" Sample.state_recorded_clean).2).
Proof.
  apply (get_after_remove Sample.env "/g" Sample.state_recorded_clean
           {[ "/g" := JObj (GameInfo.to_dict Sample.game) ]}).
  reflexivity.
Defined.

(** X8: saving or removing the record of one game leaves what [get]
    returns for every path with another key as it was. *)
Theorem store_other_keys E st m q :
  _cache st = JObj m ->
  (forall g,
     resolve E (fs_of st) (GameInfo.path g) <> resolve E (fs_of st) q ->
     (GamesConfigManager.get E q (GamesConfigManager.save E g st).2).1
     = (GamesConfigManager.get E q st).1) /\
  (forall p,
     resolve E (fs_of st) p <> resolve E (fs_of st) q ->
     (GamesConfigManager.get E q (GamesConfigManager.remove E p st).2).1
     = (GamesConfigManager.get E q st).1).
Proof.
  intros Hc. rewrite (get_dict_eq E q st m Hc). split.
  - intros g Hne. destruct (GamesConfigManager.save E g st) as [r st'] eqn:Hs.
    apply save_inv in Hs as [(m' & Hc' & _ & ->)|[_ ->]].
    + erewrite get_dict_eq; [|reflexivity]. simpl.
      rewrite Hc in Hc'. injection Hc' as <-. by rewrite lookup_insert_ne.
    + simpl. by rewrite (get_dict_eq E q st m Hc).
  - intros p Hne. rewrite (remove_dict E p st m Hc). simpl.
    destruct (m !! resolve E (fs_of st) p) as [v|] eqn:Hk.
    + erewrite get_dict_eq; [|reflexivity]. simpl. by rewrite lookup_delete_ne.
    + by rewrite (get_dict_eq E q st m Hc).
Qed.

Lemma store_other_keys_witness :
  (GamesConfigManager.get Sample.env "/g"
     (GamesConfigManager.remove Sample.env "/h" Sample.state_recorded_clean).2).1
  = (GamesConfigManager.get Sample.env "/g" Sample.state_recorded_clean).1.
Proof.
  refine (proj2 (store_other_keys Sample.env Sample.state_recorded_clean
                   {[ "/g" := JObj (GameInfo.to_dict Sample.game) ]} "/g" _) "/h" _).
  - reflexivity.
  - discriminate.
Defined.

(** X9: a missing backing document, or one that does not decode, gives
    an empty store: [get] finds nothing for any path, and the next [save]
    writes a document that holds the saved record and nothing else. *)
Theorem store_starts_empty E (σ : fs) doc p g :
  doc = NoFile \/ doc = Text None ->
  let st := GamesConfigManager.init σ doc in
  let store := JObj {[ resolve E σ (GameInfo.path g) := JObj (GameInfo.to_dict g) ]} in
  GamesConfigManager.get E p st = (Ok None, st) /\
  GamesConfigManager.save E g st
  = (Ok tt, {| fs_of := σ; games_json := Text (Some store); _cache := store |}).
Proof.
  intros Hdoc st store.
  assert (_cache st = JObj ∅) as Hc by (by destruct Hdoc as [-> | ->]).
  split.
  - rewrite (get_dict_eq E p st ∅ Hc). by rewrite lookup_empty.
  - unfold GamesConfigManager.save, GamesConfigManager._game_key,
      GamesConfigManager.setitem, GamesConfigManager._save, set_cache.
    rewrite bind_gets. unfold bind at 1. rewrite bind_gets. rewrite Hc.
    simpl. unfold modify. simpl. subst store. by rewrite insert_empty.
Qed.

Lemma store_starts_empty_witness :
  GamesConfigManager.get Sample.env "/g" Sample.state_ready
  = (Ok None, Sample.state_ready).
Proof.
  refine (proj1 (store_starts_empty Sample.env Sample.fs_ready NoFile "/g"
                   Sample.game _)).
  by left.
Defined.

(** X10: a record that cannot be read back, because it is no dictionary
    or lacks its name or its path, makes [get] return nothing; it does
    not raise. *)
Theorem get_skips_malformed_record E p st m v :
  _cache st = JObj m ->
  m !! resolve E (fs_of st) p = Some v ->
  (forall r, v = JObj r -> r !! "name" = None \/ r !! "path" = None) ->
  GamesConfigManager.get E p st = (Ok None, st).
Proof.
  intros Hc Hk Hbad. rewrite (get_dict E p st m v Hc Hk).
  destruct v as [| | | | | |r]; try reflexivity.
  unfold GameInfo.from_dict, subscript.
  destruct (Hbad r eq_refl) as [Hn|Hp].
  - by rewrite Hn.
  - rewrite Hp. by destruct (r !! "name").
Qed.

Lemma get_skips_malformed_record_witness :
  let st := GamesConfigManager.init Sample.fs_ready
              (Text (Some (JObj {[ "/g" := JObj {[ "name" := JStr "Game" ]} ]}))) in
  GamesConfigManager.get Sample.env "/g" st = (Ok None, st).
Proof.
  intros st.
  apply (get_skips_malformed_record Sample.env "/g" st
           {[ "/g" := JObj {[ "name" := JStr "Game" ]} ]}
           (JObj {[ "name" := JStr "Game" ]})).
  - reflexivity.
  - reflexivity.
  - intros r [= <-]. right. reflexivity.
Defined.

(** X11: a backing document whose top level decodes to null, a boolean
    or a number is loaded as it is, and from then on [get], [save] and
    [remove] all raise [TypeError] and leave cache and document alone:
    the store does not repair itself. *)
Theorem store_scalar_document E (σ : fs) j p g :
  is_scalar j = true ->
  let st := GamesConfigManager.init σ (Text (Some j)) in
  GamesConfigManager.get E p st = (Raise TypeError, st) /\
  GamesConfigManager.save E g st = (Raise TypeError, st) /\
  GamesConfigManager.remove E p st = (Raise TypeError, st).
Proof.
  intros Hj st. destruct j; try discriminate Hj; done.
Qed.

Lemma store_scalar_document_witness :
  let st := GamesConfigManager.init Sample.fs_ready (Text (Some JNull)) in
  GamesConfigManager.save Sample.env Sample.game st = (Raise TypeError, st).
Proof.
  intros st.
  exact (proj1 (proj2 (store_scalar_document Sample.env Sample.fs_ready JNull "/g"
                         Sample.game eq_refl))).
Defined.

(** X12: only the name and the path are required of a stored record.
    With the other fields absent it is read as a 64-bit dx11 game with
    override dxgi, installed in its own directory, with no selected
    executable; fields the program does not know are ignored. *)
Theorem from_dict_defaults (m : gmap string json) nm p :
  m !! "name" = Some (JStr nm) ->
  m !! "path" = Some (JStr p) ->
  m !! "architecture" = None ->
  m !! "detected_api" = None ->
  m !! "dll_override" = None ->
  m !! "install_path" = None ->
  m !! "selected_exe" = None ->
  GameInfo.from_dict (JObj m) = Ok (GameInfo.new nm p [] 64 "dx11" "dxgi" None None).
Proof.
  intros Hn Hp Ha Hd Ho Hi Hs.
  unfold GameInfo.from_dict, GameInfo.optional_path, GameInfo.get_default, subscript.
  rewrite Hn, Hp, Ha, Hd, Ho, Hi, Hs. reflexivity.
Qed.

Lemma from_dict_defaults_witness :
  GameInfo.from_dict
    (JObj (<[ "name" := JStr "Game" ]>
           (<[ "path" := JStr "/g" ]> (<[ "comment" := JStr "x" ]> ∅))))
  = Ok (GameInfo.new "Game" "/g" [] 64 "dx11" "dxgi" None None).
Proof.
  apply from_dict_defaults; reflexivity.
Defined.

(** ** Override modules *)

Section ModuleFacts.

Lemma dll_choices_perm options cur choices :
  dll_choices options cur choices ≡ₚ choices ++ options.*1.
Proof.
  revert choices. induction options as [|[n d] rest IH]; intros choices; simpl.
  - by rewrite app_nil_r.
  - destruct (String.eqb n cur); rewrite IH.
    + simpl. apply Permutation_middle.
    + by rewrite <- app_assoc.
Qed.

Lemma dll_choices_head options cur choices :
  cur ∈ options.*1 \/ head choices = Some cur ->
  head (dll_choices options cur choices) = Some cur.
Proof.
  revert choices. induction options as [|[n d] rest IH]; intros choices H; simpl.
  - destruct H as [H|H]; [by apply elem_of_nil in H|done].
  - destruct (String.eqb_spec n cur) as [->|Hne]; apply IH.
    + by right.
    + destruct H as [H|H].
      * simpl in H. apply elem_of_cons in H as [H|H]; [congruence|by left].
      * right. by destruct choices.
Qed.

Lemma listed_modules dll :
  dll ∈ DLL_OPTIONS.*1 -> dll +:+ ".dll" ∈ RESHADE_LINKS.
Proof.
  intros H. simpl in H. unfold RESHADE_LINKS.
  repeat (apply elem_of_cons in H as [->|H];
          [by repeat first [apply list_elem_of_here|apply list_elem_of_further]|]).
  by apply elem_of_nil in H.
Qed.

Lemma classify_imports_offered imports :
  (Exe.classify_imports imports "dx11" "dxgi").2 ∈ DLL_OPTIONS.*1.
Proof.
  unfold Exe.classify_imports.
  repeat (case_match;
          [by repeat first [apply list_elem_of_here|apply list_elem_of_further]|]).
  by repeat first [apply list_elem_of_here|apply list_elem_of_further].
Qed.

End ModuleFacts.

(** X13: the override dialogue offers each of the eight modules exactly
    once, the game's current module first when it is one of them, and
    every module it offers is one whose link [uninstall_from_game]
    removes. *)
Theorem dll_choices_complete (game : GameInfo.t) :
  let choices := dll_choices DLL_OPTIONS (GameInfo.dll_override game) [] in
  choices ≡ₚ DLL_OPTIONS.*1 /\
  (GameInfo.dll_override game ∈ DLL_OPTIONS.*1 ->
   head choices = Some (GameInfo.dll_override game)) /\
  (forall dll, dll ∈ choices -> dll +:+ ".dll" ∈ RESHADE_LINKS).
Proof.
  intros choices. split; [|split].
  - apply (dll_choices_perm DLL_OPTIONS _ []).
  - intros H. apply dll_choices_head. by left.
  - intros dll H. apply listed_modules.
    by rewrite <- (dll_choices_perm DLL_OPTIONS (GameInfo.dll_override game) []).
Qed.

(** X14: classification always returns, with architecture 32 or 64 and
    an override module that the dialogue offers and whose link
    [uninstall_from_game] removes. *)
Theorem analyze_executable_module_listed f :
  exists arch api dll,
    Exe.analyze_executable f = Ok (arch, api, dll) /\
    (arch = 32%Z \/ arch = 64%Z) /\
    dll ∈ DLL_OPTIONS.*1 /\
    dll +:+ ".dll" ∈ RESHADE_LINKS.
Proof.
  destruct (Exe.pe_parse f) as [pe|e] eqn:Hpe.
  - rewrite (analyze_executable_parsed _ _ Hpe). unfold Exe.analyze_parsed.
    assert (exists api dll,
              match Exe.DIRECTORY_ENTRY_IMPORT pe with
              | Some entries =>
                  Exe.classify_imports (Exe.import_set entries) "dx11" "dxgi"
              | None => ("dx11", "dxgi")
              end = (api, dll) /\ dll ∈ DLL_OPTIONS.*1) as (api & dll & -> & Hd).
    { destruct (Exe.DIRECTORY_ENTRY_IMPORT pe) as [entries|].
      - pose proof (classify_imports_offered (Exe.import_set entries)) as H.
        destruct (Exe.classify_imports _ _ _) as [api dll]. by exists api, dll.
      - exists "dx11", "dxgi". split; [done|apply list_elem_of_here]. }
    eexists _, api, dll. split; [reflexivity|]. split.
    + destruct (_ =? _)%Z; auto.
    + split; [done|by apply listed_modules].
  - rewrite (analyze_executable_unparsed _ _ Hpe).
    assert ("dxgi" ∈ DLL_OPTIONS.*1) as Hdxgi by apply list_elem_of_here.
    assert ("d3d9" ∈ DLL_OPTIONS.*1) as Hd3d9
      by apply list_elem_of_further, list_elem_of_here.
    destruct (Exe.read_machine f) as [machine|e'].
    + destruct (machine =? 332)%Z.
      * exists 32%Z, "dx11", "d3d9". auto using listed_modules.
      * exists 64%Z, "dx11", "dxgi". auto using listed_modules.
    + exists 64%Z, "dx11", "dxgi". auto using listed_modules.
Qed.

(** ** Merge engine, further *)

Section MergeMore.
Context (E : os_env).

(** The clearing loop removes the links among the items and nothing
    else. *)
Lemma clear_loop_exact items : forall σ : fs,
  exists σ',
    for_each items (fun item =>
      is_l <- gets (fun σ => Fs.is_symlink σ item) ;;
      if is_l then Fs.unlink item else ret tt) σ = (Ok tt, σ') /\
    forall k, σ' !! k = if Fs.is_symlink σ k && bool_decide (k ∈ items)
                        then None else σ !! k.
Proof.
  induction items as [|x items IH]; intros σ.
  - exists σ. split; [done|]. intros k.
    rewrite bool_decide_eq_false_2 by apply not_elem_of_nil.
    by rewrite andb_false_r.
  - rewrite for_each_cons. rewrite bind_assoc, bind_gets.
    destruct (Fs.is_symlink σ x) eqn:Hx.
    + assert (Fs.unlink x σ = (Ok tt, delete x σ)) as Hun.
      { apply is_symlink_true in Hx as [t Ht]. unfold Fs.unlink. by rewrite Ht. }
      rewrite (bind_Ok _ _ _ _ _ Hun).
      destruct (IH (delete x σ)) as (σ' & Hrun & Hspec).
      exists σ'. split; [exact Hrun|]. intros k. rewrite Hspec.
      destruct (decide (k = x)) as [->|Hne].
      * rewrite is_symlink_delete, Hx, lookup_delete_eq. simpl.
        by rewrite bool_decide_eq_true_2 by left.
      * rewrite is_symlink_delete_ne, lookup_delete_ne by done.
        destruct (Fs.is_symlink σ k); [|done]. simpl.
        rewrite (bool_decide_ext (k ∈ items) (k ∈ x :: items)); [done|].
        split; [apply list_elem_of_further|].
        intros [Hk|Hk]%elem_of_cons; [by subst|done].
    + rewrite bind_ret.
      destruct (IH σ) as (σ' & Hrun & Hspec).
      exists σ'. split; [exact Hrun|]. intros k. rewrite Hspec.
      destruct (decide (k = x)) as [->|Hne].
      * by rewrite Hx.
      * destruct (Fs.is_symlink σ k); [|done]. simpl.
        rewrite (bool_decide_ext (k ∈ items) (k ∈ x :: items)); [done|].
        split; [apply list_elem_of_further|].
        intros [Hk|Hk]%elem_of_cons; [by subst|done].
Qed.

(** Whatever comes of it, [clear_links] leaves alone what is not a link
    and what does not come up in the scan of the directory. *)
Lemma clear_links_inv d (σ : fs) r σ' :
  clear_links E d σ = (r, σ') ->
  forall k,
    σ' !! k = σ !! k \/
    (σ' !! k = None /\ Fs.is_symlink σ k = true /\
     k ∈ scan_order E (filter (fun k => Path.is_child d k) (Fs.paths σ))).
Proof.
  unfold clear_links. rewrite bind_gets. intros H k.
  destruct (Fs.exists_ σ d); [|injection H as _ <-; by left].
  apply bind_inv in H as [(e & H & _)|(items & σ1 & H1 & H)].
  - pose proof (iterdir_read_only E d σ) as Hro. rewrite H in Hro.
    simpl in Hro. subst. by left.
  - pose proof (iterdir_read_only E d σ) as Hro. rewrite H1 in Hro.
    simpl in Hro. subst σ1. apply iterdir_Ok in H1. subst items.
    destruct (clear_loop_exact
                (scan_order E (filter (fun k => Path.is_child d k) (Fs.paths σ))) σ)
      as (σ'' & Hrun & Hspec).
    rewrite Hrun in H. injection H as _ <-. rewrite Hspec.
    destruct (Fs.is_symlink σ k) eqn:Hs; [|by left]. simpl.
    case_bool_decide; [by right|by left].
Qed.

(** With the directory in place and a scan that loses nothing, it
    removes exactly the links among the directory's entries. *)
Lemma clear_links_exact d (σ : fs) :
  (forall l, scan_order E l ≡ₚ l) ->
  σ !! d = Some Dir ->
  exists σ',
    clear_links E d σ = (Ok tt, σ') /\
    forall k, σ' !! k = if Fs.is_symlink σ k && Path.is_child d k
                        then None else σ !! k.
Proof.
  intros Hperm Hd. unfold clear_links. rewrite bind_gets.
  rewrite (exists_regular σ d Dir Hd) by (simpl; tauto).
  assert (Fs.iterdir E d σ
          = (Ok (scan_order E (filter (fun k => Path.is_child d k) (Fs.paths σ))), σ))
    as Hit.
  { unfold Fs.iterdir, Fs.is_dir. rewrite (stat_regular σ d Dir Hd); [done|].
    simpl. tauto. }
  rewrite (bind_Ok _ _ _ _ _ Hit).
  destruct (clear_loop_exact
              (scan_order E (filter (fun k => Path.is_child d k) (Fs.paths σ))) σ)
    as (σ' & Hrun & Hspec).
  exists σ'. split; [exact Hrun|]. intros k. rewrite Hspec.
  destruct (Fs.is_symlink σ k) eqn:Hs; [|done]. simpl.
  destruct (Path.is_child d k) eqn:Hc.
  - rewrite bool_decide_eq_true_2; [done|]. rewrite Hperm.
    apply list_elem_of_filter. split; [by rewrite Hc|].
    apply paths_elem. apply is_symlink_true in Hs as [t Ht]. by eexists.
  - rewrite bool_decide_eq_false_2; [done|]. rewrite Hperm.
    intros [Hk _]%list_elem_of_filter. by rewrite Hc in Hk.
Qed.

(** The run of [merge_shaders], taken apart. *)
Lemma merge_shaders_inv c (σ : fs) r σ' :
  merge_shaders E c σ = (r, σ') ->
  let ms := Path.join (merged_path c) "Shaders" in
  let mt := Path.join (merged_path c) "Textures" in
  (exists e σ1 r1,
     clear_links E ms σ = (r1, σ1) /\
     (match r1 with
      | Ok _ => clear_links E mt σ1 = (Raise e, σ')
      | Raise e1 => e1 = e /\ σ' = σ1
      end) /\ r = Raise e) \/
  (exists σ1 σ2,
     clear_links E ms σ = (Ok tt, σ1) /\
     clear_links E mt σ1 = (Ok tt, σ2) /\
     σ' = mfs (merge_body E c ms mt {| seen_files := ∅; mfs := σ2 |}).2 /\
     r = match (merge_body E c ms mt {| seen_files := ∅; mfs := σ2 |}).1 with
         | Ok _ => Ok (size (seen_files
                      (merge_body E c ms mt {| seen_files := ∅; mfs := σ2 |}).2))
         | Raise e => Raise e
         end).
Proof.
  intros H ms mt. unfold merge_shaders in H. fold ms mt in H.
  apply bind_inv in H as [(e & H & ->)|([] & σ2 & Hc & H)].
  - left. rewrite for_each_cons in H.
    apply bind_inv in H as [(e' & H & Heq)|([] & σ1 & H1 & H)].
    + exists e, σ', (Raise e'). split; [done|]. split; [|done].
      split; [congruence|done].
    + exists e, σ1, (Ok tt). split; [done|]. split; [|done].
      rewrite for_each_cons in H.
      apply bind_inv in H as [(e' & H & Heq)|([] & σ3 & _ & H)]; [|done].
      congruence.
  - right. rewrite for_each_cons in Hc.
    apply bind_Ok_inv in Hc as ([] & σ1 & H1 & Hc).
    rewrite for_each_cons in Hc.
    apply bind_Ok_inv in Hc as ([] & σ3 & H2 & Hc). injection Hc as <-.
    exists σ1, σ3. split; [done|]. split; [done|].
    destruct (merge_body E c ms mt {| seen_files := ∅; mfs := σ3 |}) as [[[]|e] st];
      by injection H as <- <-.
Qed.

(** Entries that come up in the scan of a directory are its children. *)
Lemma scanned_child d (σ : fs) x :
  (forall l y, y ∈ scan_order E l -> y ∈ l) ->
  x ∈ scan_order E (filter (fun k => Path.is_child d k) (Fs.paths σ)) ->
  Path.is_child d x = true.
Proof.
  intros Hsub Hx. apply Hsub in Hx.
  apply list_elem_of_filter in Hx as [Hx _]. by apply Is_true_true in Hx.
Qed.

Lemma links_added_refl ms mt (σ : fs) : links_added ms mt σ σ.
Proof. intros k. by left. Qed.

Lemma links_added_trans ms mt (a b c : fs) :
  links_added ms mt a b -> links_added ms mt b c -> links_added ms mt a c.
Proof.
  intros Hab Hbc k. destruct (Hab k) as [Hk|(Hn & Hs & Hc)].
  - destruct (Hbc k) as [Hk'|(Hn' & Hs' & Hc')].
    + left. congruence.
    + right. split; [congruence|done].
  - destruct (Hbc k) as [Hk'|(Hn' & Hs' & Hc')].
    + right. split; [done|]. split; [|done].
      unfold Fs.is_symlink in *. by rewrite Hk'.
    + unfold Fs.is_symlink in Hs. by rewrite Hn' in Hs.
Qed.

(** What a merge run adds are links in the two destinations. *)
Lemma merge_body_links_added c ms mt st :
  (forall l y, y ∈ scan_order E l -> y ∈ l) ->
  links_added ms mt (mfs st) (mfs (merge_body E c ms mt st).2).
Proof.
  intros Hsub.
  apply (merge_body_follows E ms mt (fun s => Path.name s <> "")
           (fun a _ z => links_added ms mt (mfs a) (mfs z))).
  - intros s. apply links_added_refl.
  - done.
  - intros s s1 s2 b. apply links_added_trans.
  - intros d σ x Hx. apply scanned_child in Hx; [|done].
    by apply is_child_inv in Hx as [Hx _].
  - intros s d Hs Hd st0. destruct (link_file E s d st0) as [r st'] eqn:H. simpl.
    pose proof (is_child_join d _ Hs (name_component s)) as Hchild.
    apply link_file_inv in H
      as [(_ & _ & ->)
         |(_ & _ & [(_ & _ & Hfs)|(_ & [(_ & Hnone & Hfs)|(_ & Hfs)])])];
      rewrite ?Hfs; try apply links_added_refl.
    intros k. destruct (decide (k = Path.join d (Path.name s))) as [->|Hne].
    + right. split; [done|]. split; [apply is_symlink_insert|].
      destruct Hd as [->| ->]; auto.
    + left. by rewrite lookup_insert_ne.
Qed.

End MergeMore.

(** X15: [merge_shaders] never changes or removes an entry that is not
    a symbolic link, wherever it is and whether the run returns or
    raises: regular files and directories, those in the merged
    directories included, are as they were. *)
Theorem merge_shaders_keeps_files E c (σ : fs) r σ' k nd :
  merge_shaders E c σ = (r, σ') ->
  σ !! k = Some nd ->
  ~ is_link nd ->
  σ' !! k = Some nd.
Proof.
  intros H Hk Hnd.
  assert (forall d (a b : fs) r0,
            clear_links E d a = (r0, b) -> a !! k = Some nd -> b !! k = Some nd)
    as Hclear.
  { intros d a b r0 Hc Ha. destruct (clear_links_inv E d a r0 b Hc k) as [->|(_ & Hs & _)].
    - done.
    - unfold Fs.is_symlink in Hs. rewrite Ha in Hs. by destruct nd. }
  apply merge_shaders_inv in H
    as [(e & σ1 & r1 & H1 & H2 & _)|(σ1 & σ2 & H1 & H2 & -> & _)].
  - destruct r1 as [[]|e1].
    + eapply Hclear; [exact H2|]. by eapply Hclear.
    + destruct H2 as [_ ->]. by eapply Hclear.
  - apply merge_body_grows. simpl. eapply Hclear; [exact H2|]. by eapply Hclear.
Qed.

Lemma merge_shaders_keeps_files_witness :
  (merge_shaders Sample.env Sample.config Sample.fs_merge_occupied).2
    !! "/m/ReShade_shaders/Merged/Shaders/Y.fx" = Some (File "").
Proof.
  eapply (merge_shaders_keeps_files Sample.env Sample.config Sample.fs_merge_occupied).
  - apply surjective_pairing.
  - reflexivity.
  - simpl. tauto.
Defined.

(** X16: [merge_shaders] touches nothing outside the two merged
    directories: every entry that is no direct child of
    [Merged/Shaders] or [Merged/Textures] is, after the run, what it was
    before, whether the run returns or raises.  The scan is only taken
    to yield entries that are there. *)
Theorem merge_shaders_only_merged E c (σ : fs) r σ' k :
  (forall l y, y ∈ scan_order E l -> y ∈ l) ->
  merge_shaders E c σ = (r, σ') ->
  Path.is_child (Path.join (merged_path c) "Shaders") k = false ->
  Path.is_child (Path.join (merged_path c) "Textures") k = false ->
  σ' !! k = σ !! k.
Proof.
  intros Hsub H Hs Ht.
  assert (forall d (a b : fs) r0,
            d = Path.join (merged_path c) "Shaders" \/
            d = Path.join (merged_path c) "Textures" ->
            clear_links E d a = (r0, b) -> b !! k = a !! k) as Hclear.
  { intros d a b r0 Hd Hc.
    destruct (clear_links_inv E d a r0 b Hc k) as [->|(_ & _ & Hin)]; [done|].
    apply scanned_child in Hin; [|done]. destruct Hd as [-> | ->]; congruence. }
  apply merge_shaders_inv in H
    as [(e & σ1 & r1 & H1 & H2 & _)|(σ1 & σ2 & H1 & H2 & -> & _)].
  - destruct r1 as [[]|e1].
    + rewrite (Hclear _ _ _ _ (or_intror eq_refl) H2).
      apply (Hclear _ _ _ _ (or_introl eq_refl) H1).
    + destruct H2 as [_ ->]. apply (Hclear _ _ _ _ (or_introl eq_refl) H1).
  - destruct (merge_body_links_added E c
                (Path.join (merged_path c) "Shaders")
                (Path.join (merged_path c) "Textures")
                {| seen_files := ∅; mfs := σ2 |} Hsub k) as [Hk|(_ & _ & [Hc|Hc])];
      [|congruence|congruence].
    rewrite Hk. simpl.
    rewrite (Hclear _ _ _ _ (or_intror eq_refl) H2).
    apply (Hclear _ _ _ _ (or_introl eq_refl) H1).
Qed.

Lemma merge_shaders_only_merged_witness :
  (merge_shaders Sample.env Sample.config Sample.fs_merge_two_repos).2
    !! "/m/ReShade_shaders/r1/Shaders/X.fx"
  = Sample.fs_merge_two_repos !! "/m/ReShade_shaders/r1/Shaders/X.fx".
Proof.
  eapply (merge_shaders_only_merged Sample.env Sample.config
            Sample.fs_merge_two_repos).
  - intros l y Hy. exact Hy.
  - apply surjective_pairing.
  - reflexivity.
  - reflexivity.
Defined.

(** X17: a merge that has returned can be run again without effect: with
    the two merged directories in place and a scan that loses nothing,
    the second run returns the same count and leaves the file system
    exactly as the first run left it. *)
Theorem merge_shaders_again E c (σ : fs) n σ' :
  (forall l, scan_order E l ≡ₚ l) ->
  σ !! Path.join (merged_path c) "Shaders" = Some Dir ->
  σ !! Path.join (merged_path c) "Textures" = Some Dir ->
  merge_shaders E c σ = (Ok n, σ') ->
  merge_shaders E c σ' = (Ok n, σ').
Proof.
  intros Hperm Hms Hmt H.
  assert (forall l y, y ∈ scan_order E l -> y ∈ l) as Hsub.
  { intros l y Hy. by rewrite Hperm in Hy. }
  set (ms := Path.join (merged_path c) "Shaders") in *.
  set (mt := Path.join (merged_path c) "Textures") in *.
  pose proof H as Hinv. apply merge_shaders_inv in Hinv
    as [(e & _ & _ & _ & _ & [=])|(σ1 & σ2 & H1 & H2 & Hσ' & Hn)].
  fold ms mt in H1, H2, Hσ', Hn.
  (* the first run's clearing *)
  destruct (clear_links_exact E ms σ Hperm Hms) as (σ1' & H1' & Hspec1).
  rewrite H1 in H1'. injection H1' as <-.
  assert (σ1 !! mt = Some Dir) as Hmt1.
  { rewrite Hspec1. unfold Fs.is_symlink. by rewrite Hmt. }
  destruct (clear_links_exact E mt σ1 Hperm Hmt1) as (σ2' & H2' & Hspec2).
  rewrite H2 in H2'. injection H2' as <-.
  assert (forall k, Path.is_child ms k = true \/ Path.is_child mt k = true ->
                    Fs.is_symlink σ2 k = false) as Hnolink.
  { intros k Hk. unfold Fs.is_symlink at 1. rewrite Hspec2.
    destruct (Fs.is_symlink σ1 k) eqn:Hs1; simpl.
    - destruct (Path.is_child mt k) eqn:Hct; [done|].
      destruct Hk as [Hk|Hk]; [|done].
      unfold Fs.is_symlink in Hs1. rewrite Hspec1, Hk in Hs1.
      rewrite andb_true_r in Hs1.
      destruct (Fs.is_symlink σ k) eqn:Hsk; [done|].
      unfold Fs.is_symlink in Hsk. by rewrite Hs1 in Hsk.
    - unfold Fs.is_symlink in Hs1. by destruct (σ1 !! k) as [[]|]. }
  (* what the first run added *)
  pose proof (merge_body_links_added E c ms mt {| seen_files := ∅; mfs := σ2 |} Hsub)
    as Hadd.
  rewrite <- Hσ' in Hadd. simpl in Hadd.
  assert (σ' !! ms = Some Dir) as Hms'.
  { destruct (Hadd ms) as [->|(Hnone & _)].
    - rewrite Hspec2, Hspec1. unfold Fs.is_symlink at 2. rewrite Hms. simpl.
      unfold Fs.is_symlink. rewrite Hspec1. unfold Fs.is_symlink. by rewrite Hms.
    - rewrite Hspec2, Hspec1 in Hnone. unfold Fs.is_symlink at 2 in Hnone.
      rewrite Hms in Hnone. simpl in Hnone.
      unfold Fs.is_symlink in Hnone. rewrite Hspec1 in Hnone.
      unfold Fs.is_symlink in Hnone. by rewrite Hms in Hnone. }
  assert (σ2 !! mt = Some Dir) as Hmt2.
  { rewrite Hspec2. unfold Fs.is_symlink. by rewrite Hmt1. }
  (* the second run's clearing undoes it *)
  destruct (clear_links_exact E ms σ' Hperm Hms') as (τ1 & Hτ1 & Hspecτ1).
  assert (τ1 !! mt = Some Dir) as Hmtτ.
  { rewrite Hspecτ1. destruct (Hadd mt) as [Hk|(Hnone & _)]; [|congruence].
    unfold Fs.is_symlink. by rewrite Hk, Hmt2. }
  destruct (clear_links_exact E mt τ1 Hperm Hmtτ) as (τ2 & Hτ2 & Hspecτ2).
  assert (τ2 = σ2) as ->.
  { apply map_eq. intros k. rewrite Hspecτ2.
    unfold Fs.is_symlink at 1. rewrite !Hspecτ1.
    destruct (Hadd k) as [Hk|(Hnone & Hs & Hc)].
    - assert (Fs.is_symlink σ' k = Fs.is_symlink σ2 k) as Hsame.
      { unfold Fs.is_symlink. by rewrite Hk. }
      rewrite Hsame, Hk.
      destruct (Fs.is_symlink σ2 k) eqn:Hs2.
      + assert (Path.is_child ms k = false) as ->.
        { destruct (Path.is_child ms k) eqn:Hcs; [|done].
          rewrite Hnolink in Hs2; [done|by left]. }
        assert (Path.is_child mt k = false) as ->.
        { destruct (Path.is_child mt k) eqn:Hct; [|done].
          rewrite Hnolink in Hs2; [done|by right]. }
        cbn [andb]. by rewrite andb_false_r.
      + cbn [andb]. fold (Fs.is_symlink σ2 k). by rewrite Hs2.
    - rewrite Hs, Hnone. destruct (Path.is_child ms k) eqn:Hcs; simpl; [done|].
      destruct Hc as [Hc|Hc]; [done|]. rewrite Hc.
      unfold Fs.is_symlink in Hs. by destruct (σ' !! k) as [[]|]. }
  unfold merge_shaders. fold ms mt.
  assert (for_each [ms; mt] (clear_links E) σ' = (Ok tt, σ2)) as Hclear.
  { simpl. rewrite (bind_Ok _ _ _ _ _ Hτ1). by rewrite (bind_Ok _ _ _ _ _ Hτ2). }
  rewrite (bind_Ok _ _ _ _ _ Hclear).
  destruct (merge_body E c ms mt {| seen_files := ∅; mfs := σ2 |}) as [[[]|e] st];
    simpl in *; [|done].
  by injection Hn as ->; subst.
Qed.

Lemma merge_shaders_again_witness :
  let σ' := (merge_shaders Sample.env Sample.config Sample.fs_merge_two_repos).2 in
  merge_shaders Sample.env Sample.config σ' = (Ok 2, σ').
Proof.
  intros σ'.
  apply (merge_shaders_again Sample.env Sample.config Sample.fs_merge_two_repos).
  - intros l. reflexivity.
  - vm_compute. reflexivity.
  - vm_compute. reflexivity.
  - vm_compute. reflexivity.
Defined.

(** ** Install, further *)

Section InstallMore.
Context (E : os_env) (config : Config).

(** The steps of a run of [install_to_game] that returns, from the
    second link on. *)
Lemma install_to_game_steps game st v st' :
  install_to_game E config game st = (Ok v, st') ->
  let install_dir := GameInfo.install_path game in
  let d3d_src := Path.join (main_path config)
                   ("d3dcompiler_47.dll." +:+ pretty (GameInfo.architecture game)) in
  exists (σ2 σ3 σ4 : fs) m,
    safe_symlink E d3d_src (Path.join install_dir "d3dcompiler_47.dll") false σ2
    = (Ok tt, σ3) /\
    safe_symlink E (shaders_path config) (Path.join install_dir "ReShade_shaders")
      false σ3 = (Ok tt, σ4) /\
    (fs_of st' = σ4 \/
     safe_symlink E (Path.join (main_path config) (global_ini config))
       (Path.join install_dir (global_ini config)) false σ4 = (Ok tt, fs_of st')) /\
    v = GameInfo.dll_override game /\
    _cache st = JObj m /\
    let store := JObj (<[ resolve E (fs_of st') (GameInfo.path game)
                          := JObj (GameInfo.to_dict game) ]> m) in
    _cache st' = store /\ games_json st' = Text (Some store).
Proof.
  intros H install_dir d3d_src. unfold install_to_game in H.
  apply bind_Ok_inv in H as (version & s1 & H1 & H).
  apply lift_state_inv in H1 as [_ Hs1].
  rewrite bind_gets in H. destruct (negb _); [done|].
  apply bind_Ok_inv in H as ([] & s2 & H2 & H).
  apply lift_state_inv in H2 as [_ Hs2].
  apply bind_Ok_inv in H as ([] & s3 & H3 & H).
  apply lift_state_inv in H3 as [_ Hs3].
  apply bind_Ok_inv in H as ([] & s4 & H4 & H).
  apply lift_state_inv in H4 as [Hl4 Hs4].
  apply bind_Ok_inv in H as ([] & s5 & H5 & H).
  apply lift_state_inv in H5 as [Hl5 Hs5].
  apply bind_Ok_inv in H as ([] & s6 & H6 & H).
  apply bind_Ok_inv in H as ([] & s7 & H7 & H).
  injection H as <- <-.
  assert (same_store st s5) as Hs by eauto 10 using same_store_trans.
  assert (same_store s5 s6 /\
          (fs_of s6 = fs_of s5 \/
           safe_symlink E (Path.join (main_path config) (global_ini config))
             (Path.join install_dir (global_ini config)) false (fs_of s5)
           = (Ok tt, fs_of s6))) as [Hs6 Hini].
  { destruct (negb _).
    - rewrite bind_gets in H6. destruct (Fs.exists_ _ _).
      + apply lift_state_inv in H6 as [H6 Hs']. split; [done|by right].
      + injection H6 as <-. split; [apply same_store_refl|by left].
    - injection H6 as <-. split; [apply same_store_refl|by left]. }
  assert (_cache s6 = _cache st) as Hc6.
  { destruct Hs as [_ Hc], Hs6 as [_ Hc']. congruence. }
  apply save_inv in H7 as [(m & Hc & _ & ->)|[[=] _]]. simpl.
  exists (fs_of s3), (fs_of s4), (fs_of s5), m.
  split; [exact Hl4|]. split; [exact Hl5|]. split; [exact Hini|].
  split; [done|]. split; [congruence|]. done.
Qed.

(** After an install that has returned, the manager gives the record
    back as it is persisted. *)
Lemma install_to_game_get game st v st' :
  GameInfo.install_path game <> "" ->
  GameInfo.selected_exe game <> Some "" ->
  install_to_game E config game st = (Ok v, st') ->
  GamesConfigManager.get E (GameInfo.path game) st' = (Ok (Some (persisted game)), st').
Proof.
  intros Hi Hse H.
  apply install_to_game_steps in H
    as (σ2 & σ3 & σ4 & m & _ & _ & _ & _ & _ & Hc & _).
  erewrite get_dict; [|exact Hc|apply lookup_insert_eq].
  by rewrite from_dict_to_dict.
Qed.

End InstallMore.

(** X18: an install that returns gives back the game's override module
    and leaves [d3dcompiler_47.dll] and [ReShade_shaders] in the install
    directory as symbolic links; the manager then holds the game's
    record, so that [get] for the game's path returns it (without the
    candidate executables, which are not stored). *)
Theorem install_to_game_result E config game st v st' :
  GameInfo.install_path game <> "" ->
  GameInfo.selected_exe game <> Some "" ->
  install_to_game E config game st = (Ok v, st') ->
  v = GameInfo.dll_override game /\
  Fs.is_symlink (fs_of st')
    (Path.join (GameInfo.install_path game) "d3dcompiler_47.dll") = true /\
  Fs.is_symlink (fs_of st')
    (Path.join (GameInfo.install_path game) "ReShade_shaders") = true /\
  GamesConfigManager.get E (GameInfo.path game) st' = (Ok (Some (persisted game)), st').
Proof.
  intros Hi Hse H. pose proof (install_to_game_get E config _ _ _ _ Hi Hse H) as Hget.
  apply install_to_game_steps in H
    as (σ2 & σ3 & σ4 & m & H3 & H4 & Hini & -> & _).
  split; [done|].
  assert (Fs.is_symlink σ4 (Path.join (GameInfo.install_path game) "d3dcompiler_47.dll")
          = true /\
          Fs.is_symlink σ4 (Path.join (GameInfo.install_path game) "ReShade_shaders")
          = true) as [Hd Hsh].
  { split.
    - apply (safe_symlink_keeps_link E _ _ _ _ _ _ H4).
      by apply (safe_symlink_Ok E _ _ _ _ _ H3).
    - by apply (safe_symlink_Ok E _ _ _ _ _ H4). }
  destruct Hini as [->|Hini]; [done|].
  split; [|split; [|done]].
  - by apply (safe_symlink_keeps_link E _ _ _ _ _ _ Hini).
  - by apply (safe_symlink_keeps_link E _ _ _ _ _ _ Hini).
Qed.

Lemma install_to_game_result_witness :
  let st' := (install_to_game Sample.env Sample.config Sample.game
                Sample.state_ready).2 in
  Fs.is_symlink (fs_of st') "/g/d3dcompiler_47.dll" = true /\
  GamesConfigManager.get Sample.env "/g" st' = (Ok (Some (persisted Sample.game)), st').
Proof.
  intros st'.
  destruct (install_to_game_result Sample.env Sample.config Sample.game
              Sample.state_ready "dxgi" st') as (_ & Hd & _ & Hget).
  - discriminate.
  - discriminate.
  - vm_compute. reflexivity.
  - split; [exact Hd|exact Hget].
Defined.

(** X19: the confirmed uninstall flow run on the state an install has
    returned in undoes it: the flow returns, none of the listed names is
    a link in the install directory any more, and [get] for the game's
    path finds no record. *)
Theorem install_then_uninstall E config game st v st1 :
  install_to_game E config game st = (Ok v, st1) ->
  exists st2,
    run_uninstall_flow E game true st1 = (Ok tt, st2) /\
    (forall l, l ∈ RESHADE_LINKS ->
       Fs.is_symlink (fs_of st2) (Path.join (GameInfo.install_path game) l) = false) /\
    GamesConfigManager.get E (GameInfo.path game) st2 = (Ok None, st2).
Proof.
  intros H.
  apply install_to_game_steps in H
    as (σ2 & σ3 & σ4 & m & _ & H4 & Hini & _ & _ & Hc & _).
  assert (Fs.is_symlink (fs_of st1)
            (Path.join (GameInfo.install_path game) "ReShade_shaders") = true) as Hl.
  { apply (safe_symlink_Ok E) in H4. destruct Hini as [->|Hini]; [done|].
    by apply (safe_symlink_keeps_link E _ _ _ _ _ _ Hini). }
  destruct (uninstall_links_spec (GameInfo.install_path game) RESHADE_LINKS []
              (fs_of st1)) as (removed & σu & Hrun & Hgone & _ & Hnil).
  change ([] ++ removed) with removed in Hrun.
  assert (removed <> []) as Hne.
  { intros Hext. rewrite (proj1 Hnil Hext "ReShade_shaders") in Hl; [done|].
    unfold RESHADE_LINKS. do 10 apply list_elem_of_further. apply list_elem_of_here. }
  set (su := {| fs_of := σu; games_json := games_json st1; _cache := _cache st1 |}).
  assert (lift_state (uninstall_from_game (GameInfo.install_path game)) st1
          = (Ok removed, su)) as Hlift.
  { unfold lift_state, uninstall_from_game. by rewrite Hrun. }
  exists (GamesConfigManager.remove E (GameInfo.path game) su).2.
  assert (exists m1, _cache su = JObj m1) as [m1 Hc1] by (by eexists).
  split; [|split].
  - unfold run_uninstall_flow. rewrite (bind_Ok _ _ _ _ _ Hlift).
    destruct removed as [|r0 rest]; [done|].
    rewrite (remove_dict E _ _ m1 Hc1). reflexivity.
  - intros l Hin. rewrite remove_fs. by apply Hgone.
  - by apply (get_after_remove_dict E _ su m1).
Qed.

Lemma install_then_uninstall_witness :
  exists st2,
    run_uninstall_flow Sample.env Sample.game true
      (install_to_game Sample.env Sample.config Sample.game Sample.state_ready).2
    = (Ok tt, st2) /\
    GamesConfigManager.get Sample.env "/g" st2 = (Ok None, st2).
Proof.
  destruct (install_then_uninstall Sample.env Sample.config Sample.game
              Sample.state_ready "dxgi"
              (install_to_game Sample.env Sample.config Sample.game
                 Sample.state_ready).2) as (st2 & Hrun & _ & Hget).
  - vm_compute. reflexivity.
  - exists st2. split; [exact Hrun|exact Hget].
Defined.

(** ** Dialogues and flows *)

Section FlowFacts.
Context (E : os_env) (config : Config).
Context (exe_at : fs -> string -> Exe.exe_file).
Context (ask_select_exe ask_select_dll : list string -> option string).
Context (ask_confirm : string -> bool).

(** What an analysis writes into the record. *)
Lemma analyze_into_inv game exe st :
  exists arch api dll,
    Exe.analyze_executable (exe_at (fs_of st) exe) = Ok (arch, api, dll) /\
    analyze_into exe_at game exe st
    = (Ok {| GameInfo.name := GameInfo.name game;
             GameInfo.path := GameInfo.path game;
             GameInfo.exe_files := GameInfo.exe_files game;
             GameInfo.architecture := arch;
             GameInfo.detected_api := api;
             GameInfo.dll_override := dll;
             GameInfo.install_path := Path.parent exe;
             GameInfo.selected_exe := Some exe |}, st).
Proof.
  pose proof (analyze_executable_returns (exe_at (fs_of st) exe)) as Hret.
  unfold analyze_into. rewrite bind_gets.
  destruct (Exe.analyze_executable (exe_at (fs_of st) exe)) as [[[arch api] dll]|e];
    [|done].
  by exists arch, api, dll.
Qed.

Lemma select_among_inv game st :
  exists g,
    select_among exe_at ask_select_exe game st = (Ok g, st) /\
    GameInfo.name g = GameInfo.name game /\
    GameInfo.path g = GameInfo.path game /\
    GameInfo.exe_files g = GameInfo.exe_files game /\
    (g = game \/
     exists exe,
       exe ∈ GameInfo.exe_files game ++
             option_list (ask_select_exe (take 20 (GameInfo.exe_files game))) /\
       GameInfo.selected_exe g = Some exe /\
       GameInfo.install_path g = Path.parent exe /\
       Exe.analyze_executable (exe_at (fs_of st) exe)
       = Ok (GameInfo.architecture g, GameInfo.detected_api g, GameInfo.dll_override g)).
Proof.
  unfold select_among.
  assert (forall exe,
            exe ∈ GameInfo.exe_files game ++
                  option_list (ask_select_exe (take 20 (GameInfo.exe_files game))) ->
            exists g,
              analyze_into exe_at game exe st = (Ok g, st) /\
              GameInfo.name g = GameInfo.name game /\
              GameInfo.path g = GameInfo.path game /\
              GameInfo.exe_files g = GameInfo.exe_files game /\
              (g = game \/
               exists exe,
                 exe ∈ GameInfo.exe_files game ++
                       option_list (ask_select_exe (take 20 (GameInfo.exe_files game))) /\
                 GameInfo.selected_exe g = Some exe /\
                 GameInfo.install_path g = Path.parent exe /\
                 Exe.analyze_executable (exe_at (fs_of st) exe)
                 = Ok (GameInfo.architecture g, GameInfo.detected_api g,
                       GameInfo.dll_override g))) as Han.
  { intros exe Hin.
    destruct (analyze_into_inv game exe st) as (arch & api & dll & Ha & ->).
    eexists. split; [reflexivity|]. simpl. do 3 (split; [done|]). right.
    by exists exe. }
  destruct (GameInfo.exe_files game) as [|exe [|exe' rest]] eqn:Hfiles.
  - exists game. do 4 (split; [done|]). by left.
  - apply Han. apply elem_of_app. left. apply list_elem_of_here.
  - destruct (ask_select_exe _) as [exe0|] eqn:Hask.
    + apply Han. apply elem_of_app. right. apply list_elem_of_here.
    + exists game. do 4 (split; [done|]). by left.
Qed.

(** Choosing the executable reads the state and keeps what identifies the
    game. *)
Lemma select_exe_for_analysis_inv game st :
  (select_exe_for_analysis E exe_at ask_select_exe game st).2 = st /\
  match (select_exe_for_analysis E exe_at ask_select_exe game st).1 with
  | Ok g =>
      GameInfo.name g = GameInfo.name game /\
      GameInfo.path g = GameInfo.path game /\
      GameInfo.exe_files g = GameInfo.exe_files game
  | Raise e => (GamesConfigManager.get E (GameInfo.path game) st).1 = Raise e
  end.
Proof.
  unfold select_exe_for_analysis.
  pose proof (get_read_only E (GameInfo.path game) st) as Hro.
  destruct (select_among_inv game st) as (g & Hsel & Hn & Hp & Hf & _).
  destruct (GamesConfigManager.get E (GameInfo.path game) st) as [[saved|e] st0] eqn:Hget;
    simpl in Hro; subst st0.
  - rewrite (bind_Ok _ _ _ _ _ Hget).
    destruct saved as [saved|]; [|by rewrite Hsel].
    destruct (GameInfo.selected_exe saved) as [exe_path|]; [|by rewrite Hsel].
    rewrite bind_gets. destruct (Fs.exists_ _ _); [done|by rewrite Hsel].
  - by rewrite (bind_Raise _ _ _ _ _ Hget).
Qed.

End FlowFacts.

(** X20: choosing the executable only reads: [select_exe_for_analysis]
    leaves file system, cache and document as they were, it raises only
    where [get] raises, and the record it returns has the name, the path
    and the candidate executables of the one it was given. *)
Theorem select_exe_for_analysis_reads E exe_at ask game st :
  (select_exe_for_analysis E exe_at ask game st).2 = st /\
  match (select_exe_for_analysis E exe_at ask game st).1 with
  | Ok g =>
      GameInfo.name g = GameInfo.name game /\
      GameInfo.path g = GameInfo.path game /\
      GameInfo.exe_files g = GameInfo.exe_files game
  | Raise e => (GamesConfigManager.get E (GameInfo.path game) st).1 = Raise e
  end.
Proof. apply select_exe_for_analysis_inv. Qed.

(** X21: once a game has been installed with a selected executable that
    still exists, a later selection for the same path takes the
    architecture, API, override module, install path and executable from
    the saved record: nothing is analysed and nothing is asked. *)
Theorem select_exe_for_analysis_saved E config exe_at ask game st v st' exe game0 :
  install_to_game E config game st = (Ok v, st') ->
  GameInfo.install_path game <> "" ->
  GameInfo.selected_exe game = Some exe ->
  exe <> "" ->
  Fs.exists_ (fs_of st') exe = true ->
  GameInfo.path game0 = GameInfo.path game ->
  select_exe_for_analysis E exe_at ask game0 st'
  = (Ok {| GameInfo.name := GameInfo.name game0;
           GameInfo.path := GameInfo.path game0;
           GameInfo.exe_files := GameInfo.exe_files game0;
           GameInfo.architecture := GameInfo.architecture game;
           GameInfo.detected_api := GameInfo.detected_api game;
           GameInfo.dll_override := GameInfo.dll_override game;
           GameInfo.install_path := GameInfo.install_path game;
           GameInfo.selected_exe := Some exe |}, st').
Proof.
  intros Hinst Hi Hse Hne Hex Hpath.
  assert (GamesConfigManager.get E (GameInfo.path game0) st'
          = (Ok (Some (persisted game)), st')) as Hget.
  { rewrite Hpath. apply (install_to_game_get E config game st v st'); [done| |done].
    rewrite Hse. congruence. }
  unfold select_exe_for_analysis. rewrite (bind_Ok _ _ _ _ _ Hget). simpl.
  rewrite Hse, bind_gets, Hex. reflexivity.
Qed.

Lemma select_exe_for_analysis_saved_witness :
  let game := GameInfo.new "Game" "/g" ["/g/game.exe"] 64 "dx9" "d3d9"
                (Some "/g") (Some "/g/game.exe") in
  let st' := (install_to_game Sample.env Sample.config game Sample.state_ready).2 in
  select_exe_for_analysis Sample.env (fun _ _ => Sample.exe_d3d12_d3d11_d3d9)
    (fun _ => None) Sample.game st'
  = (Ok (GameInfo.new "Game" "/g" ["/g/game.exe"] 64 "dx9" "d3d9"
           (Some "/g") (Some "/g/game.exe")), st').
Proof.
  intros game st'.
  apply (select_exe_for_analysis_saved Sample.env Sample.config _ _ game
           Sample.state_ready "d3d9" st' "/g/game.exe" Sample.game).
  - vm_compute. reflexivity.
  - discriminate.
  - reflexivity.
  - discriminate.
  - vm_compute. reflexivity.
  - reflexivity.
Defined.

(** X22: neither flow lets a failed installation escape: from a selected
    game on, [run_reinstall_flow] always returns, [run_install_flow]
    raises only where reading the store raises, and when the
    installation inside has failed the backing document is what it was
    before the flow. *)
Theorem flows_absorb_install_failure E config exe_at ask_exe ask_dll confirm game st :
  let flow := run_install_flow E config exe_at ask_exe ask_dll confirm game st in
  let again := run_reinstall_flow E config game st in
  again.1 = Ok tt /\
  (returned (install_to_game E config game st).1 = false ->
   games_json again.2 = games_json st) /\
  match flow.1 with
  | Ok _ => True
  | Raise e => (GamesConfigManager.get E (GameInfo.path game) st).1 = Raise e /\ flow.2 = st
  end.
Proof.
  intros flow again. split; [|split].
  - subst again. unfold run_reinstall_flow, try_except_Exception, bind.
    by destruct (install_to_game E config game st) as [[dll|e] st'].
  - subst again. unfold run_reinstall_flow, try_except_Exception, bind.
    destruct (install_to_game E config game st) as [[dll|e] st'] eqn:Hi; [done|].
    intros _. simpl.
    apply install_to_game_inv in Hi as [(e' & _ & [Hd _])|(s1 & r1 & Hs & _ & Hsave & Hr)].
    + done.
    + destruct r1 as [[]|e1]; [done|].
      apply save_inv in Hsave as [(m & _ & [=] & _)|[_ ->]]. by destruct Hs.
  - subst flow. unfold run_install_flow.
    pose proof (select_exe_for_analysis_inv E exe_at ask_exe game st) as [Hst Hr].
    destruct (select_exe_for_analysis E exe_at ask_exe game st) as [[g|e] st0] eqn:Hsel;
      simpl in Hst, Hr; subst st0.
    + rewrite (bind_Ok _ _ _ _ _ Hsel).
      unfold try_except_Exception, bind.
      by destruct (install_to_game E config _ st) as [[dll|e] st'].
    + by rewrite (bind_Raise _ _ _ _ _ Hsel).
Qed.

(** ** Steam library scanner *)

Section SortFacts.
Context {A : Type} (key : A -> string).

Lemma insort_perm x l : insort key x l ≡ₚ x :: l.
Proof.
  induction l as [|y l IH]; simpl; [done|].
  destruct (String.leb (key x) (key y)); [done|].
  rewrite IH. apply Permutation_swap.
Qed.

Lemma sorted_perm l : sorted key l ≡ₚ l.
Proof.
  induction l as [|x l IH]; simpl; [done|].
  unfold sorted in *. simpl. by rewrite insort_perm, IH.
Qed.

Lemma insort_Sorted x l :
  Sorted (fun a b => String.leb (key a) (key b) = true) l ->
  Sorted (fun a b => String.leb (key a) (key b) = true) (insort key x l).
Proof.
  induction l as [|y l IH]; intros Hl; simpl.
  - by repeat constructor.
  - destruct (String.leb (key x) (key y)) eqn:Hxy.
    + constructor; [done|]. by constructor.
    + apply Sorted_inv in Hl as [Hl Hhd]. constructor; [by apply IH|].
      assert (String.leb (key y) (key x) = true) as Hyx.
      { destruct (String.leb_total (key x) (key y)); congruence. }
      destruct l as [|z l]; simpl.
      * by constructor.
      * destruct (String.leb (key x) (key z)); constructor; [done|].
        by apply HdRel_inv in Hhd.
Qed.

Lemma sorted_Sorted l :
  Sorted (fun a b => String.leb (key a) (key b) = true) (sorted key l).
Proof.
  induction l as [|x l IH]; [constructor|].
  unfold sorted in *. simpl. by apply insort_Sorted.
Qed.

End SortFacts.

Section ScanFacts.
Context (E : os_env).

Lemma rglob_ext_read_only d ext : read_only (rglob_ext E d ext).
Proof. by intros σ. Qed.

(** What the loop over one library adds to the list, and that it only
    reads. *)
Lemma scan_game_dirs_inv game_dirs : forall games (σ : fs),
  exists found,
    scan_game_dirs E game_dirs games σ = (Ok (games ++ found), σ) /\
    forall g, g ∈ found ->
      GameInfo.path g ∈ game_dirs /\
      Fs.is_dir σ (GameInfo.path g) = true /\
      g = GameInfo.new (Path.name (GameInfo.path g)) (GameInfo.path g)
            (List.filter is_game_executable
               (scan_order E
                  (filter (fun k => Path.is_below (GameInfo.path g) k
                                    ∧ ends_with ".exe" (Path.name k) = true)
                     (Fs.paths σ))))
            64 "dx11" "dxgi" None None /\
      GameInfo.exe_files g <> [].
Proof.
  induction game_dirs as [|d rest IH]; intros games σ; simpl.
  - exists []. rewrite app_nil_r. split; [done|]. intros g Hg.
    by apply elem_of_nil in Hg.
  - rewrite bind_gets. destruct (Fs.is_dir σ d) eqn:Hd; simpl.
    2:{ destruct (IH games σ) as (found & Hrun & Hfound).
        exists found. split; [done|]. intros g Hg.
        destruct (Hfound g Hg) as (Hin & H). split; [by right|done]. }
    unfold rglob_ext. rewrite bind_gets.
    destruct (List.filter is_game_executable _) as [|exe exes] eqn:Hexe.
    + destruct (IH games σ) as (found & Hrun & Hfound).
      exists found. split; [done|]. intros g Hg.
      destruct (Hfound g Hg) as (Hin & H). split; [by right|done].
    + destruct (IH (games ++ [GameInfo.new (Path.name d) d (exe :: exes)
                                64 "dx11" "dxgi" None None]) σ)
        as (found & Hrun & Hfound).
      exists (GameInfo.new (Path.name d) d (exe :: exes) 64 "dx11" "dxgi" None None
              :: found).
      split.
      * rewrite Hrun. by rewrite <- app_assoc.
      * intros g [->|Hg]%elem_of_cons.
        -- simpl. split; [by left|]. split; [done|]. split; [|done].
           by rewrite Hexe.
        -- destruct (Hfound g Hg) as (Hin & H). split; [by right|done].
Qed.

Lemma scan_libraries_inv library_paths : forall games (σ : fs) r σ',
  scan_libraries E library_paths games σ = (r, σ') ->
  σ' = σ /\
  forall all, r = Ok all ->
    exists found,
      all = games ++ found /\
      forall g, g ∈ found ->
        (exists lib,
           lib ∈ library_paths /\
           GameInfo.path g ∈
             scan_order E (filter (fun k => Path.is_child lib k) (Fs.paths σ))) /\
        Fs.is_dir σ (GameInfo.path g) = true /\
        g = GameInfo.new (Path.name (GameInfo.path g)) (GameInfo.path g)
              (List.filter is_game_executable
                 (scan_order E
                    (filter (fun k => Path.is_below (GameInfo.path g) k
                                      ∧ ends_with ".exe" (Path.name k) = true)
                       (Fs.paths σ))))
              64 "dx11" "dxgi" None None /\
        GameInfo.exe_files g <> [].
Proof.
  induction library_paths as [|lib rest IH]; intros games σ r σ' H; simpl in H.
  - injection H as <- <-. split; [done|]. intros all [= <-]. exists [].
    rewrite app_nil_r. split; [done|]. intros g Hg. by apply elem_of_nil in Hg.
  - pose proof (iterdir_read_only E lib σ) as Hro.
    apply bind_inv in H as [(e & H & ->)|(game_dirs & σ1 & H1 & H)].
    + rewrite H in Hro. simpl in Hro. by subst.
    + rewrite H1 in Hro. simpl in Hro. subst σ1. apply iterdir_Ok in H1.
      destruct (scan_game_dirs_inv game_dirs games σ) as (found1 & Hrun & Hfound1).
      rewrite (bind_Ok _ _ _ _ _ Hrun) in H.
      apply IH in H as [-> Hrest]. split; [done|]. intros all Hall.
      destruct (Hrest all Hall) as (found2 & -> & Hfound2).
      exists (found1 ++ found2). split; [by rewrite app_assoc|].
      intros g [Hg|Hg]%elem_of_app.
      * destruct (Hfound1 g Hg) as (Hin & H). split; [|done].
        exists lib. split; [by left|]. by rewrite <- H1.
      * destruct (Hfound2 g Hg) as ((lib' & Hl & Hin) & H). split; [|done].
        exists lib'. split; [by right|done].
Qed.

End ScanFacts.

(** X23: the scan only reads the file system, and every game it lists is
    a directory found directly in one of the libraries, named after that
    directory and installed into it, with a non-empty list of
    executables: entries below the directory whose name ends in [.exe]
    and that the blacklist accepts.  The scan is only taken to yield
    entries that are there. *)
Theorem scan_for_games_sound E library_paths (σ : fs) games σ' g :
  (forall l y, y ∈ scan_order E l -> y ∈ l) ->
  scan_for_games E library_paths σ = (Ok games, σ') ->
  g ∈ games ->
  σ' = σ /\
  (exists lib, lib ∈ library_paths /\ Path.is_child lib (GameInfo.path g) = true) /\
  Fs.is_dir σ (GameInfo.path g) = true /\
  GameInfo.name g = Path.name (GameInfo.path g) /\
  GameInfo.install_path g = GameInfo.path g /\
  GameInfo.exe_files g <> [] /\
  forall exe, exe ∈ GameInfo.exe_files g ->
    is_Some (σ !! exe) /\
    Path.is_below (GameInfo.path g) exe = true /\
    ends_with ".exe" (Path.name exe) = true /\
    is_game_executable exe = true.
Proof.
  intros Hsub H Hg. unfold scan_for_games in H.
  apply bind_Ok_inv in H as (all & σ1 & H & Hret). injection Hret as <- <-.
  apply scan_libraries_inv in H as [-> Hall].
  destruct (Hall all eq_refl) as (found & -> & Hfound).
  rewrite sorted_perm in Hg. simpl in Hg.
  destruct (Hfound g Hg) as ((lib & Hlib & Hin) & Hd & Heq & Hne).
  split; [done|]. split.
  { exists lib. split; [done|].
    apply Hsub, list_elem_of_filter in Hin as [Hin _]. by apply Is_true_true. }
  split; [done|]. split; [by rewrite Heq|]. split; [by rewrite Heq|].
  split; [done|]. intros exe Hexe. rewrite Heq in Hexe. simpl in Hexe.
  apply list_elem_of_In, List.filter_In in Hexe as [Hexe Hok].
  apply list_elem_of_In, Hsub, list_elem_of_filter in Hexe as [[Hb He] Hp].
  split; [by apply paths_elem|]. split; [by apply Is_true_true|].
  split; [exact He|exact Hok].
Qed.

(** X24: the list of games the scan returns is in ascending order of the
    lower-cased game names. *)
Theorem scan_for_games_sorted E library_paths (σ : fs) games σ' :
  scan_for_games E library_paths σ = (Ok games, σ') ->
  Sorted (fun a b => String.leb (lower (GameInfo.name a)) (lower (GameInfo.name b))
                     = true) games.
Proof.
  intros H. unfold scan_for_games in H.
  apply bind_Ok_inv in H as (all & σ1 & H & Hret). injection Hret as <- <-.
  apply (sorted_Sorted (fun g => lower (GameInfo.name g))).
Qed.


Lemma scan_for_games_sound_witness :
  let g := GameInfo.new "alpha" "/lib/alpha" ["/lib/alpha/bin/Alpha.exe"]
             64 "dx11" "dxgi" None None in
  Fs.is_dir Sample.fs_library (GameInfo.path g) = true /\
  GameInfo.exe_files g <> [] /\
  forall exe, exe ∈ GameInfo.exe_files g ->
    is_Some (Sample.fs_library !! exe) /\
    Path.is_below (GameInfo.path g) exe = true /\
    ends_with ".exe" (Path.name exe) = true /\
    is_game_executable exe = true.
Proof.
  intros g.
  destruct (scan_for_games_sound Sample.env ["/lib"] Sample.fs_library
              (sorted (fun g => lower (GameInfo.name g))
                 [GameInfo.new "Beta" "/lib/Beta" ["/lib/Beta/game.exe"]
                    64 "dx11" "dxgi" None None; g])
              Sample.fs_library g) as (_ & _ & Hd & _ & _ & Hne & Hexe).
  - intros l y Hy. exact Hy.
  - vm_compute. reflexivity.
  - vm_compute. apply list_elem_of_here.
  - split; [exact Hd|]. split; [exact Hne|exact Hexe].
Defined.

Lemma scan_for_games_sorted_witness :
  Sorted (fun a b => String.leb (lower (GameInfo.name a)) (lower (GameInfo.name b))
                     = true)
    [GameInfo.new "alpha" "/lib/alpha" ["/lib/alpha/bin/Alpha.exe"]
       64 "dx11" "dxgi" None None;
     GameInfo.new "Beta" "/lib/Beta" ["/lib/Beta/game.exe"]
       64 "dx11" "dxgi" None None].
Proof.
  apply (scan_for_games_sorted Sample.env ["/lib"] Sample.fs_library _
           Sample.fs_library).
  vm_compute. reflexivity.
Defined.


Section ScanComplete.
Context (E : os_env).

Lemma scan_game_dirs_complete game_dirs : forall games (σ : fs) all d,
  scan_game_dirs E game_dirs games σ = (Ok all, σ) ->
  (forall g, g ∈ games -> g ∈ all) /\
  (d ∈ game_dirs ->
   Fs.is_dir σ d = true ->
   List.filter is_game_executable
     (scan_order E
        (filter (fun k => Path.is_below d k ∧ ends_with ".exe" (Path.name k) = true)
           (Fs.paths σ))) <> [] ->
   exists g,
     g ∈ all /\ GameInfo.path g = d /\
     GameInfo.exe_files g
     = List.filter is_game_executable
         (scan_order E
            (filter (fun k => Path.is_below d k ∧ ends_with ".exe" (Path.name k) = true)
               (Fs.paths σ)))).
Proof.
  induction game_dirs as [|d0 rest IH]; intros games σ all d H.
  - injection H as <-. split; [done|]. intros Hd. by apply elem_of_nil in Hd.
  - simpl in H. rewrite bind_gets in H.
    destruct (Fs.is_dir σ d0) eqn:Hd0; simpl in H.
    2:{ destruct (IH _ _ _ d H) as [Hmono Hfind]. split; [done|].
        intros [->|Hd]%elem_of_cons Hdir Hne; [congruence|by apply Hfind]. }
    unfold rglob_ext in H. rewrite bind_gets in H.
    destruct (List.filter is_game_executable _) as [|exe exes] eqn:Hexe.
    + destruct (IH _ _ _ d H) as [Hmono Hfind]. split; [done|].
      intros [->|Hd]%elem_of_cons Hdir Hne; [by rewrite Hexe in Hne|by apply Hfind].
    + destruct (IH _ _ _ d H) as [Hmono Hfind]. split.
      * intros g Hg. apply Hmono, elem_of_app. by left.
      * intros [->|Hd]%elem_of_cons Hdir Hne; [|by apply Hfind].
        eexists. split; [|split].
        -- apply Hmono, elem_of_app. right. apply list_elem_of_here.
        -- reflexivity.
        -- simpl. by rewrite Hexe.
Qed.

Lemma scan_libraries_complete library_paths : forall games (σ : fs) all lib d,
  scan_libraries E library_paths games σ = (Ok all, σ) ->
  (forall g, g ∈ games -> g ∈ all) /\
  (lib ∈ library_paths ->
   d ∈ scan_order E (filter (fun k => Path.is_child lib k) (Fs.paths σ)) ->
   Fs.is_dir σ d = true ->
   List.filter is_game_executable
     (scan_order E
        (filter (fun k => Path.is_below d k ∧ ends_with ".exe" (Path.name k) = true)
           (Fs.paths σ))) <> [] ->
   exists g,
     g ∈ all /\ GameInfo.path g = d /\
     GameInfo.exe_files g
     = List.filter is_game_executable
         (scan_order E
            (filter (fun k => Path.is_below d k ∧ ends_with ".exe" (Path.name k) = true)
               (Fs.paths σ)))).
Proof.
  induction library_paths as [|lib0 rest IH]; intros games σ all lib d H.
  - injection H as <-. split; [done|]. intros Hl. by apply elem_of_nil in Hl.
  - simpl in H. pose proof (iterdir_read_only E lib0 σ) as Hro.
    apply bind_Ok_inv in H as (game_dirs & σ1 & H1 & H).
    rewrite H1 in Hro. simpl in Hro. subst σ1. apply iterdir_Ok in H1.
    destruct (scan_game_dirs_inv E game_dirs games σ) as (found1 & Hrun & _).
    rewrite (bind_Ok _ _ _ _ _ Hrun) in H.
    destruct (IH _ _ _ lib d H) as [Hmono Hfind].
    destruct (scan_game_dirs_complete game_dirs games σ _ d Hrun) as [Hmono1 Hfind1].
    split; [by auto|].
    intros [->|Hl]%elem_of_cons Hd Hdir Hne; [|by apply Hfind].
    destruct Hfind1 as (g & Hg & Hgd); [by rewrite H1|done|done|].
    exists g. split; [by apply Hmono|done].
Qed.

End ScanComplete.

(** X25: the scan misses no game: when it returns, every directory
    found directly in one of the libraries that has at least one entry
    below it whose name ends in [.exe] and that the blacklist accepts is
    in the list, with that entry among its executables.  The scan is
    taken to lose no entry. *)
Theorem scan_for_games_complete E library_paths (σ : fs) games σ' lib d exe :
  (forall l, scan_order E l ≡ₚ l) ->
  scan_for_games E library_paths σ = (Ok games, σ') ->
  lib ∈ library_paths ->
  Path.is_child lib d = true ->
  Fs.is_dir σ d = true ->
  is_Some (σ !! exe) ->
  Path.is_below d exe = true ->
  ends_with ".exe" (Path.name exe) = true ->
  is_game_executable exe = true ->
  exists g, g ∈ games /\ GameInfo.path g = d /\ exe ∈ GameInfo.exe_files g.
Proof.
  intros Hperm H Hlib Hchild Hdir Hexe Hbelow Hends Hok.
  assert (is_Some (σ !! d)) as Hd.
  { destruct (σ !! d) as [n|] eqn:Hlk; [eexists; reflexivity|].
    exfalso. pose proof (stat_absent σ d Hlk) as Hex.
    unfold Fs.exists_ in Hex. unfold Fs.is_dir in Hdir.
    destruct (Fs.stat σ d); [discriminate Hex|discriminate Hdir]. }
  unfold scan_for_games in H.
  apply bind_Ok_inv in H as (all & σ1 & H & Hret). injection Hret as <- <-.
  pose proof H as Hinv. apply scan_libraries_inv in Hinv as [-> _].
  assert (exe ∈ List.filter is_game_executable
            (scan_order E
               (filter (fun k => Path.is_below d k ∧ ends_with ".exe" (Path.name k) = true)
                  (Fs.paths σ)))) as Hin.
  { apply list_elem_of_In, List.filter_In. split; [|exact Hok].
    apply list_elem_of_In. rewrite Hperm. apply list_elem_of_filter.
    split; [|by apply paths_elem]. split; [by apply Is_true_true|exact Hends]. }
  destruct (scan_libraries_complete E library_paths [] σ all lib d H) as [_ Hfind].
  destruct Hfind as (g & Hg & Hp & Hf).
  - exact Hlib.
  - rewrite Hperm. apply list_elem_of_filter.
    split; [by apply Is_true_true|by apply paths_elem].
  - exact Hdir.
  - intros Hnil. rewrite Hnil in Hin. by apply elem_of_nil in Hin.
  - exists g. split; [by rewrite sorted_perm|]. split; [exact Hp|].
    rewrite Hf. exact Hin.
Qed.

Lemma scan_for_games_complete_witness :
  exists g,
    g ∈ (sorted (fun g => lower (GameInfo.name g))
           [GameInfo.new "Beta" "/lib/Beta" ["/lib/Beta/game.exe"]
              64 "dx11" "dxgi" None None;
            GameInfo.new "alpha" "/lib/alpha" ["/lib/alpha/bin/Alpha.exe"]
              64 "dx11" "dxgi" None None]) /\
    GameInfo.path g = "/lib/Beta" /\
    "/lib/Beta/game.exe" ∈ GameInfo.exe_files g.
Proof.
  apply (scan_for_games_complete Sample.env ["/lib"] Sample.fs_library _
           Sample.fs_library "/lib").
  - intros l. reflexivity.
  - vm_compute. reflexivity.
  - apply list_elem_of_here.
  - reflexivity.
  - reflexivity.
  - by eexists.
  - reflexivity.
  - reflexivity.
  - vm_compute. reflexivity.
Defined.

(** ** Listing the store *)

Section ListFacts.

Lemma res_bind_Raise {A B} (m : res A) (k : A -> res B) e :
  res_bind m k = Raise e -> m = Raise e \/ exists a, m = Ok a /\ k a = Raise e.
Proof.
  destruct m as [a|e']; simpl; intros H.
  - right. by exists a.
  - left. by injection H as ->.
Qed.

Lemma optional_path_raises m key e :
  GameInfo.optional_path m key = Raise e -> e = KeyError \/ e = TypeError.
Proof.
  unfold GameInfo.optional_path, subscript.
  destruct (truthy _); [|done].
  destruct (m !! key) as [[]|]; simpl; intros [= <-]; auto.
Qed.

(** [from_dict] raises for a missing key or a value of the wrong kind,
    and nothing else. *)
Lemma from_dict_raises d e :
  GameInfo.from_dict d = Raise e -> e = KeyError \/ e = TypeError \/ e = DynamicType.
Proof.
  unfold GameInfo.from_dict. intros H.
  apply res_bind_Raise in H as [H|(name_v & _ & H)].
  { unfold subscript in H. destruct d as [| | | | | |m]; try (injection H as <-; auto).
    destruct (m !! "name"); [done|]. injection H as <-. auto. }
  apply res_bind_Raise in H as [H|(p & _ & H)].
  { apply res_bind_Raise in H as [H|(v & _ & H)].
    - unfold subscript in H. destruct d as [| | | | | |m]; try (injection H as <-; auto).
      destruct (m !! "path"); [done|]. injection H as <-. auto.
    - destruct v; simpl in H; try done; injection H as <-; auto. }
  destruct d as [| | | | | |m]; try (injection H as <-; auto).
  apply res_bind_Raise in H as [H|(ip & _ & H)].
  { apply optional_path_raises in H. tauto. }
  apply res_bind_Raise in H as [H|(se & _ & H)].
  { apply optional_path_raises in H. tauto. }
  assert (forall v e, GameInfo.as_str v = Raise e -> e = DynamicType) as Hstr.
  { intros [] e0 [=]; done. }
  assert (forall v e, GameInfo.as_int v = Raise e -> e = DynamicType) as Hint.
  { intros [] e0 [=]; done. }
  apply res_bind_Raise in H as [H|(nm & _ & H)]; [apply Hstr in H; auto|].
  apply res_bind_Raise in H as [H|(arch & _ & H)]; [apply Hint in H; auto|].
  apply res_bind_Raise in H as [H|(api & _ & H)]; [apply Hstr in H; auto|].
  apply res_bind_Raise in H as [H|(dll & _ & H)]; [apply Hstr in H; auto|].
  done.
Qed.

(** A record is readable when [from_dict] returns on it. *)
Lemma list_all_loop_spec values : forall games,
  match list_all_loop values games with
  | Ok all =>
      all = games ++ omap (fun d => match GameInfo.from_dict d with
                                    | Ok g => Some g
                                    | Raise _ => None
                                    end) values
  | Raise e =>
      e = DynamicType /\
      exists d, d ∈ values /\ GameInfo.from_dict d = Raise DynamicType
  end.
Proof.
  induction values as [|d rest IH]; intros games; simpl.
  - by rewrite app_nil_r.
  - destruct (GameInfo.from_dict d) as [g|e] eqn:Hd.
    + specialize (IH (games ++ [g])).
      destruct (list_all_loop rest (games ++ [g])) as [all|e'].
      * by rewrite IH, <- app_assoc.
      * destruct IH as (-> & d' & Hin & Hd'). split; [done|].
        exists d'. split; [by right|done].
    + destruct (from_dict_raises d e Hd) as [->|[->| ->]].
      * specialize (IH games). destruct (list_all_loop rest games); [done|].
        destruct IH as (-> & d' & Hin & Hd'). split; [done|].
        exists d'. split; [by right|done].
      * specialize (IH games). destruct (list_all_loop rest games); [done|].
        destruct IH as (-> & d' & Hin & Hd'). split; [done|].
        exists d'. split; [by right|done].
      * split; [done|]. exists d. split; [by left|done].
Qed.

End ListFacts.

(** X26: [list_all] gives the readable records in the order in which
    the cache yields its values and passes over the others: a record
    that is no dictionary or lacks its name or path does not make it
    raise. *)
Theorem list_all_readable values :
  match list_all values with
  | Ok games =>
      games = omap (fun d => match GameInfo.from_dict d with
                             | Ok g => Some g
                             | Raise _ => None
                             end) values
  | Raise e =>
      e = DynamicType /\
      exists d, d ∈ values /\ GameInfo.from_dict d = Raise DynamicType
  end.
Proof. apply (list_all_loop_spec values []). Qed.

(** X27: after a save that has returned, the saved record is among
    those that [list_all] gives for the values of the cache, in whatever
    order the cache yields them. *)
Theorem list_all_after_save E game st st' :
  GameInfo.install_path game <> "" ->
  GameInfo.selected_exe game <> Some "" ->
  GamesConfigManager.save E game st = (Ok tt, st') ->
  exists m,
    _cache st' = JObj m /\
    forall values games,
      values ≡ₚ (map_to_list m).*2 ->
      list_all values = Ok games ->
      persisted game ∈ games.
Proof.
  intros Hi Hse Hsave.
  apply save_inv in Hsave as [(m & Hc & _ & ->)|[[=] _]]. simpl.
  eexists. split; [reflexivity|]. intros values games Hperm Hlist.
  pose proof (list_all_loop_spec values []) as Hspec. fold (list_all values) in Hspec.
  rewrite Hlist in Hspec. subst games.
  apply list_elem_of_omap. exists (JObj (GameInfo.to_dict game)). split.
  - rewrite Hperm. apply list_elem_of_fmap.
    eexists (_, _). split; [reflexivity|]. apply elem_of_map_to_list.
    apply lookup_insert_eq.
  - by rewrite from_dict_to_dict.
Qed.

Lemma list_all_after_save_witness :
  exists m,
    _cache (GamesConfigManager.save Sample.env Sample.game Sample.state_ready).2
    = JObj m /\
    forall values games,
      values ≡ₚ (map_to_list m).*2 ->
      list_all values = Ok games ->
      persisted Sample.game ∈ games.
Proof.
  apply (list_all_after_save Sample.env Sample.game Sample.state_ready).
  - discriminate.
  - discriminate.
  - reflexivity.
Defined.

(** ** Import tables *)

(** X28: classification looks at the import table as a set of lower-cased
    names: two parsed images with the same machine word whose import
    names agree up to order, repetition and letter case are classified
    alike. *)
Theorem analyze_executable_import_names f f' pe pe' entries entries' :
  Exe.pe_parse f = Ok pe ->
  Exe.pe_parse f' = Ok pe' ->
  Exe.Machine pe = Exe.Machine pe' ->
  Exe.DIRECTORY_ENTRY_IMPORT pe = Some entries ->
  Exe.DIRECTORY_ENTRY_IMPORT pe' = Some entries' ->
  (forall x, x ∈ lower <$> entries <-> x ∈ lower <$> entries') ->
  Exe.analyze_executable f = Exe.analyze_executable f'.
Proof.
  intros Hf Hf' Hm He He' Hsame.
  rewrite (analyze_executable_parsed _ _ Hf), (analyze_executable_parsed _ _ Hf').
  unfold Exe.analyze_parsed. rewrite Hm, He, He'.
  assert (Exe.import_set entries = Exe.import_set entries') as ->; [|done].
  apply set_eq. intros x. unfold Exe.import_set.
  rewrite !elem_of_list_to_set. apply Hsame.
Qed.

Lemma analyze_executable_import_names_witness :
  Exe.analyze_executable Sample.exe_d3d11_d3d9
  = Exe.analyze_executable
      {| Exe.pe_parse :=
           Ok {| Exe.Machine := 0x14c;
                 Exe.DIRECTORY_ENTRY_IMPORT :=
                   Some ["D3D11.dll"; "d3d9.dll"; "kernel32.DLL"; "d3d9.dll"] |};
         Exe.raw := Raise OSError |}.
Proof.
  eapply (analyze_executable_import_names _ _ _ _
            ["KERNEL32.dll"; "D3D9.DLL"; "d3d11.dll"]
            ["D3D11.dll"; "d3d9.dll"; "kernel32.DLL"; "d3d9.dll"]).
  - reflexivity.
  - reflexivity.
  - reflexivity.
  - reflexivity.
  - reflexivity.
  - intros x.
    assert (lower <$> ["KERNEL32.dll"; "D3D9.DLL"; "d3d11.dll"]
            = ["kernel32.dll"; "d3d9.dll"; "d3d11.dll"]) as -> by reflexivity.
    assert (lower <$> ["D3D11.dll"; "d3d9.dll"; "kernel32.DLL"; "d3d9.dll"]
            = ["d3d11.dll"; "d3d9.dll"; "kernel32.dll"; "d3d9.dll"]) as ->
      by reflexivity.
    rewrite !elem_of_cons, !elem_of_nil. tauto.
Defined.

(** ** Merge engine: the tree processed first wins *)

(** *** The calls a merge run makes *)

Section MergeTrace.
Context (E : os_env).

Lemma link_all_cons_Ok s d reqs st b st1 :
  link_file E s d st = (Ok b, st1) ->
  link_all E ((s, d) :: reqs) st = link_all E reqs st1.
Proof.
  intros H. unfold link_all. rewrite for_each_cons. simpl.
  rewrite bind_assoc. by rewrite (bind_Ok _ _ _ _ _ H).
Qed.

Lemma link_all_cons_Raise s d reqs st e st1 :
  link_file E s d st = (Raise e, st1) ->
  link_all E ((s, d) :: reqs) st = (Raise e, st1).
Proof.
  intros H. unfold link_all. rewrite for_each_cons. simpl.
  rewrite bind_assoc. by rewrite (bind_Raise _ _ _ _ _ H).
Qed.

Lemma link_all_app_Ok reqs1 reqs2 st st2 :
  link_all E (reqs1 ++ reqs2) st = (Ok tt, st2) ->
  exists st1,
    link_all E reqs1 st = (Ok tt, st1) /\ link_all E reqs2 st1 = (Ok tt, st2).
Proof.
  unfold link_all. rewrite for_each_app. intros H.
  apply bind_Ok_inv in H as ([] & st1 & H1 & H2). by exists st1.
Qed.

(** Two runs one after the other are one run. *)
Lemma link_all_seq reqs1 reqs2 st r1 st1 r2 st2 (b : bool) :
  link_all E reqs1 st = (r1, st1) ->
  r1 = Ok tt ->
  link_all E reqs2 st1 = (r2, st2) ->
  (b = true -> r2 = Ok tt) ->
  exists r, link_all E (reqs1 ++ reqs2) st = (r, st2) /\ (b = true -> r = Ok tt).
Proof.
  intros H1 -> H2 Hb. exists r2. by rewrite (link_all_app E _ _ _ _ H1).
Qed.

(** A real directory is what [os.stat] finds. *)
Lemma is_dir_regular (σ : fs) d : σ !! d = Some Dir -> Fs.is_dir σ d = true.
Proof.
  intros H. unfold Fs.is_dir.
  rewrite (stat_regular σ d _ H); [done|simpl; tauto].
Qed.

(** What [os.stat] finds stays when entries are only added. *)
Lemma stat_fuel_keeps n (σ σ' : fs) : forall p nd,
  (forall k v, σ !! k = Some v -> σ' !! k = Some v) ->
  Fs.stat_fuel n σ p = Some nd -> Fs.stat_fuel n σ' p = Some nd.
Proof.
  intros p nd Hk. revert p.
  induction n as [|n IH]; intros p; simpl;
    destruct (σ !! p) as [[]|] eqn:Hp; try done; rewrite (Hk _ _ Hp); auto.
Qed.

Lemma is_file_keeps (σ σ' : fs) f :
  (forall k v, σ !! k = Some v -> σ' !! k = Some v) ->
  Fs.is_file σ f = true -> Fs.is_file σ' f = true.
Proof.
  intros Hk. unfold Fs.is_file, Fs.stat.
  destruct (Fs.stat_fuel Fs.MAXSYMLINKS σ f) as [nd|] eqn:Hs; [|done].
  by rewrite (stat_fuel_keeps _ _ _ _ _ Hk Hs).
Qed.

Lemma is_file_entry (σ : fs) f : Fs.is_file σ f = true -> is_Some (σ !! f).
Proof.
  intros Hf. destruct (σ !! f) as [nd|] eqn:H; [by eexists|].
  pose proof (stat_absent σ f H) as Hex.
  unfold Fs.exists_ in Hex. unfold Fs.is_file in Hf.
  destruct (Fs.stat σ f); done.
Qed.

(** The loop of [link_files_in] as a sequence of calls: one for each
    item that is a file, in the order of the items. *)
Lemma files_loop_trace d items : forall a res z,
  for_each items (fun f =>
    is_f <- gets (fun st => Fs.is_file (mfs st) f) ;;
    if is_f then link_file E f d ;;; ret tt else ret tt) a = (res, z) ->
  exists reqs r,
    link_all E reqs a = (r, z) /\
    (returned res = true -> r = Ok tt) /\
    (forall q, q ∈ reqs -> q.2 = d /\ q.1 ∈ items) /\
    (returned res = true ->
     forall f, f ∈ items -> Fs.is_file (mfs a) f = true -> (f, d) ∈ reqs).
Proof.
  induction items as [|x items IH]; intros a res z H.
  - injection H as <- <-. exists [], (Ok tt). split; [done|]. split; [done|].
    split; [intros q Hq; by apply elem_of_nil in Hq|].
    intros _ f Hf. by apply elem_of_nil in Hf.
  - rewrite for_each_cons, bind_assoc, bind_gets in H.
    destruct (Fs.is_file (mfs a) x) eqn:Hx.
    + rewrite bind_assoc in H.
      destruct (link_file E x d a) as [[b|e] a1] eqn:Hl.
      * rewrite (bind_Ok _ _ _ _ _ Hl), bind_ret in H.
        destruct (IH _ _ _ H) as (reqs & r & Hrun & Hret & Hfrom & Hcov).
        exists ((x, d) :: reqs), r.
        split; [by rewrite (link_all_cons_Ok _ _ _ _ _ _ Hl)|].
        split; [done|]. split.
        -- intros q [->|Hq]%elem_of_cons; [split; [done|by left]|].
           destruct (Hfrom q Hq) as [? ?]. split; [done|by right].
        -- intros Hr f [->|Hf]%elem_of_cons Hfile; [by left|].
           right. apply (Hcov Hr f Hf).
           apply (is_file_keeps (mfs a)); [|done].
           by apply (link_file_grows E _ _ _ _ _ Hl).
      * rewrite (bind_Raise _ _ _ _ _ Hl) in H. injection H as <- <-.
        exists [(x, d)], (Raise e).
        split; [by rewrite (link_all_cons_Raise _ _ _ _ _ _ Hl)|].
        split; [done|]. split; [|done].
        intros q [->|Hq]%elem_of_cons; [split; [done|by left]|].
        by apply elem_of_nil in Hq.
    + rewrite bind_ret in H.
      destruct (IH _ _ _ H) as (reqs & r & Hrun & Hret & Hfrom & Hcov).
      exists reqs, r. split; [done|]. split; [done|]. split.
      * intros q Hq. destruct (Hfrom q Hq) as [? ?]. split; [done|by right].
      * intros Hr f [->|Hf]%elem_of_cons Hfile.
        -- by rewrite Hfile in Hx.
        -- by apply (Hcov Hr f).
Qed.

Section Scan.
Hypothesis Hperm : forall l, scan_order E l ≡ₚ l.

Lemma link_files_in_trace dir d a res z :
  link_files_in E dir d a = (res, z) ->
  exists reqs r,
    link_all E reqs a = (r, z) /\
    (returned res = true -> r = Ok tt) /\
    (forall q, q ∈ reqs -> q.2 = d /\ Path.is_child dir q.1 = true) /\
    (returned res = true ->
     forall f, Path.is_child dir f = true ->
               Fs.is_file (mfs a) f = true -> (f, d) ∈ reqs).
Proof.
  unfold link_files_in. intros H.
  pose proof (lift_fs_read_only _ (iterdir_read_only E dir) a) as Hro.
  apply bind_inv in H as [(e & H & ->)|(items & a1 & H1 & H)].
  - rewrite H in Hro. simpl in Hro. subst z. exists [], (Ok tt).
    split; [done|]. split; [done|]. split; [|done].
    intros q Hq. by apply elem_of_nil in Hq.
  - rewrite H1 in Hro. simpl in Hro. subst a1. apply lift_iterdir_Ok in H1.
    destruct (files_loop_trace d items _ _ _ H) as (reqs & r & Hrun & Hret & Hfrom & Hcov).
    exists reqs, r. split; [done|]. split; [done|]. split.
    + intros q Hq. destruct (Hfrom q Hq) as [Hd Hin]. split; [done|].
      rewrite H1, Hperm in Hin.
      apply list_elem_of_filter in Hin as [Hin _]. by apply Is_true_true.
    + intros Hr f Hc Hf. apply (Hcov Hr f); [|done].
      rewrite H1, Hperm. apply list_elem_of_filter.
      split; [by apply Is_true_true|]. apply paths_elem. by apply is_file_entry.
Qed.

(** The loop of [link_tree]. *)
Lemma subs_loop_trace d subs : forall a res z,
  for_each subs (fun sub =>
    is_d <- gets (fun st => Fs.is_dir (mfs st) sub) ;;
    if is_d then link_files_in E sub d else ret tt) a = (res, z) ->
  exists reqs r,
    link_all E reqs a = (r, z) /\
    (returned res = true -> r = Ok tt) /\
    (forall q, q ∈ reqs ->
       q.2 = d /\ exists sub, sub ∈ subs /\ Path.is_child sub q.1 = true) /\
    (returned res = true ->
     forall sub f,
       sub ∈ subs -> mfs a !! sub = Some Dir -> Path.is_child sub f = true ->
       Fs.is_file (mfs a) f = true -> (f, d) ∈ reqs).
Proof.
  induction subs as [|x subs IH]; intros a res z H.
  - injection H as <- <-. exists [], (Ok tt). split; [done|]. split; [done|].
    split; [intros q Hq; by apply elem_of_nil in Hq|].
    intros _ sub f Hs. by apply elem_of_nil in Hs.
  - rewrite for_each_cons, bind_assoc, bind_gets in H.
    destruct (Fs.is_dir (mfs a) x) eqn:Hx.
    + apply bind_inv in H as [(e & H & ->)|([] & a1 & H1 & H)].
      * destruct (link_files_in_trace _ _ _ _ _ H)
          as (reqs & r & Hrun & _ & Hfrom & _).
        exists reqs, r. split; [done|]. split; [done|]. split; [|done].
        intros q Hq. destruct (Hfrom q Hq) as [? ?]. split; [done|].
        exists x. split; [by left|done].
      * destruct (link_files_in_trace _ _ _ _ _ H1)
          as (reqs1 & r1 & Hrun1 & Hret1 & Hfrom1 & Hcov1).
        specialize (Hret1 eq_refl). subst r1.
        pose proof (link_all_grows E _ _ _ _ Hrun1) as [_ Hkeep].
        destruct (IH _ _ _ H) as (reqs2 & r2 & Hrun2 & Hret2 & Hfrom2 & Hcov2).
        exists (reqs1 ++ reqs2), r2.
        split; [by rewrite (link_all_app E _ _ _ _ Hrun1)|].
        split; [done|]. split.
        -- intros q [Hq|Hq]%elem_of_app.
           ++ destruct (Hfrom1 q Hq) as [? ?]. split; [done|].
              exists x. split; [by left|done].
           ++ destruct (Hfrom2 q Hq) as [? (sub & ? & ?)]. split; [done|].
              exists sub. split; [by right|done].
        -- intros Hr sub f [->|Hs]%elem_of_cons Hsub Hc Hf;
             apply elem_of_app.
           ++ left. by apply (Hcov1 eq_refl f).
           ++ right. apply (Hcov2 Hr sub f); auto.
              by apply (is_file_keeps (mfs a)).
    + rewrite bind_ret in H.
      destruct (IH _ _ _ H) as (reqs & r & Hrun & Hret & Hfrom & Hcov).
      exists reqs, r. split; [done|]. split; [done|]. split.
      * intros q Hq. destruct (Hfrom q Hq) as [? (sub & ? & ?)]. split; [done|].
        exists sub. split; [by right|done].
      * intros Hr sub f [->|Hs]%elem_of_cons Hsub Hc Hf.
        -- by rewrite (is_dir_regular _ _ Hsub) in Hx.
        -- by apply (Hcov Hr sub f).
Qed.

Lemma link_tree_trace r nm d a res z :
  link_tree E r nm d a = (res, z) ->
  exists reqs rr,
    link_all E reqs a = (rr, z) /\
    (returned res = true -> rr = Ok tt) /\
    (forall q, q ∈ reqs ->
       q.2 = d /\
       exists sub, Path.is_below r sub = true /\ Path.name sub = nm /\
                   Path.is_child sub q.1 = true) /\
    (returned res = true ->
     forall sub f,
       Path.is_below r sub = true -> Path.name sub = nm ->
       mfs a !! sub = Some Dir -> Path.is_child sub f = true ->
       Fs.is_file (mfs a) f = true -> (f, d) ∈ reqs).
Proof.
  unfold link_tree. intros H.
  pose proof (lift_fs_read_only _ (rglob_read_only E r nm) a) as Hro.
  apply bind_inv in H as [(e & H & ->)|(subs & a1 & H1 & H)].
  { unfold lift_fs, Fs.rglob, gets in H. done. }
  rewrite H1 in Hro. simpl in Hro. subst a1.
  assert (subs = scan_order E
            (filter (fun k => Path.is_below r k ∧ Path.name k = nm)
               (Fs.paths (mfs a)))) as Hsubs.
  { unfold lift_fs, Fs.rglob, gets in H1. by injection H1 as <-. }
  destruct (subs_loop_trace d subs _ _ _ H) as (reqs & rr & Hrun & Hret & Hfrom & Hcov).
  exists reqs, rr. split; [done|]. split; [done|]. split.
  - intros q Hq. destruct (Hfrom q Hq) as [Hd (sub & Hin & Hc)]. split; [done|].
    exists sub. rewrite Hsubs, Hperm in Hin.
    apply list_elem_of_filter in Hin as [[Hb Hn] _].
    split; [by apply Is_true_true|]. done.
  - intros Hr sub f Hb Hn Hsub Hc Hf.
    apply (Hcov Hr sub f); try done.
    rewrite Hsubs, Hperm. apply list_elem_of_filter.
    split; [split; [by apply Is_true_true|done]|]. apply paths_elem. by eexists.
Qed.

End Scan.

End MergeTrace.

Section MergeWalk.
Context (E : os_env) (ms mt : string).
Hypothesis Hperm : forall l, scan_order E l ≡ₚ l.

(** A file of a tree stays one when entries are only added. *)
Lemma tree_file_keeps (σ σ' : fs) r nm sub f :
  (forall k v, σ !! k = Some v -> σ' !! k = Some v) ->
  tree_file σ r nm sub f -> tree_file σ' r nm sub f.
Proof.
  intros Hk (H0 & H2 & H3 & H4 & H5 & H6 & H7).
  repeat split; auto. by apply (is_file_keeps σ).
Qed.

(** The walk of one source tree. *)
Lemma repo_body_trace r a res z :
  (is_d <- gets (fun st => Fs.is_dir (mfs st) r) ;;
   if String.eqb (Path.name r) "Merged" || negb is_d then ret tt
   else link_tree E r "Shaders" ms ;;; link_tree E r "Textures" mt) a = (res, z) ->
  exists reqs rr,
    link_all E reqs a = (rr, z) /\
    (returned res = true -> rr = Ok tt) /\
    (forall q, q ∈ reqs -> walked_from ms mt r q) /\
    (returned res = true ->
     forall nm sub f, tree_file (mfs a) r nm sub f ->
       (nm = "Shaders" -> (f, ms) ∈ reqs) /\ (nm = "Textures" -> (f, mt) ∈ reqs)).
Proof.
  rewrite bind_gets. intros H.
  destruct (String.eqb_spec (Path.name r) "Merged") as [Hm|Hm]; simpl in H.
  { injection H as <- <-. exists [], (Ok tt). split; [done|]. split; [done|].
    split; [intros q Hq; by apply elem_of_nil in Hq|].
    intros _ nm sub f (_ & Hne & _). done. }
  destruct (Fs.is_dir (mfs a) r) eqn:Hd; simpl in H.
  2:{ injection H as <- <-. exists [], (Ok tt). split; [done|]. split; [done|].
      split; [intros q Hq; by apply elem_of_nil in Hq|].
      intros _ nm sub f (Hr & _). by rewrite (is_dir_regular _ _ Hr) in Hd. }
  apply bind_inv in H as [(e & H & ->)|([] & a1 & H1 & H)].
  - destruct (link_tree_trace E Hperm _ _ _ _ _ _ H) as (reqs & rr & Hrun & _ & Hfrom & _).
    exists reqs, rr. split; [done|]. split; [done|]. split; [|done].
    intros q Hq. destruct (Hfrom q Hq) as (Hd' & sub & Hb & Hn & Hc).
    exists "Shaders", sub. split; [by left|done].
  - destruct (link_tree_trace E Hperm _ _ _ _ _ _ H1)
      as (reqs1 & r1 & Hrun1 & Hret1 & Hfrom1 & Hcov1).
    specialize (Hret1 eq_refl). subst r1.
    pose proof (link_all_grows E _ _ _ _ Hrun1) as [_ Hkeep].
    destruct (link_tree_trace E Hperm _ _ _ _ _ _ H)
      as (reqs2 & r2 & Hrun2 & Hret2 & Hfrom2 & Hcov2).
    exists (reqs1 ++ reqs2), r2.
    split; [by rewrite (link_all_app E _ _ _ _ Hrun1)|].
    split; [done|]. split.
    + intros q [Hq|Hq]%elem_of_app.
      * destruct (Hfrom1 q Hq) as (Hd' & sub & Hb & Hn & Hc).
        exists "Shaders", sub. split; [by left|done].
      * destruct (Hfrom2 q Hq) as (Hd' & sub & Hb & Hn & Hc).
        exists "Textures", sub. split; [by right|done].
    + intros Hr nm sub f (_ & _ & Hb & Hn & Hsub & Hc & Hf). split.
      * intros ->. apply elem_of_app. left.
        by apply (Hcov1 eq_refl sub f).
      * intros ->. apply elem_of_app. right.
        apply (Hcov2 Hr sub f); auto.
        by apply (is_file_keeps (mfs a)).
Qed.

(** The walk of the source trees, one after the other. *)
Lemma repos_loop_trace repos : forall a res z,
  for_each repos (fun repo_dir =>
    is_d <- gets (fun st => Fs.is_dir (mfs st) repo_dir) ;;
    if String.eqb (Path.name repo_dir) "Merged" || negb is_d then ret tt
    else
      link_tree E repo_dir "Shaders" ms ;;;
      link_tree E repo_dir "Textures" mt) a = (res, z) ->
  exists reqs rr,
    link_all E reqs a = (rr, z) /\
    (returned res = true -> rr = Ok tt) /\
    (forall q, q ∈ reqs -> exists r, r ∈ repos /\ walked_from ms mt r q) /\
    (returned res = true ->
     forall r nm sub f, r ∈ repos -> tree_file (mfs a) r nm sub f ->
       (nm = "Shaders" -> (f, ms) ∈ reqs) /\ (nm = "Textures" -> (f, mt) ∈ reqs)).
Proof.
  induction repos as [|x repos IH]; intros a res z H.
  - injection H as <- <-. exists [], (Ok tt). split; [done|]. split; [done|].
    split; [intros q Hq; by apply elem_of_nil in Hq|].
    intros _ r nm sub f Hr. by apply elem_of_nil in Hr.
  - rewrite for_each_cons in H.
    apply bind_inv in H as [(e & H & ->)|([] & a1 & H1 & H)].
    + destruct (repo_body_trace _ _ _ _ H) as (reqs & rr & Hrun & _ & Hfrom & _).
      exists reqs, rr. split; [done|]. split; [done|]. split; [|done].
      intros q Hq. exists x. split; [by left|by apply Hfrom].
    + destruct (repo_body_trace _ _ _ _ H1)
        as (reqs1 & r1 & Hrun1 & Hret1 & Hfrom1 & Hcov1).
      specialize (Hret1 eq_refl). subst r1.
      pose proof (link_all_grows E _ _ _ _ Hrun1) as [_ Hkeep].
      destruct (IH _ _ _ H) as (reqs2 & r2 & Hrun2 & Hret2 & Hfrom2 & Hcov2).
      exists (reqs1 ++ reqs2), r2.
      split; [by rewrite (link_all_app E _ _ _ _ Hrun1)|].
      split; [done|]. split.
      * intros q [Hq|Hq]%elem_of_app.
        -- exists x. split; [by left|by apply Hfrom1].
        -- destruct (Hfrom2 q Hq) as (r & Hr & Hw). exists r. split; [by right|done].
      * intros Hr r nm sub f [->|Hin]%elem_of_cons Htf.
        -- destruct (Hcov1 eq_refl nm sub f Htf) as [Hs Ht].
           split; intros Hnm; apply elem_of_app; left; auto.
        -- assert (tree_file (mfs a1) r nm sub f) as Htf1
             by (by apply (tree_file_keeps (mfs a))).
           destruct (Hcov2 Hr r nm sub f Hin Htf1) as [Hs Ht].
           split; intros Hnm; apply elem_of_app; right; auto.
Qed.

(** The walk of the external directory: calls on entries with a name,
    for one of the two destinations. *)
Lemma merge_external_trace c a :
  exists reqs r,
    link_all E reqs a = (r, (merge_external E c ms mt a).2) /\
    (returned (merge_external E c ms mt a).1 = true -> r = Ok tt) /\
    (forall q, q ∈ reqs -> Path.name q.1 <> "" /\ (q.2 = ms \/ q.2 = mt)).
Proof.
  apply (merge_external_follows E ms mt (fun s => Path.name s <> "")
           (fun a b z => exists reqs r,
              link_all E reqs a = (r, z) /\ (b = true -> r = Ok tt) /\
              (forall q, q ∈ reqs -> Path.name q.1 <> "" /\ (q.2 = ms \/ q.2 = mt)))).
  - intros s. exists [], (Ok tt). split; [done|]. split; [done|].
    intros q Hq. by apply elem_of_nil in Hq.
  - intros s s' (reqs & r & H & _ & Hq). exists reqs, r. done.
  - intros s s1 s2 b (reqs1 & r1 & H1 & Hr1 & Hq1) (reqs2 & r2 & H2 & Hr2 & Hq2).
    rewrite (Hr1 eq_refl) in H1.
    exists (reqs1 ++ reqs2), r2. rewrite (link_all_app E _ _ _ _ H1).
    split; [done|]. split; [done|].
    intros q [Hq|Hq]%elem_of_app; auto.
  - intros d σ x Hx. rewrite Hperm in Hx.
    apply list_elem_of_filter in Hx as [Hx _]. apply Is_true_true in Hx.
    by apply is_child_inv in Hx as [Hx _].
  - intros s d Hs Hd st0. exists [(s, d)]. rewrite link_all_one.
    destruct (link_file E s d st0) as [[b|e] st'] eqn:Hl; simpl.
    + exists (Ok tt). split; [done|]. split; [done|].
      intros q [->|Hq]%elem_of_cons; [done|by apply elem_of_nil in Hq].
    + exists (Raise e). split; [done|]. split; [done|].
      intros q [->|Hq]%elem_of_cons; [done|by apply elem_of_nil in Hq].
Qed.

End MergeWalk.

Section MergeNames.
Context (E : os_env).

(** Calls that are not for the name [X], or come when [X] has been seen,
    leave the entry called [X] of every directory as it is and do not
    make [X] seen. *)
Lemma link_all_keeps_name X d reqs : forall a r z,
  X <> "" -> Path.split_last X = None ->
  link_all E reqs a = (r, z) ->
  (forall q, q ∈ reqs -> Path.name q.1 <> "") ->
  (forall q, q ∈ reqs -> Path.name q.1 = X -> X ∈ seen_files a) ->
  mfs z !! Path.join d X = mfs a !! Path.join d X /\
  (X ∈ seen_files z -> X ∈ seen_files a).
Proof.
  intros a r z HX HXc. revert a r z.
  induction reqs as [|[s d'] reqs IH]; intros a r z H Hne Hseen.
  - injection H as _ <-. done.
  - assert (forall a1 rb, link_file E s d' a = (rb, a1) ->
              mfs a1 !! Path.join d X = mfs a !! Path.join d X /\
              (X ∈ seen_files a1 -> X ∈ seen_files a)) as Hstep.
    { intros a1 rb Hl. destruct (decide (Path.name s = X)) as [Hn|Hn].
      - rewrite (link_file_seen E s d' a) in Hl.
        + by injection Hl as _ <-.
        + rewrite Hn. apply (Hseen (s, d')); [by left|done].
      - assert (Path.join d' (Path.name s) <> Path.join d X) as Hk.
        { intros Heq. apply Hn.
          rewrite <- (name_join d' (Path.name s)); [|apply (Hne (s, d')); by left
                                                    |apply name_component].
          rewrite Heq. by apply name_join. }
        apply link_file_inv in Hl
          as [(_ & _ & ->)
             |(_ & Hsn & [(_ & _ & Hfs)|(_ & [(_ & _ & Hfs)|(_ & Hfs)])])];
          [done| | |]; rewrite Hfs, Hsn;
          (split; [|intros [Hin|Hin]%elem_of_union;
                    [apply elem_of_singleton in Hin; congruence|done]]);
          try done.
        by rewrite lookup_insert_ne. }
    destruct (link_file E s d' a) as [[b|e] a1] eqn:Hl.
    + rewrite (link_all_cons_Ok E _ _ _ _ _ _ Hl) in H.
      destruct (Hstep a1 (Ok b) eq_refl) as [Hfs Hs].
      pose proof (link_file_grows E _ _ _ _ _ Hl) as [Hsub _].
      destruct (IH a1 r z H) as [Hfs' Hs'].
      * intros q Hq. apply Hne. by right.
      * intros q Hq Hn. apply Hsub. apply (Hseen q); [by right|done].
      * split; [congruence|auto].
    + rewrite (link_all_cons_Raise E _ _ _ _ _ _ Hl) in H. injection H as _ <-.
      apply (Hstep a1 (Raise e) eq_refl).
Qed.

(** The first call for a name that has not been seen. *)
Lemma link_file_first s d a b a1 :
  link_file E s d a = (Ok b, a1) ->
  Path.name s ∉ seen_files a ->
  Path.name s ∈ seen_files a1 /\
  (mfs a !! Path.join d (Path.name s) = None ->
   mfs a1 !! Path.join d (Path.name s) = Some (Symlink (resolve E (mfs a) s))) /\
  (forall k, k <> Path.join d (Path.name s) -> mfs a1 !! k = mfs a !! k).
Proof.
  intros Hl Hnew. split; [by eapply link_file_marks|].
  apply link_file_inv in Hl
    as [(? & _)|(_ & _ & [(Hex & _ & Hfs)|(_ & [(_ & _ & Hfs)|([e [=]] & _)])])];
    [done| |]; rewrite Hfs.
  - split; [|done]. intros Hnone. by rewrite (stat_absent _ _ Hnone) in Hex.
  - split.
    + intros _. by rewrite lookup_insert_eq.
    + intros k Hk. by rewrite lookup_insert_ne.
Qed.

End MergeNames.

Section Lists.
Context {A : Type} (P : A -> Prop) `{!forall x, Decision (P x)}.

(** The first element of a list with a given property. *)
Lemma first_with l x :
  x ∈ l -> P x ->
  exists before y after,
    l = before ++ y :: after /\ P y /\ forall q, q ∈ before -> ~ P q.
Proof.
  induction l as [|z l IH]; intros Hx HP; [by apply elem_of_nil in Hx|].
  destruct (decide (P z)) as [Hz|Hz].
  - exists [], z, l. split; [done|]. split; [done|].
    intros q Hq. by apply elem_of_nil in Hq.
  - apply elem_of_cons in Hx as [->|Hx]; [done|].
    destruct (IH Hx HP) as (before & y & after & -> & Hy & Hb).
    exists (z :: before), y, after. split; [done|]. split; [done|].
    intros q [->|Hq]%elem_of_cons; auto.
Qed.

End Lists.

(** C5 (amended): in a merge run that returns, let [r1] and [r2] be two
    source trees, [r1] processed before [r2], that both hold a file of
    the same name in a [Shaders] or [Textures] directory.  Then the run
    is a sequence of [link_file] calls in which the first call for that
    name is for a file of a tree processed no later than [r1], and the
    call for the file of [r2] comes after it.  Where no entry stands at
    that name in the destination of that first call once the old links
    have been cleared, the run ends with a link there to that first
    file; the other destination keeps what it had at that name.  So the
    file of the later tree is skipped and never replaces the link. *)
Theorem merge_shaders_first_tree_wins
    E c (σ σc : fs) n σ' pre r1 rest nm1 sub1 f1 d1 X r2 nm2 sub2 f2 d2 :
  let ms := Path.join (merged_path c) "Shaders" in
  let mt := Path.join (merged_path c) "Textures" in
  (forall l, scan_order E l ≡ₚ l) ->
  for_each [ms; mt] (clear_links E) σ = (Ok tt, σc) ->
  merge_shaders E c σ = (Ok n, σ') ->
  scan_order E (filter (fun k => Path.is_child (shaders_path c) k) (Fs.paths σc))
  = pre ++ r1 :: rest ->
  tree_file σc r1 nm1 sub1 f1 ->
  (nm1 = "Shaders" /\ d1 = ms) \/ (nm1 = "Textures" /\ d1 = mt) ->
  Path.name f1 = X ->
  r2 ∈ rest ->
  tree_file σc r2 nm2 sub2 f2 ->
  (nm2 = "Shaders" /\ d2 = ms) \/ (nm2 = "Textures" /\ d2 = mt) ->
  Path.name f2 = X ->
  exists before s d after,
    let start := {| seen_files := ∅; mfs := σc |} in
    (exists st,
       link_all E (before ++ (s, d) :: after) start = (Ok tt, st) /\
       mfs st = σ' /\ n = size (seen_files st)) /\
    (forall q, q ∈ before -> Path.name q.1 <> X) /\
    Path.name s = X /\
    (exists r0, r0 ∈ pre ++ [r1] /\ walked_from ms mt r0 (s, d)) /\
    (f2, d2) ∈ after /\
    (σc !! Path.join d X = None ->
     σ' !! Path.join d X
     = Some (Symlink (resolve E (mfs (link_all E before start).2) s))) /\
    (forall d', d' = ms \/ d' = mt -> d' <> d ->
       σ' !! Path.join d' X = σc !! Path.join d' X).
Proof.
  intros ms mt Hperm Hclear Hrun Horder Hf1 Hd1 HX Hr2 Hf2 Hd2 HX2.
  set (start := {| seen_files := ∅; mfs := σc |}).
  (* the name *)
  assert (X <> "" /\ Path.split_last X = None) as [HXne HXc].
  { subst X. split; [|apply name_component].
    destruct Hf1 as (_ & _ & _ & _ & _ & Hc & _). by apply is_child_inv in Hc as [? _]. }
  (* the run, taken apart *)
  unfold merge_shaders in Hrun. fold ms mt in Hrun.
  rewrite (bind_Ok _ _ _ _ _ Hclear) in Hrun. fold start in Hrun.
  destruct (merge_body E c ms mt start) as [[[]|e] stf] eqn:Hbody; [|done].
  injection Hrun as <- <-.
  unfold merge_body in Hbody.
  apply bind_Ok_inv in Hbody as ([] & a3 & Hrepos & Hext).
  unfold merge_repos in Hrepos.
  apply bind_Ok_inv in Hrepos as (repos & a0 & Hit & Hloop).
  pose proof (lift_fs_read_only _ (iterdir_read_only E (shaders_path c)) start) as Hro.
  rewrite Hit in Hro. simpl in Hro. subst a0.
  apply lift_iterdir_Ok in Hit. simpl in Hit. rewrite Horder in Hit. subst repos.
  rewrite for_each_app in Hloop.
  apply bind_Ok_inv in Hloop as ([] & a1 & Hpre & Hloop).
  rewrite for_each_cons in Hloop.
  apply bind_Ok_inv in Hloop as ([] & a2 & Hone & Hrest).
  (* the calls made *)
  destruct (repos_loop_trace E ms mt Hperm _ _ _ _ Hpre)
    as (reqs_pre & r & Hrun_pre & Hr & Hfrom_pre & _).
  specialize (Hr eq_refl). subst r.
  pose proof (link_all_grows E _ _ _ _ Hrun_pre) as [_ Hkeep1].
  destruct (repo_body_trace E ms mt Hperm _ _ _ _ Hone)
    as (reqs_1 & r & Hrun_1 & Hr & Hfrom_1 & Hcov_1).
  specialize (Hr eq_refl). subst r.
  pose proof (link_all_grows E _ _ _ _ Hrun_1) as [_ Hkeep2].
  destruct (repos_loop_trace E ms mt Hperm _ _ _ _ Hrest)
    as (reqs_rest & r & Hrun_rest & Hr & Hfrom_rest & Hcov_rest).
  specialize (Hr eq_refl). subst r.
  destruct (merge_external_trace E ms mt Hperm c a3)
    as (reqs_ext & r & Hrun_ext & Hr & Hfrom_ext).
  rewrite Hext in Hrun_ext, Hr. simpl in Hrun_ext, Hr.
  specialize (Hr eq_refl). subst r.
  assert (forall (a b : merge_state) r nm sub f,
            (forall p nd, mfs a !! p = Some nd -> mfs b !! p = Some nd) ->
            tree_file (mfs a) r nm sub f -> tree_file (mfs b) r nm sub f) as Htf.
  { intros a b r nm sub f Hk. by apply tree_file_keeps. }
  assert ((f1, d1) ∈ reqs_1) as Hin1.
  { assert (tree_file (mfs a1) r1 nm1 sub1 f1) as Htf1 by (by apply (Htf start a1)).
    destruct (Hcov_1 eq_refl nm1 sub1 f1 Htf1) as [Hs Ht].
    destruct Hd1 as [[-> ->]|[-> ->]]; auto. }
  assert ((f2, d2) ∈ reqs_rest) as Hin2.
  { assert (tree_file (mfs a2) r2 nm2 sub2 f2) as Htf2.
    { apply (Htf a1 a2); [done|]. by apply (Htf start a1). }
    destruct (Hcov_rest eq_refl r2 nm2 sub2 f2 Hr2 Htf2) as [Hs Ht].
    destruct Hd2 as [[-> ->]|[-> ->]]; auto. }
  assert (forall q, q ∈ reqs_pre ++ reqs_1 ->
            exists r0, r0 ∈ pre ++ [r1] /\ walked_from ms mt r0 q) as Hfrom.
  { intros q [Hq|Hq]%elem_of_app.
    - destruct (Hfrom_pre q Hq) as (r0 & Hr0 & Hw). exists r0.
      split; [apply elem_of_app; by left|done].
    - exists r1. split; [apply elem_of_app; right; apply list_elem_of_here|].
      by apply Hfrom_1. }
  assert (forall r0 q, walked_from ms mt r0 q ->
            Path.name q.1 <> "" /\ (q.2 = ms \/ q.2 = mt)) as Hwalked.
  { intros r0 q (nm & sub & Hd & _ & _ & Hc).
    apply is_child_inv in Hc as [Hne _]. split; [done|].
    destruct Hd as [[_ ->]|[_ ->]]; auto. }
  (* the first call for the name *)
  destruct (first_with (fun q : string * string => Path.name q.1 = X)
              (reqs_pre ++ reqs_1) (f1, d1))
    as (before & [s d] & aft & Hsplit & Hs & Hbefore);
    [apply elem_of_app; by right|done|].
  simpl in Hs.
  set (after := aft ++ reqs_rest ++ reqs_ext).
  assert (link_all E (before ++ (s, d) :: after) start = (Ok tt, stf)) as Hall.
  { subst after. rewrite app_comm_cons, app_assoc, <- Hsplit.
    assert (link_all E (reqs_pre ++ reqs_1) start = (Ok tt, a2)) as H12.
    { by rewrite (link_all_app E _ _ _ _ Hrun_pre). }
    rewrite (link_all_app E _ _ _ _ H12).
    by rewrite (link_all_app E _ _ _ _ Hrun_rest). }
  assert (forall q, q ∈ before ++ (s, d) :: after -> Path.name q.1 <> "") as Hnames.
  { intros q Hq. subst after.
    rewrite app_comm_cons, app_assoc, <- Hsplit in Hq.
    apply elem_of_app in Hq as [Hq|Hq].
    - destruct (Hfrom q Hq) as (r0 & _ & Hw). by apply (Hwalked r0 q).
    - apply elem_of_app in Hq as [Hq|Hq].
      + destruct (Hfrom_rest q Hq) as (r0 & _ & Hw). by apply (Hwalked r0 q).
      + by apply Hfrom_ext. }
  assert (d = ms \/ d = mt) as Hd.
  { destruct (Hfrom (s, d)) as (r0 & _ & Hw).
    - rewrite Hsplit. apply elem_of_app. right. apply list_elem_of_here.
    - by apply (Hwalked r0 (s, d)). }
  pose proof Hall as Hparts.
  apply link_all_app_Ok in Hparts as (st_b & Hrun_b & Hrun_c).
  destruct (link_file E s d st_b) as [[b|e] st_c] eqn:Hcall.
  2:{ by rewrite (link_all_cons_Raise E _ _ _ _ _ _ Hcall) in Hrun_c. }
  rewrite (link_all_cons_Ok E _ _ _ _ _ _ Hcall) in Hrun_c.
  assert (forall d0,
            mfs st_b !! Path.join d0 X = σc !! Path.join d0 X /\
            (X ∈ seen_files st_b -> X ∈ seen_files start)) as Hb.
  { intros d0. apply (link_all_keeps_name E X d0 before start (Ok tt) st_b); auto.
    - intros q Hq. apply Hnames. apply elem_of_app. by left.
    - intros q Hq Hn. by destruct (Hbefore q Hq). }
  assert (X ∉ seen_files st_b) as Hnew.
  { intros Hin. destruct (Hb ms) as [_ Himp]. by apply Himp in Hin. }
  rewrite <- Hs in Hnew.
  destruct (link_file_first E _ _ _ _ _ Hcall Hnew) as (Hseen & Hlink & Hother).
  rewrite Hs in Hseen, Hlink, Hother.
  assert (forall d0, mfs stf !! Path.join d0 X = mfs st_c !! Path.join d0 X) as Hc.
  { intros d0.
    apply (link_all_keeps_name E X d0 after st_c (Ok tt) stf); auto.
    intros q Hq. apply Hnames. apply elem_of_app. right. by right. }
  exists before, s, d, after. simpl. fold start.
  split; [by exists stf|]. split; [done|]. split; [done|].
  split.
  { apply Hfrom. rewrite Hsplit. apply elem_of_app. right. apply list_elem_of_here. }
  split.
  { subst after. apply elem_of_app. right. apply elem_of_app. by left. }
  split.
  - intros Hfree. rewrite Hc. rewrite Hrun_b. simpl. apply Hlink.
    destruct (Hb d) as [-> _]. exact Hfree.
  - intros d' Hd' Hne. rewrite Hc. rewrite Hother; [by destruct (Hb d') as [-> _]|].
    intros Heq.
    assert (Path.is_child d (Path.join d X) = true) as H1 by (by apply is_child_join).
    assert (Path.is_child d' (Path.join d X) = true) as H2.
    { rewrite <- Heq. by apply is_child_join. }
    destruct Hd as [-> | ->], Hd' as [-> | ->]; try done.
    + by apply (merged_dirs_disjoint (merged_path c) (Path.join ms X)).
    + by apply (merged_dirs_disjoint (merged_path c) (Path.join mt X)).
Qed.

Lemma merge_shaders_first_tree_wins_witness :
  let ms := Path.join (merged_path Sample.config) "Shaders" in
  let mt := Path.join (merged_path Sample.config) "Textures" in
  let σc := (for_each [ms; mt] (clear_links Sample.env) Sample.fs_merge_two_repos).2 in
  let σ' := (merge_shaders Sample.env Sample.config Sample.fs_merge_two_repos).2 in
  let X := "X.fx" in
  exists before s d after,
    let start := {| seen_files := ∅; mfs := σc |} in
    (exists st,
       link_all Sample.env (before ++ (s, d) :: after) start = (Ok tt, st) /\
       mfs st = σ' /\ 2 = size (seen_files st)) /\
    (forall q, q ∈ before -> Path.name q.1 <> X) /\
    Path.name s = X /\
    (exists r0, r0 ∈ ["/m/ReShade_shaders/Merged"] ++ ["/m/ReShade_shaders/r1"] /\
                walked_from ms mt r0 (s, d)) /\
    ("/m/ReShade_shaders/r2/Shaders/X.fx", ms) ∈ after /\
    (σc !! Path.join d X = None ->
     σ' !! Path.join d X
     = Some (Symlink (resolve Sample.env (mfs (link_all Sample.env before start).2) s))) /\
    (forall d', d' = ms \/ d' = mt -> d' <> d ->
       σ' !! Path.join d' X = σc !! Path.join d' X).
Proof.
  intros ms mt σc σ' X.
  refine (merge_shaders_first_tree_wins Sample.env Sample.config
            Sample.fs_merge_two_repos σc 2 σ'
            ["/m/ReShade_shaders/Merged"] "/m/ReShade_shaders/r1"
            ["/m/ReShade_shaders/r2"]
            "Shaders" "/m/ReShade_shaders/r1/Shaders"
            "/m/ReShade_shaders/r1/Shaders/X.fx" ms X
            "/m/ReShade_shaders/r2" "Shaders"
            "/m/ReShade_shaders/r2/Shaders" "/m/ReShade_shaders/r2/Shaders/X.fx" ms
            _ _ _ _ _ _ _ _ _ _ _).
  - intros l. reflexivity.
  - vm_compute. reflexivity.
  - vm_compute. reflexivity.
  - vm_compute. reflexivity.
  - unfold tree_file. repeat split; try (vm_compute; reflexivity).
    vm_compute. discriminate.
  - left. split; reflexivity.
  - vm_compute. reflexivity.
  - apply list_elem_of_here.
  - unfold tree_file. repeat split; try (vm_compute; reflexivity).
    vm_compute. discriminate.
  - left. split; reflexivity.
  - vm_compute. reflexivity.
Defined.
